(** * LeetCode Assistant: problem extraction and streaming chat pipeline

    A shallow embedding of the extension's scraper
    (background service worker and content script), of the background
    message handler and of the streaming chat client, followed by the
    properties proved about them.

    Part I holds the definitions, one module per source unit.
    Part II holds the lemmas and theorems. *)

From Equations Require Import Equations.
From Stdlib Require Import List String Ascii Bool ZArith NArith Arith Lia Sorted.
Import ListNotations.
Open Scope string_scope.
Set Warnings "-register-all".

(* ===================================================================== *)
(** * Part I: definitions                                                 *)
(* ===================================================================== *)

(** ** JavaScript strings

    Page text is modelled by [string]: a sequence of code units in the
    range 0..255 (the Latin-1 part of UTF-16).  On that range every
    function below is the ECMAScript one. *)

Module Js.

Definition code (c : ascii) : N := N_of_ascii c.

(** [WhiteSpace] and [LineTerminator] of ECMAScript, as removed by
    [String.prototype.trim] and matched by the regexp class [\s]:
    TAB, LF, VT, FF, CR, SP and NBSP are the ones below 256. *)
Definition isWhiteSpace (c : ascii) : bool :=
  let n := code c in
  ((9 <=? n) && (n <=? 13) || (n =? 32) || (n =? 160))%N.

(** Line terminators, which the regexp atom [.] refuses. *)
Definition isLineTerminator (c : ascii) : bool :=
  let n := code c in ((n =? 10) || (n =? 13))%N.

Definition isDigit (c : ascii) : bool :=
  let n := code c in ((48 <=? n) && (n <=? 57))%N.

Fixpoint trimStart (s : string) : string :=
  match s with
  | EmptyString => EmptyString
  | String c rest => if isWhiteSpace c then trimStart rest else s
  end.

Fixpoint trimEnd (s : string) : string :=
  match s with
  | EmptyString => EmptyString
  | String c rest =>
      match trimEnd rest with
      | EmptyString => if isWhiteSpace c then EmptyString else String c EmptyString
      | kept => String c kept
      end
  end.

(** [s.trim()] *)
Definition trim (s : string) : string := trimEnd (trimStart s).

(** [c.toLowerCase()] on one code unit: A-Z, and the Latin-1 capitals
    U+00C0..U+00DE except the multiplication sign U+00D7. *)
Definition lowerChar (c : ascii) : ascii :=
  let n := code c in
  if ((65 <=? n) && (n <=? 90)
      || (192 <=? n) && (n <=? 222) && negb (n =? 215))%N
  then ascii_of_N (n + 32)
  else c.

(** [s.toLowerCase()] *)
Fixpoint toLowerCase (s : string) : string :=
  match s with
  | EmptyString => EmptyString
  | String c rest => String (lowerChar c) (toLowerCase rest)
  end.

(** [s.startsWith(p)] *)
Definition startsWith (s p : string) : bool := String.prefix p s.

(** [s.includes(sub)] *)
Fixpoint includes (s sub : string) : bool :=
  String.prefix sub s
  || match s with
     | EmptyString => false
     | String _ rest => includes rest sub
     end.

(** [s.split(sep)] for a separator of one code unit; never empty. *)
Fixpoint split (sep : ascii) (s : string) : list string :=
  match s with
  | EmptyString => [EmptyString]
  | String c rest =>
      if Ascii.eqb c sep then EmptyString :: split sep rest
      else match split sep rest with
           | [] => [String c EmptyString]
           | piece :: pieces => String c piece :: pieces
           end
  end.

(** [parts.join(sep)] *)
Fixpoint join (sep : string) (parts : list string) : string :=
  match parts with
  | [] => EmptyString
  | [p] => p
  | p :: rest => p ++ sep ++ join sep rest
  end.

(** Truthiness of a string: [Boolean(s)]. *)
Definition nonEmpty (s : string) : bool :=
  match s with EmptyString => false | String _ _ => true end.

Definition LF : string := String (ascii_of_N 10) EmptyString.

(** *** Values

    The values the scraper meets behind [unknown] and behind its casts.
    A number is kept as the text [String(n)] gives for it: the sources
    only test numbers for truthiness and turn them into text.  The
    properties of an object are listed in the order [Object.values]
    enumerates them. *)
Inductive JsValue : Type :=
| JUndefined
| JNull
| JBool (b : bool)
| JNum (repr : string)
| JStr (s : string)
| JArr (items : list JsValue)
| JObj (props : list (string * JsValue)).

(** [Boolean(v)], the test behind [!v], [v && ...] and [if (v)]. *)
Definition truthy (v : JsValue) : bool :=
  match v with
  | JUndefined | JNull => false
  | JBool b => b
  | JNum repr => negb (String.eqb repr "0" || String.eqb repr "NaN")
  | JStr s => nonEmpty s
  | JArr _ | JObj _ => true
  end.

(** [v && typeof v === 'object'] *)
Definition isObject (v : JsValue) : bool :=
  match v with
  | JArr _ | JObj _ => true
  | _ => false
  end.

(** [typeof v === 'string'] *)
Definition isString (v : JsValue) : bool :=
  match v with
  | JStr _ => true
  | _ => false
  end.

Definition isNullish (v : JsValue) : bool :=
  match v with
  | JUndefined | JNull => true
  | _ => false
  end.

Fixpoint lookup (key : string) (props : list (string * JsValue)) : JsValue :=
  match props with
  | [] => JUndefined
  | (k, v) :: rest => if String.eqb k key then v else lookup key rest
  end.

(** [v.key] for a value that is not nullish.  None of the keys the
    scraper reads is a property of arrays or of primitives. *)
Definition get (v : JsValue) (key : string) : JsValue :=
  match v with
  | JObj props => lookup key props
  | _ => JUndefined
  end.

(** [v?.key] *)
Definition getOpt (v : JsValue) (key : string) : JsValue :=
  if isNullish v then JUndefined else get v key.

(** [a ?? b] *)
Definition orElse (a b : JsValue) : JsValue :=
  if isNullish a then b else a.

(** [Object.values(v)] of an object. *)
Definition values (props : list (string * JsValue)) : list JsValue :=
  map snd props.

(** [String(v)] *)
Fixpoint toString (v : JsValue) : string :=
  match v with
  | JUndefined => "undefined"
  | JNull => "null"
  | JBool true => "true"
  | JBool false => "false"
  | JNum repr => repr
  | JStr s => s
  | JArr items =>
      join "," (map (fun item => if isNullish item then EmptyString else toString item) items)
  | JObj _ => "[object Object]"
  end.

(** *** Completions

    What a call ends with: a value, or a thrown exception (for a promise:
    fulfilled or rejected). *)
Inductive Exn : Type :=
| TypeError (message : string)     (* raised by the engine *)
| ErrorMsg (message : string)      (* [new Error(message)] *)
| Thrown (v : JsValue).            (* a thrown value that is no [Error] *)

(** [error instanceof Error ? error.message : fallback] *)
Definition messageOr (fallback : string) (error : Exn) : string :=
  match error with
  | TypeError message | ErrorMsg message => message
  | Thrown _ => fallback
  end.

Inductive Completion (A : Type) : Type :=
| Return (a : A)
| Throw (e : Exn).
Arguments Return {A} a.
Arguments Throw {A} e.

Definition bind {A B : Type} (c : Completion A) (k : A -> Completion B) : Completion B :=
  match c with
  | Return a => k a
  | Throw e => Throw e
  end.

End Js.

Notation "x <- c ;; k" := (Js.bind c (fun x => k))
  (at level 61, c at next level, right associativity).

(** ** Slugs and difficulty labels (service worker and content script)

    [toSlug] and [normalizeDifficulty] are declared twice in the sources,
    once in the content script and once inside [scrapeProblemInPage] of the
    service worker, with the same text. *)

Module Normalizer.

Import Js.

(** The regexp class [[a-z0-9]]. *)
Definition isSlugChar (c : ascii) : bool :=
  let n := code c in
  ((97 <=? n) && (n <=? 122) || (48 <=? n) && (n <=? 57))%N.

(** [.replace(/[^a-z0-9]+/g, '-')]: every maximal run of other code units
    becomes one dash.  [inRun] tells that a dash was just written for the
    run being read. *)
Fixpoint dashRuns (inRun : bool) (s : string) : string :=
  match s with
  | EmptyString => EmptyString
  | String c rest =>
      if isSlugChar c then String c (dashRuns false rest)
      else if inRun then dashRuns true rest
      else String "-" (dashRuns true rest)
  end.

Definition dropLeadingDash (s : string) : string :=
  match s with
  | String "-" rest => rest
  | _ => s
  end.

Fixpoint dropTrailingDash (s : string) : string :=
  match s with
  | EmptyString => EmptyString
  | String c EmptyString => if Ascii.eqb c "-" then EmptyString else s
  | String c rest => String c (dropTrailingDash rest)
  end.

(** [.replace(/^-|-$/g, '')] *)
Definition stripEdgeDashes (s : string) : string :=
  dropTrailingDash (dropLeadingDash s).

Definition toSlug (value : string) : string :=
  stripEdgeDashes (dashRuns false (toLowerCase value)).

Inductive Difficulty : Type := Easy | Medium | Hard.

(** [toSlug(value)] as the scraper calls it, on a value read through a
    cast: [value.toLowerCase] is not a function unless [value] is a
    string. *)
Definition toSlugOf (value : JsValue) : Completion string :=
  match value with
  | JStr s => Return (toSlug s)
  | _ => Throw (TypeError "value.toLowerCase is not a function")
  end.

(** [normalizeDifficulty(value)], declared for [string | undefined | null].
    [!value] holds for [undefined], [null] and the empty string (and for
    the other falsy values a cast may let through); [value.trim] is not a
    function on a truthy value that is not a string. *)
Definition normalizeDifficulty (value : JsValue) : Completion Difficulty :=
  if negb (truthy value) then Return Medium
  else
    match value with
    | JStr s =>
        let normalized := trim s in
        if String.eqb normalized "Easy" then Return Easy
        else if String.eqb normalized "Medium" then Return Medium
        else if String.eqb normalized "Hard" then Return Hard
        else Return Medium
    | _ => Throw (TypeError "value.trim is not a function")
    end.

(** The label a [Difficulty] stands for. *)
Definition label (d : Difficulty) : string :=
  match d with
  | Easy => "Easy"
  | Medium => "Medium"
  | Hard => "Hard"
  end.

End Normalizer.

(** ** The DOM, as the scraper reads it

    A tree of nodes.  Every element is an HTML element of an HTML
    document, named by its local name (lower case), so that
    [e.tagName === 'UL'] and [e.tagName.toLowerCase() === 'ul'] both read
    [tag e = "ul"].  An element is referred to by the path of child
    indices that leads to it from the root, which is what makes
    [parentElement] and [nextElementSibling] computable. *)

Module Dom.

Import Js.

Inductive Node : Type :=
| Text (data : string)
| Comment (data : string)
| Element (tag : string) (attrs : list (string * string)) (childNodes : list Node).

Definition Path : Type := list nat.

(** A reference to an element: where it is and what it is. *)
Definition Handle : Type := (Path * Node)%type.

Definition isElement (n : Node) : bool :=
  match n with
  | Element _ _ _ => true
  | _ => false
  end.

Definition tagOf (n : Node) : string :=
  match n with
  | Element tag _ _ => tag
  | _ => EmptyString
  end.

Definition childNodesOf (n : Node) : list Node :=
  match n with
  | Element _ _ kids => kids
  | _ => []
  end.

(** [e.children]: the child elements. *)
Definition children (n : Node) : list Node := filter isElement (childNodesOf n).

(** [e.textContent]: the text of the descendants, comments left out. *)
Fixpoint textContent (n : Node) : string :=
  match n with
  | Text data => data
  | Comment _ => EmptyString
  | Element _ _ kids =>
      (fix cat (ks : list Node) : string :=
         match ks with
         | [] => EmptyString
         | k :: rest => textContent k ++ cat rest
         end) kids
  end.

Fixpoint getAttr (name : string) (attrs : list (string * string)) : option string :=
  match attrs with
  | [] => None
  | (k, v) :: rest => if String.eqb k name then Some v else getAttr name rest
  end.

(** [e.getAttribute(name)] *)
Definition getAttribute (n : Node) (name : string) : option string :=
  match n with
  | Element _ attrs _ => getAttr name attrs
  | _ => None
  end.

(** ASCII whitespace, which separates the tokens of a [class] attribute. *)
Definition isAsciiSpace (c : ascii) : bool :=
  let n := code c in
  ((n =? 9) || (n =? 10) || (n =? 12) || (n =? 13) || (n =? 32))%N.

Fixpoint tokens (cur : string) (s : string) : list string :=
  match s with
  | EmptyString => if nonEmpty cur then [cur] else []
  | String c rest =>
      if isAsciiSpace c
      then ((if nonEmpty cur then [cur] else []) ++ tokens EmptyString rest)%list
      else tokens (cur ++ String c EmptyString) rest
  end.

(** The selectors the sources use. *)
Inductive Selector : Type :=
| ByTag (tag : string)                    (* [strong], [pre] *)
| ByAttr (name : string)                  (* [[diff]] *)
| ByAttrValue (name value : string)       (* [[data-cy="question-title"]] *)
| ByClass (cls : string).                 (* [.question-content__JfgR] *)

Definition matches (sel : Selector) (n : Node) : bool :=
  match n with
  | Element tag attrs _ =>
      match sel with
      | ByTag t => String.eqb tag t
      | ByAttr name =>
          match getAttr name attrs with Some _ => true | None => false end
      | ByAttrValue name value =>
          match getAttr name attrs with
          | Some v => String.eqb v value
          | None => false
          end
      | ByClass cls =>
          match getAttr "class" attrs with
          | Some v => existsb (String.eqb cls) (tokens EmptyString v)
          | None => false
          end
      end
  | _ => false
  end.

(** The walk over a list of child nodes, the first of which has index
    [i]: each child element, then what [below] finds under it, then its
    later siblings. *)
Definition walkWith (below : Node -> list Handle) : nat -> list Node -> list Handle :=
  fix walk (i : nat) (ks : list Node) : list Handle :=
    match ks with
    | [] => []
    | k :: rest =>
        ((if isElement k then [([i], k)] else [])
         ++ map (fun h => (i :: fst h, snd h)) (below k)
         ++ walk (S i) rest)%list
    end.

(** The element descendants of [n] in document order (a parent before its
    children, a child before its later siblings), each with its path from
    [n]. *)
Fixpoint descendants (n : Node) : list Handle :=
  match n with
  | Element _ _ kids => walkWith descendants 0 kids
  | _ => []
  end.

(** Document order on paths: a path comes before its extensions, and
    otherwise the first index that differs decides. *)
Fixpoint before (p q : Path) : Prop :=
  match p, q with
  | [], [] => False
  | [], _ :: _ => True
  | _ :: _, [] => False
  | i :: p', j :: q' => i < j \/ (i = j /\ before p' q')
  end.

Definition handleBefore (a b : Handle) : Prop := before (fst a) (fst b).

(** The node a path leads to. *)
Fixpoint nodeAt (n : Node) (p : Path) : option Node :=
  match p with
  | [] => Some n
  | i :: q =>
      match nth_error (childNodesOf n) i with
      | Some k => nodeAt k q
      | None => None
      end
  end.

(** [e.querySelectorAll(sel)] for the element at [root] of [doc]; the
    handles carry paths from the root of [doc]. *)
Definition querySelectorAll (doc : Node) (root : Path) (sel : Selector) : list Handle :=
  match nodeAt doc root with
  | Some e =>
      map (fun h => ((root ++ fst h)%list, snd h))
          (filter (fun h => matches sel (snd h)) (descendants e))
  | None => []
  end.

(** [e.querySelector(sel)] on a node, when only the node found matters. *)
Definition querySelector (e : Node) (sel : Selector) : option Node :=
  option_map snd (find (fun h => matches sel (snd h)) (descendants e)).

(** [document.querySelector(sel)]: the root element is a candidate too. *)
Definition documentQuerySelector (doc : Node) (sel : Selector) : option Handle :=
  find (fun h => matches sel (snd h)) (([], doc) :: descendants doc).

(** [e.parentElement] for the element at path [p]. *)
Definition parentElement (doc : Node) (p : Path) : option Handle :=
  match p with
  | [] => None
  | _ :: _ =>
      match nodeAt doc (removelast p) with
      | Some e => Some (removelast p, e)
      | None => None
      end
  end.

Fixpoint firstElementFrom (i : nat) (ks : list Node) : option (nat * Node) :=
  match ks with
  | [] => None
  | k :: rest => if isElement k then Some (i, k) else firstElementFrom (S i) rest
  end.

(** [e.nextElementSibling] for the element at path [p]; the root has no
    sibling. *)
Definition nextElementSibling (doc : Node) (p : Path) : option Handle :=
  match p with
  | [] => None
  | _ :: _ =>
      let up := removelast p in
      let i := last p 0 in
      match nodeAt doc up with
      | Some e =>
          match firstElementFrom (S i) (skipn (S i) (childNodesOf e)) with
          | Some (j, k) => Some ((up ++ [j])%list, k)
          | None => None
          end
      | None => None
      end
  end.

End Dom.

(** ** The scraper ([scrapeProblemInPage] and the content script)

    The page the scraper runs in: its location, the embedded
    [__NEXT_DATA__] blob and its document. *)

Module Scraper.

Import Js Normalizer Dom.

Record Page : Type := {
  pathname : string;          (* [window.location.pathname] *)
  href : string;              (* [window.location.href] *)
  nextData : JsValue;         (* [window.__NEXT_DATA__] *)
  document : Node             (* the document element *)
}.

(** [ParsedProblem = Omit<Problem, 'timestamp'>].  [title] is whatever the
    cast [as string | undefined] let through. *)
Record ParsedProblem : Type := {
  title : JsValue;
  difficulty : Difficulty;
  description : string;
  examples : list string;
  constraints : string;
  url : string;
  slug : string;
  problemNumber : string
}.

Record Problem : Type := {
  parsed : ParsedProblem;
  timestamp : Z
}.

(** [window.location.pathname.split('/').filter(Boolean)[1]] *)
Definition pathSegment (page : Page) : JsValue :=
  match nth_error (filter nonEmpty (split "/" (pathname page))) 1 with
  | Some seg => JStr seg
  | None => JUndefined
  end.

Definition currentSlug (page : Page) : string :=
  match orElse (pathSegment page) (JStr EmptyString) with
  | JStr seg => toSlug seg
  | _ => EmptyString
  end.

(** *** Splitting a statement into description, examples and constraints *)

Record Content : Type := {
  descriptionParts : list string;
  contentExamples : list string;
  contentConstraints : string
}.

Definition NOT_DETECTED : string := "Constraints not detected.".
Definition NO_DESCRIPTION : string := "Unable to extract the problem description.".

(** The loop over [root.children] that fills [descriptionParts]; both
    [break]s end it. *)
Fixpoint collectDescription (kids : list Node) : list string :=
  match kids with
  | [] => []
  | child :: rest =>
      let strongText :=
        match querySelector child (ByTag "strong") with
        | Some strong => toLowerCase (trim (textContent strong))
        | None => EmptyString
        end in
      if startsWith strongText "example" || startsWith strongText "constraints" then []
      else if String.eqb (tagOf child) "pre" then []
      else
        let text := trim (textContent child) in
        if nonEmpty text then text :: collectDescription rest
        else collectDescription rest
  end.

(** [Array.from(root.querySelectorAll('pre')).map(...).filter(Boolean)] *)
Definition collectExamples (doc : Node) (root : Path) : list string :=
  filter nonEmpty
    (map (fun node => trim (textContent (snd node)))
         (querySelectorAll doc root (ByTag "pre"))).

Definition isConstraintLabel (node : Handle) : bool :=
  includes (toLowerCase (textContent (snd node))) "constraint".

Definition isList (e : Node) : bool :=
  String.eqb (tagOf e) "ul" || String.eqb (tagOf e) "ol".

Definition listItems (listCandidate : Node) : string :=
  join LF (filter nonEmpty
             (map (fun item => trim (textContent item)) (children listCandidate))).

Definition collectConstraints (doc : Node) (root : Path) : string :=
  let strongNodes := querySelectorAll doc root (ByTag "strong") in
  match find isConstraintLabel strongNodes with
  | None => NOT_DETECTED
  | Some constraintNode =>
      match parentElement doc (fst constraintNode) with
      | None => NOT_DETECTED
      | Some parent =>
          match nextElementSibling doc (fst parent) with
          | Some listCandidate =>
              if isList (snd listCandidate) then listItems (snd listCandidate)
              else trim (textContent (snd parent))
          | None => trim (textContent (snd parent))
          end
      end
  end.

(** The statements that [parseHtmlContent] runs on [body] and
    [extractFromDom] repeats on [contentRoot]. *)
Definition readContent (doc : Node) (root : Path) : Content :=
  let kids := match nodeAt doc root with Some e => children e | None => [] end in
  {| descriptionParts := collectDescription kids;
     contentExamples := collectExamples doc root;
     contentConstraints := collectConstraints doc root |}.

(** [a || b || c] on strings. *)
Definition firstNonEmpty (a b c : string) : string :=
  if nonEmpty a then a else if nonEmpty b then b else c.

Definition describe (c : Content) (rootText : string) : string :=
  firstNonEmpty (join (LF ++ LF) (descriptionParts c)) (trim rootText) NO_DESCRIPTION.

Section WithParser.

(** [new DOMParser().parseFromString(html, 'text/html').body]: the HTML
    parser is the browser's.  [body] has no parent element that matters and
    no sibling after it, so it is the root of the tree it is given as. *)
Variable parseFromString : string -> Node.

Definition parseHtmlContent (html : string) : string * list string * string :=
  let body := parseFromString html in
  let c := readContent body [] in
  (describe c (textContent body), contentExamples c, contentConstraints c).

(** *** Structured data *)

Definition isCandidate (value : JsValue) : bool :=
  if negb (truthy value) || negb (isObject value) then false
  else isString (get value "title")
       && (isString (get value "content") || isString (get value "body")).

(** [candidate.title ?? candidate.questionTitle ?? candidate.question?.title] *)
Definition candidateTitle (candidate : JsValue) : JsValue :=
  orElse (orElse (get candidate "title") (get candidate "questionTitle"))
         (getOpt (get candidate "question") "title").

(** [toSlug(candidate.titleSlug ?? candidate.slug ?? title)] *)
Definition candidateSlugOf (candidate title : JsValue) : Completion string :=
  toSlugOf (orElse (orElse (get candidate "titleSlug") (get candidate "slug")) title).

Definition extractFromCandidate (page : Page) (candidate : JsValue) (slug : string)
  : Completion (option ParsedProblem) :=
  let question := get candidate "question" in
  let title := candidateTitle candidate in
  if negb (truthy title) then Return None
  else
    let content :=
      orElse (orElse (get candidate "content") (getOpt question "content"))
             (get candidate "body") in
    if negb (truthy content) then Return None
    else
      candidateSlug <- candidateSlugOf candidate title ;;
      if nonEmpty slug && nonEmpty candidateSlug && negb (String.eqb candidateSlug slug)
      then Return None
      else
        difficulty <- normalizeDifficulty
                        (orElse (get candidate "difficulty") (getOpt question "difficulty")) ;;
        let problemNumber :=
          orElse
            (orElse
               (orElse
                  (orElse
                     (orElse
                        (orElse (get candidate "questionFrontendId")
                                (get candidate "frontendQuestionId"))
                        (get candidate "questionId"))
                     (getOpt question "questionFrontendId"))
                  (getOpt question "frontendQuestionId"))
               (getOpt question "questionId"))
            (orElse (pathSegment page) title) in
        let '(description, examples, constraints) := parseHtmlContent (toString content) in
        Return (Some {| title := title;
                        difficulty := difficulty;
                        description := description;
                        examples := examples;
                        constraints := constraints;
                        url := href page;
                        slug := if nonEmpty candidateSlug then candidateSlug else slug;
                        problemNumber := toString problemNumber |}).

(** The traversal of [extractFromNextData].  The stack is a list whose
    head is the top: [stack.push(x)] is [x :: stack], [stack.pop()] takes
    the head. *)
Definition push (stack : list JsValue) (item : JsValue) : list JsValue :=
  item :: stack.

Definition enqueue (stack : list JsValue) (value : JsValue) : list JsValue :=
  if negb (truthy value) || negb (isObject value) then stack
  else
    match value with
    | JArr items => fold_left push items stack
    | _ => push stack value
    end.

(** What the loop body leaves on the stack below a node it did not
    return from. *)
Definition expand (node : JsValue) (rest : list JsValue) : list JsValue :=
  match node with
  | JArr _ => enqueue rest node
  | JObj props => fold_left enqueue (values props) rest
  | _ => rest
  end.

Fixpoint size (v : JsValue) : nat :=
  match v with
  | JArr items =>
      S ((fix sum (l : list JsValue) : nat :=
            match l with
            | [] => 0
            | x :: rest => size x + sum rest
            end) items)
  | JObj props =>
      S ((fix sum (l : list (string * JsValue)) : nat :=
            match l with
            | [] => 0
            | kv :: rest => size (snd kv) + sum rest
            end) props)
  | _ => 1
  end.

Definition sizes (l : list JsValue) : nat := list_sum (map size l).

Lemma size_pos (v : JsValue) : 0 < size v.
Proof. destruct v; simpl; lia. Qed.

Lemma size_JArr (items : list JsValue) : size (JArr items) = S (sizes items).
Proof.
  unfold sizes. simpl. f_equal.
  induction items as [|x rest IH]; simpl; [reflexivity | now rewrite IH].
Qed.

Lemma size_JObj (props : list (string * JsValue)) :
  size (JObj props) = S (sizes (values props)).
Proof.
  unfold sizes, values. simpl. f_equal.
  induction props as [|kv rest IH]; simpl; [reflexivity | now rewrite IH].
Qed.

Lemma sizes_cons (x : JsValue) (l : list JsValue) :
  sizes (x :: l) = size x + sizes l.
Proof. reflexivity. Qed.

Lemma sizes_push_all (items stack : list JsValue) :
  sizes (fold_left push items stack) = sizes items + sizes stack.
Proof.
  revert stack. induction items as [|x rest IH]; intros stack.
  - reflexivity.
  - cbn [fold_left]. rewrite IH. unfold push. rewrite !sizes_cons. lia.
Qed.

Lemma sizes_enqueue (stack : list JsValue) (value : JsValue) :
  sizes (enqueue stack value) <= size value + sizes stack.
Proof.
  unfold enqueue.
  destruct (negb (truthy value) || negb (isObject value)); [lia|].
  destruct value; unfold push; try (rewrite sizes_cons; lia).
  rewrite sizes_push_all, size_JArr. lia.
Qed.

Lemma sizes_enqueue_all (vs stack : list JsValue) :
  sizes (fold_left enqueue vs stack) <= sizes vs + sizes stack.
Proof.
  revert stack. induction vs as [|v rest IH]; intros stack.
  - cbn [fold_left]. change (sizes []) with 0. lia.
  - cbn [fold_left]. rewrite sizes_cons.
    specialize (IH (enqueue stack v)).
    pose proof (sizes_enqueue stack v). lia.
Qed.

Lemma sizes_expand (node : JsValue) (rest : list JsValue) :
  sizes (expand node rest) < sizes (node :: rest).
Proof.
  rewrite sizes_cons. pose proof (size_pos node).
  destruct node; cbn [expand]; try lia.
  - pose proof (sizes_enqueue rest (JArr items)) as H1.
    unfold enqueue in *. cbn [truthy isObject negb orb] in *.
    rewrite sizes_push_all in *. rewrite size_JArr. lia.
  - pose proof (sizes_enqueue_all (values props) rest).
    rewrite size_JObj. lia.
Qed.

(** What the loop body does with a node before it goes on. *)
Definition visit (page : Page) (slug : string) (node : JsValue)
  : Completion (option ParsedProblem) :=
  if isCandidate node then extractFromCandidate page node slug else Return None.

Equations? traverse (page : Page) (slug : string) (stack : list JsValue)
  : Completion (option ParsedProblem) by wf (sizes stack) lt :=
  traverse page slug [] := Return None;
  traverse page slug (node :: rest) with (negb (truthy node) || negb (isObject node))%bool := {
    | true := traverse page slug rest
    | false with visit page slug node := {
        | Throw e := Throw e
        | Return (Some parsed) := Return (Some parsed)
        | Return None := traverse page slug (expand node rest) } }.
Proof.
  - change (sizes (node :: rest)) with (size node + sizes rest).
    pose proof (size_pos node). lia.
  - apply sizes_expand.
Qed.

Definition extractFromNextData (page : Page) : Completion (option ParsedProblem) :=
  let data := nextData page in
  if negb (truthy data) || negb (isObject data) then Return None
  else
    let slug := currentSlug page in
    let stack :=
      match data with
      | JArr items => fold_left push items []
      | _ => push [] data
      end in
    traverse page slug stack.

(** *** The visible page *)

Fixpoint span (f : ascii -> bool) (s : string) : string * string :=
  match s with
  | EmptyString => (EmptyString, EmptyString)
  | String c rest =>
      if f c then let '(taken, remain) := span f rest in (String c taken, remain)
      else (EmptyString, s)
  end.

Fixpoint lastChar (s : string) : option ascii :=
  match s with
  | EmptyString => None
  | String c EmptyString => Some c
  | String _ rest => lastChar rest
  end.

Definition hasLineTerminator (s : string) : bool :=
  existsb isLineTerminator (list_ascii_of_string s).

(** [rawTitle.match(/^(\d+)\.\s*(.+)$/)]: the two groups.  [\s*] is
    greedy and gives white space back to [(.+)] only when nothing else is
    left for it. *)
Definition matchTitle (rawTitle : string) : option (string * string) :=
  let '(digits, afterDigits) := span isDigit rawTitle in
  if negb (nonEmpty digits) then None
  else
    match afterDigits with
    | String "." afterDot =>
        let '(spaces, text) := span isWhiteSpace afterDot in
        if nonEmpty text then
          if hasLineTerminator text then None else Some (digits, text)
        else
          match lastChar spaces with
          | Some c => if isLineTerminator c then None else Some (digits, String c EmptyString)
          | None => None
          end
    | _ => None
    end.

(** [getAttribute] gives a string or [null]. *)
Definition attributeValue (found : option Handle) (name : string) : JsValue :=
  match found with
  | None => JUndefined
  | Some e =>
      match getAttribute (snd e) name with
      | Some v => JStr v
      | None => JNull
      end
  end.

Definition findDifficulty (page : Page) : Completion Difficulty :=
  let diffAttr :=
    orElse (attributeValue (documentQuerySelector (document page) (ByAttr "diff")) "diff")
           (attributeValue (documentQuerySelector (document page) (ByAttr "data-difficulty"))
                           "data-difficulty") in
  normalizeDifficulty diffAttr.

Definition extractFromDom (page : Page) : Completion (option ParsedProblem) :=
  let doc := document page in
  match documentQuerySelector doc (ByAttrValue "data-cy" "question-title") with
  | None => Return None
  | Some titleNode =>
      let rawTitle := trim (textContent (snd titleNode)) in
      if negb (nonEmpty rawTitle) then Return None
      else
        let matched := matchTitle rawTitle in
        let problemNumber :=
          match matched with
          | Some (number, _) => JStr number
          | None => orElse (pathSegment page) (JStr rawTitle)
          end in
        let title :=
          match matched with
          | Some (_, text) => text
          | None => rawTitle
          end in
        let contentRoot :=
          match documentQuerySelector doc (ByAttrValue "data-cy" "question-content") with
          | Some e => Some e
          | None => documentQuerySelector doc (ByClass "question-content__JfgR")
          end in
        match contentRoot with
        | None => Return None
        | Some root =>
            let c := readContent doc (fst root) in
            difficulty <- findDifficulty page ;;
            Return (Some {| title := JStr title;
                            difficulty := difficulty;
                            description := describe c (textContent (snd root));
                            examples := contentExamples c;
                            constraints := contentConstraints c;
                            url := href page;
                            slug := toSlug title;
                            problemNumber := toString problemNumber |})
        end
  end.

(** [extractFromNextData() ?? extractFromDom()] *)
Definition scrapeProblem (page : Page) : Completion (option ParsedProblem) :=
  fromData <- extractFromNextData page ;;
  match fromData with
  | Some found => Return (Some found)
  | None => extractFromDom page
  end.

(** [scrapeProblemInPage], given what the page's clock reads and what
    [fetchQuestionViaGraphQL] resolves with ([None] for [null]; it is only
    awaited when the first two extractors found nothing). *)
Definition scrapeProblemInPage (page : Page) (now : Z) (graphQuestion : option JsValue)
  : Completion (option Problem) :=
  found <- scrapeProblem page ;;
  match found with
  | Some p => Return (Some {| parsed := p; timestamp := now |})
  | None =>
      let slug := currentSlug page in
      if negb (nonEmpty slug) then Return None
      else
        match graphQuestion with
        | None => Return None
        | Some question =>
            let htmlContent :=
              match get question "content" with JStr c => c | _ => EmptyString end in
            let '(description, examples, constraints) := parseHtmlContent htmlContent in
            difficulty <- normalizeDifficulty
                            (match get question "difficulty" with
                             | JStr d => JStr d
                             | _ => JUndefined
                             end) ;;
            let number :=
              orElse
                (orElse
                   (match get question "questionFrontendId" with
                    | JStr n => JStr n
                    | _ => JUndefined
                    end)
                   (match get question "frontendQuestionId" with
                    | JStr n => JStr n
                    | _ => JUndefined
                    end))
                (JStr slug) in
            Return (Some {| parsed :=
                              {| title := match get question "title" with
                                          | JStr t => JStr t
                                          | _ => JStr slug
                                          end;
                                 difficulty := difficulty;
                                 description := description;
                                 examples := examples;
                                 constraints := constraints;
                                 url := href page;
                                 slug := slug;
                                 problemNumber := toString number |};
                            timestamp := now |})
        end
  end.

End WithParser.

End Scraper.

(** ** The scrape orchestrator ([scrapeProblemFromTab], service worker)

    Time is what [Date.now()] reads, in milliseconds.  It only moves
    while the orchestrator awaits: by what a call of [executeScrape] takes,
    and by the 300 ms of the timer, plus what the timer is late by. *)

Module Orchestrator.

Import Js Scraper.

Open Scope Z_scope.

Definition POLL_INTERVAL_MS : Z := 300.
Definition DEFAULT_TIMEOUT_MS : Z := 12000.
Definition COULD_NOT_DETECT : string :=
  "Could not detect a LeetCode problem on this page.".

(** What the [k]-th call of [executeScrape] (counted from 0) settles with
    and the time it takes, and how late the [k]-th timer fires. *)
Record World : Type := {
  executeScrape : nat -> Completion (option Problem) * N;
  timerLate : nat -> N
}.

(** How a call of [scrapeProblemFromTab] settled: with what, when, and
    after how many calls of [executeScrape]. *)
Record Settled : Type := {
  result : Completion Problem;
  settledAt : Z;
  attempts : nat
}.

Section WithWorld.

Variable world : World.
Variable start : Z.          (* [const start = Date.now()] *)
Variable timeoutMs : Z.

(** The [while] loop, entered for the [k]-th time when the clock reads
    [now]; [None] when [fuel] iterations were not enough. *)
Fixpoint scrapeLoop (fuel : nat) (k : nat) (now : Z) : option Settled :=
  match fuel with
  | O => None
  | S fuel' =>
      if now - start <? timeoutMs then
        let '(outcome, took) := executeScrape world k in
        let afterScrape := now + Z.of_N took in
        match outcome with
        | Throw e =>
            Some {| result := Throw e; settledAt := afterScrape; attempts := S k |}
        | Return (Some problem) =>
            Some {| result := Return problem; settledAt := afterScrape; attempts := S k |}
        | Return None =>
            scrapeLoop fuel' (S k)
                       (afterScrape + POLL_INTERVAL_MS + Z.of_N (timerLate world k))
        end
      else
        Some {| result := Throw (ErrorMsg COULD_NOT_DETECT);
                settledAt := now;
                attempts := k |}
  end.

(** Every turn of the loop moves the clock by 300 ms at least, so the
    loop is entered at most this many times. *)
Definition turns : nat := Z.to_nat (timeoutMs / POLL_INTERVAL_MS) + 2.

Definition scrapeProblemFromTab : option Settled := scrapeLoop turns 0 start.

(** The clock when the loop is entered for the [k]-th time, every earlier
    call having found nothing. *)
Fixpoint clockAt (k : nat) : Z :=
  match k with
  | O => start
  | S j =>
      clockAt j + Z.of_N (snd (executeScrape world j))
      + POLL_INTERVAL_MS + Z.of_N (timerLate world j)
  end.

End WithWorld.

(** Only the timer takes time: calls of [executeScrape] return at once
    and timers fire on time. *)
Definition pacedByTimer (world : World) : Prop :=
  forall k, snd (executeScrape world k) = 0%N /\ timerLate world k = 0%N.

(** The [n]-th call of [executeScrape] (counted from 1) is the first to
    give a problem, and gives [problem]. *)
Definition firstFoundAt (world : World) (n : nat) (problem : Problem) : Prop :=
  (forall k, (S k < n)%nat -> fst (executeScrape world k) = Return None)
  /\ exists m, n = S m /\ fst (executeScrape world m) = Return (Some problem).

Definition neverFound (world : World) : Prop :=
  forall k, fst (executeScrape world k) = Return None.

Close Scope Z_scope.

End Orchestrator.

(** ** The streaming chat client ([streamChatRequest], lib/api/client)

    The response body is a sequence of chunks of bytes.  Text is a
    sequence of UTF-16 code units, as a JavaScript string is. *)

Module Stream.

Open Scope N_scope.

Definition Chunk : Type := list Byte.byte.
Definition text : Type := list N.

(** The text of a literal. *)
Definition textOf (s : string) : text :=
  map Byte.to_N (list_byte_of_string s).

(** *** [TextDecoder]

    The UTF-8 decoder of the Encoding Standard, with the replacement
    error mode (no [fatal]) and the byte order mark stripped (no
    [ignoreBOM]). *)
Record Utf8 : Type := {
  codePoint : N;
  bytesSeen : N;
  bytesNeeded : N;
  lower : N;
  upper : N
}.

Definition utf8Start : Utf8 :=
  {| codePoint := 0; bytesSeen := 0; bytesNeeded := 0; lower := 0x80; upper := 0xBF |}.

Definition REPLACEMENT : N := 0xFFFD.

(** A byte read while no sequence is open. *)
Definition utf8Lead (b : N) : Utf8 * list N :=
  if b <=? 0x7F then (utf8Start, [b])
  else if (0xC2 <=? b) && (b <=? 0xDF) then
    ({| codePoint := N.land b 0x1F; bytesSeen := 0; bytesNeeded := 1;
        lower := 0x80; upper := 0xBF |}, [])
  else if (0xE0 <=? b) && (b <=? 0xEF) then
    ({| codePoint := N.land b 0xF; bytesSeen := 0; bytesNeeded := 2;
        lower := if b =? 0xE0 then 0xA0 else 0x80;
        upper := if b =? 0xED then 0x9F else 0xBF |}, [])
  else if (0xF0 <=? b) && (b <=? 0xF4) then
    ({| codePoint := N.land b 0x7; bytesSeen := 0; bytesNeeded := 3;
        lower := if b =? 0xF0 then 0x90 else 0x80;
        upper := if b =? 0xF4 then 0x8F else 0xBF |}, [])
  else (utf8Start, [REPLACEMENT]).

(** The handler of the decoder: the new state and the code points that
    come out.  A byte that cannot continue the open sequence closes it with
    an error and is read again as a lead. *)
Definition utf8Step (st : Utf8) (b : N) : Utf8 * list N :=
  if bytesNeeded st =? 0 then utf8Lead b
  else if (b <? lower st) || (upper st <? b) then
    let '(st', out) := utf8Lead b in (st', REPLACEMENT :: out)
  else
    let cp := N.lor (N.shiftl (codePoint st) 6) (N.land b 0x3F) in
    let seen := bytesSeen st + 1 in
    if seen =? bytesNeeded st then (utf8Start, [cp])
    else
      ({| codePoint := cp; bytesSeen := seen; bytesNeeded := bytesNeeded st;
          lower := 0x80; upper := 0xBF |}, []).

(** End of the input: an open sequence is an error. *)
Definition utf8End (st : Utf8) : list N :=
  if bytesNeeded st =? 0 then [] else [REPLACEMENT].

(** A code point as UTF-16 code units. *)
Definition codeUnits (cp : N) : text :=
  if cp <? 0x10000 then [cp]
  else
    let v := cp - 0x10000 in
    [0xD800 + N.shiftr v 10; 0xDC00 + N.land v 0x3FF].

Record Decoder : Type := {
  utf8 : Utf8;
  bomSeen : bool
}.

(** [new TextDecoder()] *)
Definition newDecoder : Decoder := {| utf8 := utf8Start; bomSeen := false |}.

(** Code points leave the decoder one by one; the first one is dropped
    when it is the byte order mark. *)
Fixpoint serialize (seen : bool) (cps : list N) : bool * text :=
  match cps with
  | [] => (seen, [])
  | cp :: rest =>
      let '(seen', out) := serialize true rest in
      if negb seen && (cp =? 0xFEFF) then (seen', out)
      else (seen', (codeUnits cp ++ out)%list)
  end.

Definition decodeByte (d : Decoder) (b : Byte.byte) : Decoder * text :=
  let '(st, cps) := utf8Step (utf8 d) (Byte.to_N b) in
  let '(seen, out) := serialize (bomSeen d) cps in
  ({| utf8 := st; bomSeen := seen |}, out).

(** [decoder.decode(value, { stream: true })] *)
Fixpoint decode (d : Decoder) (value : Chunk) : Decoder * text :=
  match value with
  | [] => (d, [])
  | b :: rest =>
      let '(d1, out1) := decodeByte d b in
      let '(d2, out2) := decode d1 rest in
      (d2, (out1 ++ out2)%list)
  end.

(** [decoder.decode()]: the end of the input. *)
Definition decodeEnd (d : Decoder) : text :=
  snd (serialize (bomSeen d) (utf8End (utf8 d))).

(** *** Lines *)

Definition NEWLINE : N := 10.

(** [WhiteSpace] and [LineTerminator] code units, which [trim] removes. *)
Definition isWhiteSpace (c : N) : bool :=
  (9 <=? c) && (c <=? 13) || (c =? 32) || (c =? 160) || (c =? 0x1680)
  || (0x2000 <=? c) && (c <=? 0x200A)
  || (c =? 0x2028) || (c =? 0x2029) || (c =? 0x202F) || (c =? 0x205F)
  || (c =? 0x3000) || (c =? 0xFEFF).

(** [!line.trim()] *)
Definition isBlank (line : text) : bool := forallb isWhiteSpace line.

(** [buffer.split('\n')]; never empty. *)
Fixpoint split (buffer : text) : list text :=
  match buffer with
  | [] => [[]]
  | c :: rest =>
      if c =? NEWLINE then [] :: split rest
      else
        match split rest with
        | [] => [[c]]
        | piece :: pieces => (c :: piece) :: pieces
        end
  end.

Close Scope N_scope.

(** *** Events and the final payload *)

Section WithJson.

(** [SourceDocument] is carried along and never looked into. *)
Variable SourceDocument : Type.

(** [ChatResponse]; [success] is declared required, and
    [normalizeChatResponse] allows for its absence all the same. *)
Record ChatResponse : Type := {
  success : option bool;
  answer : option text;
  summary : option text;
  sources : option (list SourceDocument);
  error : option text
}.

(** Modelled from the spec: the declaration of [ChatStreamEvent] is not
    among the sources (the [types] module at hand stops at
    [ProblemScrapeResponse]).  The variants are the six of section 4.4, with
    the field names that [streamChatRequest] and the side panel read:
    [token], [sources], [summary], [payload], [error]. *)
Inductive ChatStreamEvent : Type :=
| TokenEvent (token : text)
| SourcesEvent (found : list SourceDocument)
| SummaryEvent (summarised : text)
| EndEvent (payload : ChatResponse)
| CachedEvent (payload : ChatResponse)
| ErrorEvent (message : option text).

(** [JSON.parse(line) as ChatStreamEvent]: [None] when [JSON.parse] throws
    a [SyntaxError].  The cast is not checked.  The lines spoken of are
    those that are not JSON and those that are the JSON text of a stream
    event of the declared type; a line that holds another JSON value (such
    as [null], or an [end] event without its payload, on which the code
    throws a [TypeError]) has no place here. *)
Variable JSON_parse : text -> option ChatStreamEvent.

Definition normalizeChatResponse (payload : ChatResponse) : ChatResponse :=
  {| success := Some (match success payload with Some b => b | None => true end);
     answer := Some (match answer payload with Some a => a | None => [] end);
     summary := Some (match summary payload with Some a => a | None => [] end);
     sources := Some (match sources payload with Some l => l | None => [] end);
     error := error payload |}.

(** What the promise is rejected with. *)
Inductive Failure : Type :=
| SyntaxError (line : text)        (* thrown by [JSON.parse] *)
| ErrorWith (message : text).      (* [new Error(message)] *)

Definition UNKNOWN_ERROR : text := textOf "Unknown error from stream.".
Definition NO_FINAL_PAYLOAD : text :=
  textOf "Chat stream completed without a final payload.".

(** The variables of the read loop that outlive a line, and the events
    [handleEvent] was called with so far.  The callback is the caller's; it
    is taken to return. *)
Record Progress : Type := {
  finalPayload : option ChatResponse;
  handled : list ChatStreamEvent
}.

(** Where the code stands after a statement: on its way, or thrown out
    of the [try] block. *)
Inductive Flow : Type :=
| Going (p : Progress)
| Raised (failure : Failure) (handledSoFar : list ChatStreamEvent).

(** The body of [for (const line of lines)], which is also what is done
    with the buffer after the loop. *)
Definition processLine (p : Progress) (line : text) : Flow :=
  if isBlank line then Going p
  else
    match JSON_parse line with
    | None => Raised (SyntaxError line) (handled p)
    | Some event =>
        let seen := (handled p ++ [event])%list in
        match event with
        | EndEvent payload | CachedEvent payload =>
            Going {| finalPayload := Some (normalizeChatResponse payload);
                     handled := seen |}
        | ErrorEvent message =>
            Raised (ErrorWith (match message with Some m => m | None => UNKNOWN_ERROR end))
                   seen
        | _ => Going {| finalPayload := finalPayload p; handled := seen |}
        end
    end.

Fixpoint processLines (p : Progress) (lines : list text) : Flow :=
  match lines with
  | [] => Going p
  | line :: rest =>
      match processLine p line with
      | Going p' => processLines p' rest
      | raised => raised
      end
  end.

(** The state of the [while] loop. *)
Record Reading : Type := {
  decoder : Decoder;
  buffer : text;
  progress : Progress
}.

(** One turn of the loop, for a chunk that [reader.read()] gave. *)
Definition readChunk (r : Reading) (value : Chunk) : Reading + Flow :=
  let '(decoder', decoded) := decode (decoder r) value in
  let buffer1 := (buffer r ++ decoded)%list in
  let lines := split buffer1 in
  let buffer2 := last lines [] in              (* [lines.pop() ?? ''] *)
  match processLines (progress r) (removelast lines) with
  | Going p => inl {| decoder := decoder'; buffer := buffer2; progress := p |}
  | raised => inr raised
  end.

(** The loop, over the chunks the body delivers before it is done, then
    the statements between the loop and the end of [try]. *)
Fixpoint readAll (r : Reading) (body : list Chunk) : Flow :=
  match body with
  | [] =>
      let buffer1 := (buffer r ++ decodeEnd (decoder r))%list in
      processLine (progress r) buffer1
  | value :: rest =>
      match readChunk r value with
      | inl r' => readAll r' rest
      | inr raised => raised
      end
  end.

(** How the promise [streamChatRequest] returns settles, and what
    [handleEvent] was called with on the way. *)
Inductive Outcome : Type :=
| Resolved (response : ChatResponse)
| Rejected (failure : Failure).

Record Run : Type := {
  events : list ChatStreamEvent;
  outcome : Outcome
}.

Definition settle (flow : Flow) : Run :=
  match flow with
  | Raised failure seen => {| events := seen; outcome := Rejected failure |}
  | Going p =>
      match finalPayload p with
      | Some response => {| events := handled p; outcome := Resolved response |}
      | None => {| events := handled p; outcome := Rejected (ErrorWith NO_FINAL_PAYLOAD) |}
      end
  end.

Definition initially : Reading :=
  {| decoder := newDecoder;
     buffer := [];
     progress := {| finalPayload := None; handled := [] |} |}.

(** [streamChatRequest], from [response.body.getReader()] on, for a body
    that delivers the chunks [body] and then is done. *)
Definition streamChatRequest (body : list Chunk) : Run :=
  settle (readAll initially body).

End WithJson.

Arguments success {SourceDocument} _.
Arguments answer {SourceDocument} _.
Arguments summary {SourceDocument} _.
Arguments sources {SourceDocument} _.
Arguments error {SourceDocument} _.
Arguments TokenEvent {SourceDocument} _.
Arguments SourcesEvent {SourceDocument} _.
Arguments SummaryEvent {SourceDocument} _.
Arguments EndEvent {SourceDocument} _.
Arguments CachedEvent {SourceDocument} _.
Arguments ErrorEvent {SourceDocument} _.
Arguments Going {SourceDocument} _.
Arguments Raised {SourceDocument} _ _.
Arguments Resolved {SourceDocument} _.
Arguments Rejected {SourceDocument} _.
Arguments finalPayload {SourceDocument} _.
Arguments handled {SourceDocument} _.
Arguments events {SourceDocument} _.
Arguments outcome {SourceDocument} _.
Arguments normalizeChatResponse {SourceDocument} _.
Arguments processLine {SourceDocument} _ _ _.
Arguments processLines {SourceDocument} _ _ _.
Arguments readChunk {SourceDocument} _ _ _.
Arguments readAll {SourceDocument} _ _ _.
Arguments settle {SourceDocument} _.
Arguments initially {SourceDocument}.
Arguments streamChatRequest {SourceDocument} _ _.
Arguments decoder {SourceDocument} _.
Arguments buffer {SourceDocument} _.
Arguments progress {SourceDocument} _.

End Stream.

(** ** The background message handler (service worker) *)

Module Background.

Import Js Scraper.

(** What [sendResponse] is given. *)
Record Reply : Type := {
  success : bool;
  error : option string;
  problem : option Problem
}.

(** A tab; [id] is optional, and [0] is as good as none for [!tab?.id]. *)
Record Tab : Type := { id : option Z }.

Definition usableId (tabs : list Tab) : option Z :=
  match tabs with
  | [] => None
  | activeTab :: _ =>
      match id activeTab with
      | Some n => if Z.eqb n 0 then None else Some n
      | None => None
      end
  end.

(** What the browser answers while one message is handled. *)
Record Browser : Type := {
  sidePanelAvailable : bool;                  (* [hasSidePanel()] *)
  queriedTabs : Completion (list Tab);        (* [await chrome.tabs.query(...)] *)
  setOptions : Completion unit;               (* [await chrome.sidePanel.setOptions(...)] *)
  openPanel : Completion unit;                (* [await chrome.sidePanel.open(...)] *)
  lastError : option string;                  (* [chrome.runtime.lastError], in the callback *)
  callbackTabs : list Tab;                    (* the [tabs] the callback is given *)
  tabWorld : Z -> Orchestrator.World;         (* how scraping the tab goes *)
  clock : Z                                   (* [Date.now()] when scraping starts *)
}.

(** Code that runs after the listener has returned: it may call
    [sendResponse], and it ends like a promise does.  The state is the
    list of the replies sent so far. *)
Definition Later (A : Type) : Type := list Reply -> Completion A * list Reply.

Definition settled {A : Type} (c : Completion A) : Later A :=
  fun sent => (c, sent).

Definition sendResponse (reply : Reply) : Later unit :=
  fun sent => (Return tt, (sent ++ [reply])%list).

(** [p.then(f)] *)
Definition andThen {A B : Type} (p : Later A) (f : A -> Later B) : Later B :=
  fun sent =>
    match p sent with
    | (Return a, sent') => f a sent'
    | (Throw e, sent') => (Throw e, sent')
    end.

(** [p.catch(h)] *)
Definition orCatch {A : Type} (p : Later A) (h : Exn -> Later A) : Later A :=
  fun sent =>
    match p sent with
    | (Throw e, sent') => h e sent'
    | done => done
    end.

Definition failure (message : string) : Reply :=
  {| success := false; error := Some message; problem := None |}.

Definition openSidePanelForCurrentTab (browser : Browser) : Completion Reply :=
  if negb (sidePanelAvailable browser)
  then Return (failure "Side panel API is not available in this Chrome version.")
  else
    tabs <- queriedTabs browser ;;
    match usableId tabs with
    | None => Return (failure "No active tab to attach the side panel to.")
    | Some _ =>
        match (_ <- setOptions browser ;; openPanel browser) with
        | Return _ => Return {| success := true; error := None; problem := None |}
        | Throw e => Return (failure (messageOr "Failed to open side panel" e))
        end
    end.

(** [scrapeProblemFromTab(tabId)] as a promise. *)
Definition scrapeTab (browser : Browser) (tabId : Z) : option (Completion Problem) :=
  option_map Orchestrator.result
    (Orchestrator.scrapeProblemFromTab
       (tabWorld browser tabId) (clock browser) Orchestrator.DEFAULT_TIMEOUT_MS).

(** What the listener did: the value it returned at once ([None] for
    [undefined]) and the code it left to run later ([None] when it left
    none, or left a promise that does not settle). *)
Record Handled : Type := {
  returned : option bool;
  later : option (Later unit)
}.

Definition onMessage (browser : Browser) (rawMessage : JsValue) : Handled :=
  if negb (truthy rawMessage) || negb (isObject rawMessage)
  then {| returned := None; later := None |}
  else
    match get rawMessage "type" with
    | JStr type =>
        if String.eqb type "OPEN_SIDE_PANEL" then
          {| returned := Some true;
             later :=
               Some (orCatch
                       (andThen (settled (openSidePanelForCurrentTab browser)) sendResponse)
                       (fun error => sendResponse (failure (messageOr "Unexpected error" error)))) |}
        else if String.eqb type "GET_ACTIVE_PROBLEM" then
          {| returned := Some true;
             later :=
               match lastError browser with
               | Some message => Some (sendResponse (failure message))
               | None =>
                   match usableId (callbackTabs browser) with
                   | None => Some (sendResponse (failure "No active tab detected."))
                   | Some tabId =>
                       match scrapeTab browser tabId with
                       | None => None
                       | Some scraped =>
                           Some (orCatch
                                   (andThen (settled scraped)
                                      (fun found =>
                                         sendResponse {| success := true;
                                                         error := None;
                                                         problem := Some found |}))
                                   (fun error =>
                                      sendResponse
                                        (failure (messageOr "Unexpected error while scraping."
                                                            error))))
                       end
                   end
               end |}
        else {| returned := None; later := None |}
    | _ => {| returned := None; later := None |}
    end.

(** The replies sent once the code left for later has run. *)
Definition repliesOf (h : Handled) : option (list Reply) :=
  option_map (fun run => snd (run [])) (later h).

End Background.

(** ** Vocabulary of the statements *)

Module Statements.

Import Js Normalizer Dom Scraper.
Import ListNotations.

(** The inputs [normalizeDifficulty] is declared for:
    [string | undefined | null]. *)
Definition declaredInput (value : JsValue) : Prop :=
  match value with
  | JUndefined | JNull | JStr _ => True
  | _ => False
  end.

(** [value] is a string that reads [label d] once trimmed. *)
Definition trimsTo (value : JsValue) (d : Difficulty) : Prop :=
  exists s, value = JStr s /\ trim s = label d.

(** [s] reads, once trimmed, as [label d] in some other capitalisation. *)
Definition caseVariantOf (s : string) (d : Difficulty) : Prop :=
  toLowerCase (trim s) = toLowerCase (label d) /\ trim s <> label d.

(** The components of what [parseHtmlContent] returns. *)
Definition examplesOf (r : string * list string * string) : list string := snd (fst r).
Definition constraintsOf (r : string * list string * string) : string := snd r.

(** The preformatted blocks of a fragment, and the text an example is
    made of. *)
Definition preBlocks (body : Node) : list Handle :=
  querySelectorAll body [] (ByTag "pre").

Definition exampleText (block : Handle) : string := trim (textContent (snd block)).

(** The [strong] elements of a fragment. *)
Definition strongLabels (body : Node) : list Handle :=
  querySelectorAll body [] (ByTag "strong").

(** The constraints as the specification words them: the list is looked
    for next to the label itself, and texts are taken as they are. *)
Definition constraintsAsStated (body : Node) : string :=
  match find isConstraintLabel (strongLabels body) with
  | None => NOT_DETECTED
  | Some label =>
      let parentText :=
        match parentElement body (fst label) with
        | Some parent => textContent (snd parent)
        | None => EmptyString
        end in
      match nextElementSibling body (fst label) with
      | Some sibling =>
          if isList (snd sibling)
          then join LF (map textContent (children (snd sibling)))
          else parentText
      | None => parentText
      end
  end.

(** What [collectConstraints] reads once the label has a parent. *)
Definition constraintsBeside (body : Node) (parent : Handle) : string :=
  match nextElementSibling body (fst parent) with
  | Some listCandidate =>
      if isList (snd listCandidate) then listItems (snd listCandidate)
      else trim (textContent (snd parent))
  | None => trim (textContent (snd parent))
  end.

(** [v] occurs in [data]: it is [data], or it occurs in an item of the
    array or in a property value of the object that [data] is. *)
Inductive within (v : JsValue) : JsValue -> Prop :=
| within_here : within v v
| within_item (items : list JsValue) (x : JsValue) :
    In x items -> within v x -> within v (JArr items)
| within_value (props : list (string * JsValue)) (x : JsValue) :
    In x (values props) -> within v x -> within v (JObj props).

(** The slug a candidate record stands for. *)
Definition derivedSlug (candidate : JsValue) : Completion string :=
  candidateSlugOf candidate (candidateTitle candidate).

(** The candidate's own slug is there, is not empty, and is not [slug]. *)
Definition contradicts (candidate : JsValue) (slug : string) : Prop :=
  exists own, derivedSlug candidate = Return own
              /\ own <> EmptyString /\ own <> slug.

(** Every candidate record found in [v] contradicts [slug]. *)
Definition allContradict (slug : string) (v : JsValue) : Prop :=
  forall c, within c v -> isCandidate c = true -> contradicts c slug.

(** A page caught between two problems: the address already names
    three-sum while the blob and the visible title still show two-sum. *)
Definition stalePage : Page :=
  {| pathname := "/problems/three-sum/description/";
     href := "https://leetcode.com/problems/three-sum/description/";
     nextData :=
       JObj [("props",
              JObj [("pageProps",
                     JObj [("question",
                            JObj [("title", JStr "Two Sum");
                                  ("titleSlug", JStr "two-sum");
                                  ("content", JStr "<p>Add two numbers.</p>")])])])];
     document :=
       Element "html" []
         [Element "head" [] [];
          Element "body" []
            [Element "div" [("data-cy", "question-title")] [Text "1. Two Sum"];
             Element "div" [("data-cy", "question-content")]
               [Element "p" [] [Text "Add two numbers."]]]] |}.

(** [rawMessage] is a message object of the given type. *)
Definition hasType (rawMessage : JsValue) (type : string) : Prop :=
  isObject rawMessage = true /\ get rawMessage "type" = JStr type.

(** [new TextDecoder().decode(bytes)]: the whole input decoded at once. *)
Definition decodeWhole (bytes : Stream.Chunk) : Stream.text :=
  let '(d, decoded) := Stream.decode Stream.newDecoder bytes in
  (decoded ++ Stream.decodeEnd d)%list.

(** The lines of a response body: its bytes put end to end, decoded at
    once, and cut at the line feeds. *)
Definition linesOf (body : list Stream.Chunk) : list Stream.text :=
  Stream.split (decodeWhole (List.concat body)).

Section StreamVocabulary.

Variable SourceDocument : Type.

(** The payload of the last [end] or [cached] event of a sequence. *)
Fixpoint lastTerminal (es : list (Stream.ChatStreamEvent SourceDocument))
  : option (Stream.ChatResponse SourceDocument) :=
  match es with
  | [] => None
  | e :: rest =>
      match lastTerminal rest with
      | Some payload => Some payload
      | None =>
          match e with
          | Stream.EndEvent payload | Stream.CachedEvent payload => Some payload
          | _ => None
          end
      end
  end.

Definition isToken (e : Stream.ChatStreamEvent SourceDocument) : bool :=
  match e with
  | Stream.TokenEvent _ => true
  | _ => false
  end.

Definition isErrorEvent (e : Stream.ChatStreamEvent SourceDocument) : bool :=
  match e with
  | Stream.ErrorEvent _ => true
  | _ => false
  end.

(** A sequence with its token events taken out. *)
Definition withoutTokens (es : list (Stream.ChatStreamEvent SourceDocument))
  : list (Stream.ChatStreamEvent SourceDocument) :=
  filter (fun e => negb (isToken e)) es.

(** The events a sequence of lines carries: one for each line that is
    not blank; [None] when one of these is not JSON. *)
Fixpoint parseLines (JSON_parse : Stream.text -> option (Stream.ChatStreamEvent SourceDocument))
         (lines : list Stream.text) : option (list (Stream.ChatStreamEvent SourceDocument)) :=
  match lines with
  | [] => Some []
  | line :: rest =>
      if Stream.isBlank line then parseLines JSON_parse rest
      else
        match JSON_parse line, parseLines JSON_parse rest with
        | Some e, Some es => Some (e :: es)
        | _, _ => None
        end
  end.

(** The loop keeps [finalPayload] equal to the normalised payload of the
    last terminal event handled. *)
Definition tracksLast (p : Stream.Progress SourceDocument) : Prop :=
  Stream.finalPayload p
  = option_map Stream.normalizeChatResponse (lastTerminal (Stream.handled p)).

End StreamVocabulary.

Arguments lastTerminal {SourceDocument} _.
Arguments isToken {SourceDocument} _.
Arguments isErrorEvent {SourceDocument} _.
Arguments withoutTokens {SourceDocument} _.
Arguments parseLines {SourceDocument} _ _.
Arguments tracksLast {SourceDocument} _.

(** The lines of the examples are written with single quotes where JSON
    has double quotes. *)
Definition quoted (c : ascii) : ascii :=
  if Ascii.eqb c "'" then ascii_of_N 34 else c.

Definition jsonBytes (s : string) : Stream.Chunk :=
  map (fun c => byte_of_ascii (quoted c)) (list_ascii_of_string s).

Definition jsonText (s : string) : Stream.text :=
  map (fun c => N_of_ascii (quoted c)) (list_ascii_of_string s).

Definition greeting : Stream.ChatResponse unit :=
  {| Stream.success := Some true;
     Stream.answer := Some (Stream.textOf "Hi there, friend.");
     Stream.summary := None;
     Stream.sources := None;
     Stream.error := None |}.

(** What [JSON.parse] and the cast give on the lines of the examples.
    The answer on any other line plays no part in them. *)
Definition parseSample (line : Stream.text) : option (Stream.ChatStreamEvent unit) :=
  let reads s := if list_eq_dec N.eq_dec line (jsonText s) then true else false in
  if reads "{'type':'token','token':'Hi'}"
  then Some (Stream.TokenEvent (Stream.textOf "Hi"))
  else if reads "{'type':'token','token':' there'}"
  then Some (Stream.TokenEvent (Stream.textOf " there"))
  else if reads "{'type':'end','payload':{'success':true,'answer':'Hi there, friend.'}}"
  then Some (Stream.EndEvent greeting)
  else if reads "{'type':'error','error':'boom'}"
  then Some (Stream.ErrorEvent (Some (Stream.textOf "boom")))
  else None.

(** The body of section 8, in one chunk and cut at odd places. *)
Definition sampleBytes : Stream.Chunk :=
  (jsonBytes "{'type':'token','token':'Hi'}" ++ [Byte.x0a]
   ++ jsonBytes "{'type':'token','token':' there'}" ++ [Byte.x0a]
   ++ jsonBytes "{'type':'end','payload':{'success':true,'answer':'Hi there, friend.'}}"
   ++ [Byte.x0a])%list.

Definition sampleWhole : list Stream.Chunk := [sampleBytes].

(** Two tokens and nothing else; and an [error] event on a last line
    that no line feed ends. *)
Definition tokensOnly : list Stream.Chunk :=
  [jsonBytes "{'type':'token','token':'Hi'}" ++ [Byte.x0a];
   jsonBytes "{'type':'token','token':' there'}" ++ [Byte.x0a]]%list.

Definition errorLast : list Stream.Chunk :=
  [jsonBytes "{'type':'token','token':'Hi'}" ++ [Byte.x0a];
   jsonBytes "{'type':'error','error':'boom'}"]%list.

Definition sampleCut : list Stream.Chunk :=
  [firstn 11 sampleBytes;
   [];
   firstn 19 (skipn 11 sampleBytes);
   firstn 1 (skipn 30 sampleBytes);
   skipn 31 sampleBytes].

(** A problem, and two worlds on a clock that only the timer moves: one
    where the third call finds the problem, one where no call does. *)
Definition twoSum : Problem :=
  {| parsed :=
       {| title := JStr "Two Sum";
          difficulty := Easy;
          description := "Add two numbers.";
          examples := [];
          constraints := NOT_DETECTED;
          url := "https://leetcode.com/problems/two-sum/";
          slug := "two-sum";
          problemNumber := "1" |};
     timestamp := 1700000000000 |}.

Definition foundOnThird : Orchestrator.World :=
  {| Orchestrator.executeScrape :=
       fun k => (if Nat.ltb k 2 then Return None else Return (Some twoSum), 0%N);
     Orchestrator.timerLate := fun _ => 0%N |}.

(** A world where the first call finds the problem after 13 seconds. *)
Definition slowFirstCall : Orchestrator.World :=
  {| Orchestrator.executeScrape := fun _ => (Return (Some twoSum), 13000%N);
     Orchestrator.timerLate := fun _ => 0%N |}.

Definition nothingThere : Orchestrator.World :=
  {| Orchestrator.executeScrape := fun _ => (Return None, 0%N);
     Orchestrator.timerLate := fun _ => 0%N |}.

(** A browser with the side panel, one active tab, and a page where the
    third call of the extractor finds the problem. *)
Definition readyBrowser : Background.Browser :=
  {| Background.sidePanelAvailable := true;
     Background.queriedTabs := Return [ {| Background.id := Some 7%Z |} ];
     Background.setOptions := Return tt;
     Background.openPanel := Return tt;
     Background.lastError := None;
     Background.callbackTabs := [ {| Background.id := Some 7%Z |} ];
     Background.tabWorld := fun _ => foundOnThird;
     Background.clock := 1000%Z |}.

End Statements.

(** ** The callers of the background handler

    [requestActiveProblem] of the side panel sends GET_ACTIVE_PROBLEM and
    turns the reply into a promise; the click handler of the floating
    button sends OPEN_SIDE_PANEL and opens a tab when that fails. *)

Module Callers.

Import Js Scraper Background.

(** [requestActiveProblem], given whether [chrome.runtime] is there, what
    [chrome.runtime.lastError] holds in the callback, and the response the
    callback is given ([None] for [undefined]). *)
Definition requestActiveProblem
  (hasChromeRuntime : bool) (lastError : option string) (response : option Reply)
  : Completion Problem :=
  if negb hasChromeRuntime then Throw (ErrorMsg "Chrome runtime is not available.")
  else
    match lastError with
    | Some message => Throw (ErrorMsg message)
    | None =>
        let fallback := "Unable to capture the current problem." in
        match response with
        | Some reply =>
            match success reply, problem reply with
            | true, Some found => Return found
            | _, _ =>
                Throw (ErrorMsg (match error reply with
                                 | Some message => message
                                 | None => fallback
                                 end))
            end
        | None => Throw (ErrorMsg fallback)
        end
    end.

(** What a click on the floating button ends with. *)
Inductive Clicked : Type :=
| AskedForPanel       (* the message went out and nothing else was done *)
| OpenedFallback.     (* [window.open(extensionUrl, '_blank', 'noopener')] *)

(** The click listener of the button, given whether
    [chrome.runtime.sendMessage] is there, and what the callback of
    [sendMessage] finds. *)
Definition onButtonClick
  (canSend : bool) (lastError : option string) (response : option Reply) : Clicked :=
  if negb canSend then OpenedFallback
  else
    match lastError with
    | Some _ => OpenedFallback
    | None =>
        match response with
        | Some reply => if success reply then AskedForPanel else OpenedFallback
        | None => AskedForPanel
        end
    end.

(** [chrome.sidePanel.open] was called and resolved. *)
Definition panelOpened (browser : Browser) : bool :=
  sidePanelAvailable browser
  && match queriedTabs browser with
     | Return tabs =>
         match usableId tabs, setOptions browser, openPanel browser with
         | Some _, Return _, Return _ => true
         | _, _, _ => false
         end
     | Throw _ => false
     end.

End Callers.

(** ** The chat of the side panel

    [handleSend] of the side panel: what it does to the state of the
    component while and after [streamChatRequest] runs.  The state setters
    are applied in the order they are called. *)

Module Panel.

Import Js Scraper.

Definition text : Type := Stream.text.

(** [String.prototype.trim], on code units. *)
Fixpoint trimStart (t : text) : text :=
  match t with
  | [] => []
  | c :: rest => if Stream.isWhiteSpace c then trimStart rest else t
  end.

Definition trimEnd (t : text) : text := rev (trimStart (rev t)).

Definition trim (t : text) : text := trimEnd (trimStart t).

Inductive Role : Type := User | Assistant.

(** [Message]; [content] is declared a string, and is [undefined] ([None])
    once it was set from a payload without an answer. *)
Record Message : Type := {
  role : Role;
  content : option text;
  timestamp : Z
}.

Inductive BackendStatus : Type :=
| BackendLoading | BackendReady | BackendError | BackendMissing.

(** [`${content}`] *)
Definition shown (content : option text) : text :=
  match content with
  | Some t => t
  | None => Stream.textOf "undefined"
  end.

Definition ENCOUNTERED_ERROR : text :=
  Stream.textOf "Assistant encountered an error. Please try again.".
Definition FAILED_TO_RESPOND : text :=
  Stream.textOf "Assistant failed to respond. Please try again.".

Section WithSources.

Variable SourceDocument : Type.

(** The state of the component that [handleSend] reads or sets; [None]
    stands for [null] and for [undefined]. *)
Record View : Type := {
  problem : option Problem;
  backendStatus : BackendStatus;
  messages : list Message;
  input : text;
  isThinking : bool;
  chatError : option text;
  latestSummary : option text;
  sources : option (list SourceDocument)
}.

Definition setMessages (update : list Message -> list Message) (v : View) : View :=
  {| problem := problem v; backendStatus := backendStatus v;
     messages := update (messages v); input := input v;
     isThinking := isThinking v; chatError := chatError v;
     latestSummary := latestSummary v; sources := sources v |}.

Definition setInput (value : text) (v : View) : View :=
  {| problem := problem v; backendStatus := backendStatus v;
     messages := messages v; input := value;
     isThinking := isThinking v; chatError := chatError v;
     latestSummary := latestSummary v; sources := sources v |}.

Definition setIsThinking (value : bool) (v : View) : View :=
  {| problem := problem v; backendStatus := backendStatus v;
     messages := messages v; input := input v;
     isThinking := value; chatError := chatError v;
     latestSummary := latestSummary v; sources := sources v |}.

Definition setChatError (value : option text) (v : View) : View :=
  {| problem := problem v; backendStatus := backendStatus v;
     messages := messages v; input := input v;
     isThinking := isThinking v; chatError := value;
     latestSummary := latestSummary v; sources := sources v |}.

Definition setLatestSummary (value : option text) (v : View) : View :=
  {| problem := problem v; backendStatus := backendStatus v;
     messages := messages v; input := input v;
     isThinking := isThinking v; chatError := chatError v;
     latestSummary := value; sources := sources v |}.

Definition setSources (value : option (list SourceDocument)) (v : View) : View :=
  {| problem := problem v; backendStatus := backendStatus v;
     messages := messages v; input := input v;
     isThinking := isThinking v; chatError := chatError v;
     latestSummary := latestSummary v; sources := value |}.

(** [prev.map((message) => message.timestamp === assistantId
       ? { ...message, content: ... } : message)] *)
Definition updateContent (assistantId : Z) (newContent : Message -> option text)
           (prev : list Message) : list Message :=
  map (fun message =>
         if Z.eqb (timestamp message) assistantId
         then {| role := role message;
                 content := newContent message;
                 timestamp := timestamp message |}
         else message)
      prev.

(** The callback given to [streamChatRequest]. *)
Definition onStreamEvent (assistantId : Z)
           (streamEvent : Stream.ChatStreamEvent SourceDocument) (v : View) : View :=
  match streamEvent with
  | Stream.SourcesEvent found => setSources (Some found) v
  | Stream.TokenEvent token =>
      setMessages
        (updateContent assistantId (fun message => Some (shown (content message) ++ token)%list))
        v
  | Stream.SummaryEvent summarised => setLatestSummary (Some summarised) v
  | Stream.EndEvent payload | Stream.CachedEvent payload =>
      setIsThinking false
        (setSources (Stream.sources payload)
           (setLatestSummary (Stream.summary payload)
              (setMessages (updateContent assistantId (fun _ => Stream.answer payload)) v)))
  | Stream.ErrorEvent message =>
      setIsThinking false
        (setMessages (updateContent assistantId (fun _ => Some ENCOUNTERED_ERROR))
           (setChatError message v))
  end.

(** The state after the callback was called with the events, in turn. *)
Definition duringStream (assistantId : Z)
           (streamEvents : list (Stream.ChatStreamEvent SourceDocument)) (v : View) : View :=
  fold_left (fun state streamEvent => onStreamEvent assistantId streamEvent state)
            streamEvents v.

(** What the message of the assistant reads after the events, when it
    read [content] before: the part of [duringStream] that bears on it. *)
Fixpoint contentAfter (streamEvents : list (Stream.ChatStreamEvent SourceDocument))
         (content : option text) : option text :=
  match streamEvents with
  | [] => content
  | streamEvent :: rest =>
      contentAfter rest
        match streamEvent with
        | Stream.TokenEvent token => Some (shown content ++ token)%list
        | Stream.EndEvent payload | Stream.CachedEvent payload => Stream.answer payload
        | Stream.ErrorEvent _ => Some ENCOUNTERED_ERROR
        | _ => content
        end
  end.

(** What a render reads of this state without asking whether it is
    there: [sources.length], and [message.content.slice] of every message.
    On a state that has them the render does not throw. *)
Definition renders (v : View) : Prop :=
  sources v <> None
  /\ forall message, In message (messages v) -> content message <> None.

(** The [message] of the [SyntaxError] that [JSON.parse] throws for a
    line; its wording is the engine's. *)
Variable syntaxErrorMessage : text -> text.

(** [error.message] of what [streamChatRequest] rejects with. *)
Definition failureMessage (failure : Stream.Failure) : text :=
  match failure with
  | Stream.SyntaxError line => syntaxErrorMessage line
  | Stream.ErrorWith message => message
  end.

(** [handleSend]: [now1] and [now2] are what the two calls of [Date.now()]
    give, and [run] is what [streamChatRequest] does for the request. *)
Definition handleSend (now1 now2 : Z) (run : Stream.Run SourceDocument) (v : View) : View :=
  let question := trim (input v) in
  match question, problem v, backendStatus v with
  | _ :: _, Some _, BackendReady =>
      let v1 := setSources (Some [])
                  (setLatestSummary None (setChatError None (setInput [] v))) in
      let userMessage :=
        {| role := User; content := Some question; timestamp := now1 |} in
      let assistantMessage :=
        {| role := Assistant; content := Some []; timestamp := (now2 + 1)%Z |} in
      let assistantId := timestamp assistantMessage in
      let v2 := setIsThinking true
                  (setMessages (fun prev => prev ++ [userMessage; assistantMessage])%list v1) in
      let v3 := duringStream assistantId (Stream.events run) v2 in
      let v4 :=
        match Stream.outcome run with
        | Stream.Resolved _ => v3
        | Stream.Rejected failure =>
            setMessages (updateContent assistantId (fun _ => Some FAILED_TO_RESPOND))
              (setChatError (Some (failureMessage failure)) v3)
        end in
      setIsThinking false v4
  | _, _, _ => v
  end.

End WithSources.

Arguments problem {SourceDocument} _.
Arguments backendStatus {SourceDocument} _.
Arguments messages {SourceDocument} _.
Arguments input {SourceDocument} _.
Arguments isThinking {SourceDocument} _.
Arguments chatError {SourceDocument} _.
Arguments latestSummary {SourceDocument} _.
Arguments sources {SourceDocument} _.
Arguments setMessages {SourceDocument} _ _.
Arguments setInput {SourceDocument} _ _.
Arguments setIsThinking {SourceDocument} _ _.
Arguments setChatError {SourceDocument} _ _.
Arguments setLatestSummary {SourceDocument} _ _.
Arguments setSources {SourceDocument} _ _.
Arguments onStreamEvent {SourceDocument} _ _ _.
Arguments duringStream {SourceDocument} _ _ _.
Arguments contentAfter {SourceDocument} _ _.
Arguments handleSend {SourceDocument} _ _ _ _ _.
Arguments renders {SourceDocument} _.

(** The tokens of a sequence of events, put end to end. *)
Fixpoint tokensOf {SourceDocument : Type}
         (streamEvents : list (Stream.ChatStreamEvent SourceDocument)) : text :=
  match streamEvents with
  | [] => []
  | Stream.TokenEvent token :: rest => (token ++ tokensOf rest)%list
  | _ :: rest => tokensOf rest
  end.

(** An event that leaves the answer to be continued: a token, the
    sources, or the summary. *)
Definition isInterim {SourceDocument : Type}
           (streamEvent : Stream.ChatStreamEvent SourceDocument) : bool :=
  match streamEvent with
  | Stream.TokenEvent _ | Stream.SourcesEvent _ | Stream.SummaryEvent _ => true
  | _ => false
  end.

(** An [end] or [cached] event whose payload carries an answer and
    sources, which the panel shows as they come; any other event. *)
Definition carried {SourceDocument : Type}
           (streamEvent : Stream.ChatStreamEvent SourceDocument) : Prop :=
  match streamEvent with
  | Stream.EndEvent payload | Stream.CachedEvent payload =>
      Stream.answer payload <> None /\ Stream.sources payload <> None
  | _ => True
  end.

(** No message of [prev] has the time stamp [assistantId]. *)
Definition fresh (assistantId : Z) (prev : list Message) : Prop :=
  forall message, In message prev -> timestamp message <> assistantId.

End Panel.

(** ** The backend URL: where it is kept and how it is used *)

Module Storage.

Import Js.

Definition DEFAULT_BACKEND_URL : string := "http://localhost:8000/api/v1".

(** What is kept under the key [leetcodeAssistant.backendUrl]. *)
Record Stored : Type := {
  sync : option JsValue;       (* in [chrome.storage.sync]; [None]: no such key *)
  local : option string        (* in [localStorage]; [None]: [getItem] gives [null] *)
}.

(** What one call finds around it. *)
Record Access : Type := {
  chromeStorageAvailable : bool;    (* [isChromeStorageAvailable()] *)
  lastError : option string         (* [chrome.runtime.lastError], in the callback *)
}.

Definition readBackendUrl (access : Access) (stored : Stored) : option string :=
  if chromeStorageAvailable access then
    match lastError access with
    | Some _ => None
    | None =>
        match sync stored with
        | Some (JStr value) =>
            if nonEmpty (trim value) then Some (trim value) else None
        | _ => None
        end
    end
  else
    let fallback := match local stored with Some item => item | None => EmptyString end in
    if nonEmpty (trim fallback) then Some (trim fallback) else None.

(** [saveBackendUrl]: how the promise settles, and what is kept then.  A
    [set] that reports an error is taken to have kept nothing, and
    [localStorage.setItem] to return. *)
Definition saveBackendUrl (access : Access) (value : string) (stored : Stored)
  : Completion unit * Stored :=
  let trimmed := trim value in
  if chromeStorageAvailable access then
    match lastError access with
    | Some message => (Throw (ErrorMsg message), stored)
    | None => (Return tt, {| sync := Some (JStr trimmed); local := local stored |})
    end
  else (Return tt, {| sync := sync stored; local := Some trimmed |}).

End Storage.

Module Client.

Import Js.

(** [url.replace(/\/?$/, '')]: the first match of the pattern is the
    slash that ends [url] when there is one, and the empty string at the
    end otherwise; so one slash at the end goes, and nothing else. *)
Fixpoint normalizeBaseUrl (url : string) : string :=
  match url with
  | EmptyString => EmptyString
  | String c EmptyString => if Ascii.eqb c "/" then EmptyString else url
  | String c rest => String c (normalizeBaseUrl rest)
  end.

(** [resolveBackendUrl], given [import.meta.env.VITE_API_BASE_URL] and
    what [readBackendUrl] resolved with. *)
Definition resolveBackendUrl (envBaseUrl stored : option string) : string :=
  let truthyOr (candidate : option string) (otherwise : string) :=
    match candidate with
    | Some value => if nonEmpty value then value else otherwise
    | None => otherwise
    end in
  normalizeBaseUrl (truthyOr stored (truthyOr envBaseUrl Storage.DEFAULT_BACKEND_URL)).

(** The URL that [request] fetches. *)
Definition requestUrl (envBaseUrl stored : option string) (path : string) : string :=
  let baseUrl := resolveBackendUrl envBaseUrl stored in
  baseUrl ++ (if startsWith path "/" then path else "/" ++ path).

(** A [Response]: [status] as a template literal prints it, and what
    [await response.text()] gives. *)
Record Response : Type := {
  ok : bool;
  status : string;
  bodyText : Completion string
}.

Section WithNetwork.

(** [await fetch(url, ...)] *)
Variable fetch : string -> Completion Response.

(** [JSON.parse(text)]: the value, or the message of the [SyntaxError]. *)
Variable JSON_parse : string -> JsValue + string.

Definition parseJson (response : Response) : Completion JsValue :=
  text <- bodyText response ;;
  if negb (nonEmpty text) then Return (JObj [])
  else
    match JSON_parse text with
    | inl value => Return value
    | inr message => Throw (ErrorMsg ("Invalid JSON received from backend: " ++ message))
    end.

Definition request (envBaseUrl stored : option string) (path : string)
  : Completion JsValue :=
  response <- fetch (requestUrl envBaseUrl stored path) ;;
  if negb (ok response) then
    message <- bodyText response ;;
    Throw (ErrorMsg (if nonEmpty message then message
                     else "Backend request failed (" ++ status response ++ ")"))
  else parseJson response.

Definition checkBackendHealth (envBaseUrl stored : option string) : bool :=
  match request envBaseUrl stored "/health" with
  | Return _ => true
  | Throw _ => false
  end.

End WithNetwork.

(** [url] ends with a slash. *)
Fixpoint endsWithSlash (url : string) : bool :=
  match url with
  | EmptyString => false
  | String c EmptyString => Ascii.eqb c "/"
  | String _ rest => endsWithSlash rest
  end.

End Client.

(** ** The content script: waiting for the problem to show *)

Module ContentScript.

Import Js.

Definition QUERY_TIMEOUT_MS : Z := 12000.
Definition COULD_NOT_DETECT : string :=
  "Could not detect a LeetCode problem on this page.".
Definition UNEXPECTED : string := "Unexpected error while scraping.".

(** [toErrorMessage], on what a promise was rejected with. *)
Definition toErrorMessage (value : Exn) : string :=
  match value with
  | TypeError message | ErrorMsg message => message
  | Thrown thrown =>
      if truthy thrown && isObject thrown then
        match get thrown "message" with
        | JStr candidate => candidate
        | _ => UNEXPECTED
        end
      else UNEXPECTED
  end.

Inductive ReadyState : Type := Loading | Interactive | Complete.

Section WithPage.

(** The page as [scrapeProblem] finds it at one moment, what it makes of
    it, and [scrapeProblem] itself. *)
Variable Snapshot : Type.
Variable Parsed : Type.
Variable scrapeProblem : Snapshot -> Completion (option Parsed).

(** What happens to the page while the promise is pending, each with the
    page and the clock of that moment: a mutation reported to the
    observer, or a [readystatechange] event. *)
Inductive PageEvent : Type :=
| Mutation (page : Snapshot) (now : Z)
| ReadyStateChange (readyState : ReadyState) (page : Snapshot) (now : Z).

(** The promise ([None] while pending; the first settlement stays), and
    whether the observer, the listener and the timer are still set. *)
Record Waiting : Type := {
  settledWith : option (Completion (Parsed * Z));
  listening : bool
}.

Definition settle (result : Completion (Parsed * Z)) (w : Waiting) : Waiting :=
  {| settledWith := match settledWith w with
                    | Some first => Some first
                    | None => Some result
                    end;
     listening := listening w |}.

Definition cleanup (w : Waiting) : Waiting :=
  {| settledWith := settledWith w; listening := false |}.

(** [attempt()]; it throws what [scrapeProblem] throws. *)
Definition attempt (page : Snapshot) (now : Z) (w : Waiting) : Completion Waiting :=
  parsed <- scrapeProblem page ;;
  match parsed with
  | Some found => Return (settle (Return (found, now)) (cleanup w))
  | None => Return w
  end.

(** The callback of the observer and [readyListener]; what they throw
    goes to nobody. *)
Definition onEvent (w : Waiting) (event : PageEvent) : Waiting :=
  if negb (listening w) then w
  else
    let attempted page now :=
      match attempt page now w with
      | Return w' => w'
      | Throw _ => w
      end in
    match event with
    | Mutation page now => attempted page now
    | ReadyStateChange Loading _ _ => w
    | ReadyStateChange _ page now => attempted page now
    end.

(** The callback of the timer. *)
Definition onTimeout (w : Waiting) : Waiting :=
  if negb (listening w) then w
  else settle (Throw (ErrorMsg COULD_NOT_DETECT)) (cleanup w).

(** [waitForProblem]: the page and the clock when it is called, and the
    events that come before the timer is due.  What the executor throws
    rejects the promise. *)
Definition waitForProblem (page0 : Snapshot) (now0 : Z) (pageEvents : list PageEvent)
  : option (Completion (Parsed * Z)) :=
  let w0 := {| settledWith := None; listening := true |} in
  let w1 :=
    match attempt page0 now0 w0 with
    | Return w => w
    | Throw e => settle (Throw e) w0
    end in
  settledWith (onTimeout (fold_left onEvent pageEvents w1)).

(** What [sendResponse] is given; the problem goes with its time stamp. *)
Record Reply : Type := {
  success : bool;
  problem : option (Parsed * Z);
  error : option string
}.

Record Handled : Type := {
  returned : option bool;       (* [None] for [undefined] *)
  replies : list Reply          (* the calls of [sendResponse], in order *)
}.

(** The listener for SCRAPE_PROBLEM. *)
Definition onMessage (message : JsValue)
           (page0 : Snapshot) (now0 : Z) (pageEvents : list PageEvent) : Handled :=
  if negb (truthy message) || negb (isObject message)
  then {| returned := None; replies := [] |}
  else
    match get message "type" with
    | JStr type =>
        if String.eqb type "SCRAPE_PROBLEM" then
          {| returned := Some true;
             replies :=
               match waitForProblem page0 now0 pageEvents with
               | Some (Return found) =>
                   [{| success := true; problem := Some found; error := None |}]
               | Some (Throw e) =>
                   [{| success := false; problem := None;
                       error := Some (toErrorMessage e) |}]
               | None => []
               end |}
        else {| returned := None; replies := [] |}
    | _ => {| returned := None; replies := [] |}
    end.

(** The moments at which [attempt] runs because of an event. *)
Fixpoint attempts (pageEvents : list PageEvent) : list (Snapshot * Z) :=
  match pageEvents with
  | [] => []
  | Mutation page now :: rest => (page, now) :: attempts rest
  | ReadyStateChange Loading _ _ :: rest => attempts rest
  | ReadyStateChange _ page now :: rest => (page, now) :: attempts rest
  end.

(** The first of these moments at which [scrapeProblem] returns a
    problem. *)
Fixpoint firstFound (moments : list (Snapshot * Z)) : option (Parsed * Z) :=
  match moments with
  | [] => None
  | (page, now) :: rest =>
      match scrapeProblem page with
      | Return (Some found) => Some (found, now)
      | _ => firstFound rest
      end
  end.

End WithPage.

Arguments Mutation {Snapshot} _ _.
Arguments ReadyStateChange {Snapshot} _ _ _.
Arguments success {Parsed} _.
Arguments problem {Parsed} _.
Arguments error {Parsed} _.
Arguments returned {Parsed} _.
Arguments replies {Parsed} _.

End ContentScript.

(** ** The settings page: saving the backend URL *)

Module Settings.

Import Js.

(** What [handleSave] sets the status to: the request for a URL, the
    success, or the failure with what [saveBackendUrl] was rejected with
    (whose message the status text ends with). *)
Inductive SaveStatus : Type :=
| ProvideUrl
| Saved
| UnableToSave (error : Exn).

(** [handleSave], for what the field holds; with the status, what is kept
    in storage afterwards. *)
Definition handleSave (backendUrl : string)
           (access : Storage.Access) (stored : Storage.Stored)
  : SaveStatus * Storage.Stored :=
  let trimmed := trim backendUrl in
  if negb (nonEmpty trimmed) then (ProvideUrl, stored)
  else
    match Storage.saveBackendUrl access trimmed stored with
    | (Return _, kept) => (Saved, kept)
    | (Throw error, kept) => (UnableToSave error, kept)
    end.

End Settings.

(** ** Further vocabulary: shapes of strings *)

Module Shapes.

Import Js Normalizer.

(** [s] is left as it is by [trim]. *)
Definition trimmed (s : string) : Prop := trim s = s.

(** Slug characters and single dashes only; [prevDash] tells that the
    character before was a dash (or that there was none). *)
Fixpoint dashesApart (prevDash : bool) (s : string) : bool :=
  match s with
  | EmptyString => true
  | String c rest =>
      if isSlugChar c then dashesApart false rest
      else Ascii.eqb c "-" && negb prevDash && dashesApart true rest
  end.

(** The same, and the last character is no dash. *)
Fixpoint slugBody (prevDash : bool) (s : string) : bool :=
  match s with
  | EmptyString => negb prevDash
  | String c rest =>
      if isSlugChar c then slugBody false rest
      else Ascii.eqb c "-" && negb prevDash && slugBody true rest
  end.

(** A slug: empty, or runs of [a-z0-9] separated by single dashes. *)
Definition isSlug (s : string) : bool :=
  match s with
  | EmptyString => true
  | _ => slugBody true s
  end.

(** No white space at the front. *)
Definition startsClean (s : string) : Prop :=
  match s with
  | EmptyString => True
  | String c _ => Js.isWhiteSpace c = false
  end.

Definition allChars (f : ascii -> bool) (s : string) : bool :=
  forallb f (list_ascii_of_string s).

End Shapes.

(** ** Further sample data *)

Module Samples.

Import Js Normalizer Dom Scraper.
Import ListNotations.

(** The body of a short statement, whatever the markup it was parsed
    from. *)
Definition shortBody : Node :=
  Element "body" [] [Element "p" [] [Text "Add two numbers."]].

Definition readShort (html : string) : Node := shortBody.

Definition threeSumRecord : JsValue :=
  JObj [("title", JStr "3Sum"); ("titleSlug", JStr "3sum");
        ("content", JStr "<p>Find triplets.</p>")].

Definition twoSumRecord : JsValue :=
  JObj [("title", JStr "Two Sum"); ("titleSlug", JStr "two-sum");
        ("content", JStr "<p>Add two numbers.</p>");
        ("difficulty", JStr "Easy"); ("questionFrontendId", JStr "1")].

(** The page of two-sum, whose blob holds the record of a neighbour and,
    deeper, its own. *)
Definition twoSumPage : Page :=
  {| pathname := "/problems/two-sum/";
     href := "https://leetcode.com/problems/two-sum/";
     nextData :=
       JObj [("buildId", JStr "abc");
             ("props", JArr [threeSumRecord; JObj [("question", twoSumRecord)]])];
     document := Element "html" [] [Element "head" [] []; Element "body" [] []] |}.

Definition twoSumParsed : ParsedProblem :=
  {| title := JStr "Two Sum";
     difficulty := Easy;
     description := "Add two numbers.";
     examples := [];
     constraints := NOT_DETECTED;
     url := "https://leetcode.com/problems/two-sum/";
     slug := "two-sum";
     problemNumber := "1" |}.

(** The panel with a greeting, and a question typed in. *)
Definition greetingMessage : Panel.Message :=
  {| Panel.role := Panel.Assistant;
     Panel.content := Some (Stream.textOf "Ready to explore.");
     Panel.timestamp := 1700000000500 |}.

Definition askingView : Panel.View unit :=
  {| Panel.problem := Some Statements.twoSum;
     Panel.backendStatus := Panel.BackendReady;
     Panel.messages := [greetingMessage];
     Panel.input := Stream.textOf " Why a hash map? ";
     Panel.isThinking := false;
     Panel.chatError := Some (Stream.textOf "stale");
     Panel.latestSummary := None;
     Panel.sources := Some [] |}.

Definition question : Panel.Message :=
  {| Panel.role := Panel.User;
     Panel.content := Some (Stream.textOf "Why a hash map?");
     Panel.timestamp := 1700000001000 |}.

(** The panel once the question is sent and no event has come yet. *)
Definition waitingView : Panel.View unit :=
  {| Panel.problem := Some Statements.twoSum;
     Panel.backendStatus := Panel.BackendReady;
     Panel.messages :=
       [greetingMessage; question;
        {| Panel.role := Panel.Assistant; Panel.content := Some [];
           Panel.timestamp := 1700000001001 |}];
     Panel.input := [];
     Panel.isThinking := true;
     Panel.chatError := None;
     Panel.latestSummary := None;
     Panel.sources := Some [] |}.

(** The page of two-sum before anything is rendered. *)
Definition blankPage : Page :=
  {| pathname := "/problems/two-sum/";
     href := "https://leetcode.com/problems/two-sum/";
     nextData := JUndefined;
     document := Element "html" [] [Element "head" [] []; Element "body" [] []] |}.

(** A backend that answers the health check with a page of HTML, and a
    [JSON.parse] that takes nothing but the empty object. *)
Definition htmlBackend (url : string) : Completion Client.Response :=
  Return {| Client.ok := true; Client.status := "200";
            Client.bodyText := Return "<html></html>" |}.

Definition emptyBackend (url : string) : Completion Client.Response :=
  Return {| Client.ok := true; Client.status := "200";
            Client.bodyText := Return EmptyString |}.

Definition parseBraces (text : string) : JsValue + string :=
  if String.eqb text "{}" then inl (JObj []) else inr "Unexpected token".

(** A final payload with its answer, summary and sources, the parser
    that knows its line beside those of the examples, and a body that ends
    with it. *)
Definition fullAnswer : Stream.ChatResponse unit :=
  {| Stream.success := Some true;
     Stream.answer := Some (Stream.textOf "Hi there, friend.");
     Stream.summary := Some (Stream.textOf "A greeting.");
     Stream.sources := Some [tt];
     Stream.error := None |}.

Definition fullLine : string :=
  "{'type':'end','payload':{'success':true,'answer':'Hi there, friend.','summary':'A greeting.','sources':[{}]}}".

Definition parseFull (line : Stream.text) : option (Stream.ChatStreamEvent unit) :=
  if list_eq_dec N.eq_dec line (Statements.jsonText fullLine)
  then Some (Stream.EndEvent fullAnswer)
  else Statements.parseSample line.

Definition fullBody : list Stream.Chunk :=
  [(Statements.jsonBytes "{'type':'token','token':'Hi'}" ++ [Byte.x0a])%list;
   (Statements.jsonBytes "{'type':'token','token':' there'}" ++ [Byte.x0a])%list;
   (Statements.jsonBytes fullLine ++ [Byte.x0a])%list].

Definition engineMessage (line : Stream.text) : Stream.text :=
  Stream.textOf "Unexpected token".

End Samples.

(** ** Further vocabulary: what holds of every result *)

Module Invariants.

Import Js Normalizer Dom Scraper Shapes.

(** A problem as the parser leaves its text: the description is not
    empty, and no example is empty or has white space around it. *)
Definition textInOrder (p : ParsedProblem) : Prop :=
  description p <> EmptyString
  /\ forall e, In e (examples p) -> e <> EmptyString /\ trimmed e.

End Invariants.

(* ===================================================================== *)
(** * Part II: properties                                                 *)
(* ===================================================================== *)

Import Js Normalizer Dom Scraper Statements.

Example toSlug_two_sum : toSlug "Two Sum" = "two-sum".
Proof. reflexivity. Qed.

Example toSlug_edges : toSlug "  3Sum (Closest)! " = "3sum-closest".
Proof. reflexivity. Qed.

Example trim_nbsp : trim (String (ascii_of_N 160) " Easy  ") = "Easy".
Proof. reflexivity. Qed.

(** ** Difficulty labels *)

Lemma trim_empty : trim EmptyString = EmptyString.
Proof. reflexivity. Qed.

Lemma label_nonEmpty (d : Difficulty) : nonEmpty (label d) = true.
Proof. destruct d; reflexivity. Qed.

Lemma normalizeDifficulty_string (s : string) :
  normalizeDifficulty (JStr s) =
  Return (if String.eqb (trim s) "Easy" then Easy
          else if String.eqb (trim s) "Hard" then Hard
          else Medium).
Proof.
  unfold normalizeDifficulty. cbn [truthy].
  destruct s as [|c rest].
  - reflexivity.
  - cbn [nonEmpty negb].
    destruct (String.eqb (trim (String c rest)) "Easy"); [reflexivity|].
    destruct (String.eqb (trim (String c rest)) "Medium") eqn:M.
    + apply String.eqb_eq in M. rewrite M. reflexivity.
    + destruct (String.eqb (trim (String c rest)) "Hard"); reflexivity.
Qed.

Lemma normalizeDifficulty_label (s : string) (d : Difficulty) :
  trim s = label d -> normalizeDifficulty (JStr s) = Return d.
Proof.
  intros H. rewrite normalizeDifficulty_string, H. destruct d; reflexivity.
Qed.

Lemma normalizeDifficulty_other (s : string) :
  trim s <> "Easy" -> trim s <> "Hard" -> normalizeDifficulty (JStr s) = Return Medium.
Proof.
  intros HE HH. rewrite normalizeDifficulty_string.
  apply String.eqb_neq in HE, HH. rewrite HE, HH. reflexivity.
Qed.

(** C8.  On every input of its declared type, [normalizeDifficulty] gives
    back the label the input reads once trimmed when that is one of Easy,
    Medium and Hard, and Medium in every other case: [undefined], [null],
    the empty string and every string that trims to something else. *)
Theorem normalizeDifficulty_policy (value : JsValue) :
  declaredInput value ->
  (forall d, trimsTo value d -> normalizeDifficulty value = Return d)
  /\ ((forall d, ~ trimsTo value d) -> normalizeDifficulty value = Return Medium).
Proof.
  intros Hty. split.
  - intros d (s & -> & Hs). now apply normalizeDifficulty_label.
  - intros Hout. destruct value; try contradiction; try reflexivity.
    apply normalizeDifficulty_other.
    + intros E. apply (Hout Easy). now exists s.
    + intros E. apply (Hout Hard). now exists s.
Qed.

Lemma normalizeDifficulty_policy_witness :
  normalizeDifficulty (JStr "  Hard ") = Return Hard
  /\ normalizeDifficulty JUndefined = Return Medium
  /\ normalizeDifficulty JNull = Return Medium
  /\ normalizeDifficulty (JStr EmptyString) = Return Medium
  /\ normalizeDifficulty (JStr "Trivial") = Return Medium.
Proof.
  assert (out : forall v, (forall s, v = JStr s ->
                 trim s <> "Easy" /\ trim s <> "Medium" /\ trim s <> "Hard") ->
               forall d, ~ trimsTo v d).
  { intros v H d (s & E & Hs). destruct (H s E) as (A & B & C).
    destruct d; simpl in Hs; congruence. }
  split; [|split; [|split; [|split]]].
  - apply (proj1 (normalizeDifficulty_policy (JStr "  Hard ") I) Hard).
    exists "  Hard ". split; reflexivity.
  - apply (proj2 (normalizeDifficulty_policy JUndefined I)).
    apply out. intros s E. discriminate E.
  - apply (proj2 (normalizeDifficulty_policy JNull I)).
    apply out. intros s E. discriminate E.
  - apply (proj2 (normalizeDifficulty_policy (JStr EmptyString) I)).
    apply out. intros s E. injection E as <-.
    split; [|split]; discriminate.
  - apply (proj2 (normalizeDifficulty_policy (JStr "Trivial") I)).
    apply out. intros s E. injection E as <-.
    split; [|split]; discriminate.
Defined.

(** C10.  The comparison is exact: a string that trims to a label written
    in another capitalisation is not recognised and gives Medium, which for
    a variant of Easy or of Hard is not the label it resembles. *)
Theorem normalizeDifficulty_case_sensitive (s : string) (d : Difficulty) :
  caseVariantOf s d ->
  normalizeDifficulty (JStr s) = Return Medium
  /\ (d <> Medium -> normalizeDifficulty (JStr s) <> Return d).
Proof.
  intros (Hlow & Hne).
  assert (R : normalizeDifficulty (JStr s) = Return Medium).
  { apply normalizeDifficulty_other; intros E; rewrite E in Hlow, Hne;
      destruct d; simpl in Hlow; try discriminate Hlow;
      apply Hne; reflexivity. }
  split; [exact R|].
  intros Hd E. rewrite R in E. injection E as E. congruence.
Qed.

Lemma normalizeDifficulty_case_sensitive_witness :
  normalizeDifficulty (JStr "easy") = Return Medium
  /\ normalizeDifficulty (JStr "EASY") = Return Medium
  /\ normalizeDifficulty (JStr " hard ") = Return Medium.
Proof.
  split; [|split].
  - apply (normalizeDifficulty_case_sensitive "easy" Easy).
    split; [reflexivity | discriminate].
  - apply (normalizeDifficulty_case_sensitive "EASY" Easy).
    split; [reflexivity | discriminate].
  - apply (normalizeDifficulty_case_sensitive " hard " Hard).
    split; [reflexivity | discriminate].
Defined.

(** ** The DOM: what [descendants] lists, and in which order *)

Section NodeInduction.

Variable P : Node -> Prop.
Hypothesis Htext : forall data, P (Text data).
Hypothesis Hcomment : forall data, P (Comment data).
Hypothesis Helement :
  forall tag attrs kids, Forall P kids -> P (Element tag attrs kids).

Fixpoint Node_forall_ind (n : Node) : P n :=
  match n with
  | Text data => Htext data
  | Comment data => Hcomment data
  | Element tag attrs kids =>
      Helement tag attrs kids
        ((fix all (ks : list Node) : Forall P ks :=
            match ks with
            | [] => Forall_nil P
            | k :: rest => Forall_cons k (Node_forall_ind k) (all rest)
            end) kids)
  end.

End NodeInduction.

Lemma in_walkWith (below : Node -> list Handle) (ks : list Node) (i : nat) (h : Handle) :
  In h (walkWith below i ks) <->
  exists j k, nth_error ks j = Some k
    /\ ((isElement k = true /\ h = ([i + j], k))
        \/ exists h', In h' (below k) /\ h = (i + j :: fst h', snd h')).
Proof.
  revert i. induction ks as [|k rest IH]; intros i; cbn [walkWith].
  - split; [intros [] | intros (j & k & Hj & _); destruct j; discriminate Hj].
  - rewrite !in_app_iff, in_map_iff, IH. split.
    + intros [Hhead | [(h' & <- & Hin) | (j & k' & Hj & Hcase)]].
      * exists 0, k. rewrite Nat.add_0_r. split; [reflexivity|]. left.
        destruct (isElement k); [|destruct Hhead].
        destruct Hhead as [<- | []]. now split.
      * exists 0, k. rewrite Nat.add_0_r. split; [reflexivity|]. right.
        now exists h'.
      * exists (S j), k'. rewrite Nat.add_succ_r. split; [exact Hj|]. exact Hcase.
    + intros (j & k' & Hj & Hcase). destruct j as [|j].
      * cbn in Hj. injection Hj as <-. rewrite Nat.add_0_r in Hcase.
        destruct Hcase as [(He & ->) | (h' & Hin & ->)].
        -- left. rewrite He. now left.
        -- right. left. now exists h'.
      * right. right. exists j, k'. rewrite Nat.add_succ_r in Hcase.
        split; [exact Hj | exact Hcase].
Qed.

Lemma nodeAt_leaf (n : Node) (p : Path) (e : Node) :
  isElement n = false -> p <> [] -> nodeAt n p = Some e -> False.
Proof.
  intros Hn Hp H. destruct p as [|i q]; [now apply Hp|].
  destruct n; try discriminate Hn; cbn in H; destruct i; discriminate H.
Qed.

(** [descendants n] lists exactly the elements strictly below [n], each
    under the path that leads to it. *)
Lemma descendants_spec (n : Node) :
  forall p e,
    In (p, e) (descendants n) <->
    p <> [] /\ nodeAt n p = Some e /\ isElement e = true.
Proof.
  induction n as [data|data|tag attrs kids IH] using Node_forall_ind; intros p e.
  - split; [intros [] | intros (Hp & H & _)].
    exact (nodeAt_leaf (Text data) p e eq_refl Hp H).
  - split; [intros [] | intros (Hp & H & _)].
    exact (nodeAt_leaf (Comment data) p e eq_refl Hp H).
  - cbn [descendants]. rewrite in_walkWith. rewrite Forall_forall in IH. split.
    + intros (j & k & Hj & [(He & E) | (h' & Hin & E)]); injection E as -> ->.
      * split; [discriminate|]. cbn. rewrite Hj. now split.
      * destruct h' as [q e']. cbn [fst snd].
        apply (IH k (nth_error_In _ _ Hj)) in Hin. destruct Hin as (Hq & Hat & He).
        split; [discriminate|]. cbn. rewrite Hj. now split.
    + intros (Hp & Hat & He). destruct p as [|j q]; [now destruct Hp|].
      cbn in Hat. destruct (nth_error kids j) as [k|] eqn:Hj; [|discriminate Hat].
      exists j, k. split; [exact Hj|]. destruct q as [|i q'].
      * left. cbn in Hat. injection Hat as ->. now split.
      * right. exists (i :: q', e). split; [|reflexivity].
        apply (IH k (nth_error_In _ _ Hj)). split; [discriminate|]. now split.
Qed.

Lemma StronglySorted_app {A : Type} (R : A -> A -> Prop) (l1 l2 : list A) :
  StronglySorted R l1 -> StronglySorted R l2 ->
  (forall x y, In x l1 -> In y l2 -> R x y) ->
  StronglySorted R (l1 ++ l2).
Proof.
  intros H1 H2 Hcross. induction H1 as [|x l1 Hs IH Hx]; cbn.
  - exact H2.
  - constructor.
    + apply IH. intros a b Ha Hb. apply Hcross; [now right | exact Hb].
    + apply Forall_app. split; [exact Hx|].
      apply Forall_forall. intros y Hy. apply Hcross; [now left | exact Hy].
Qed.

Lemma StronglySorted_filter {A : Type} (R : A -> A -> Prop) (f : A -> bool) (l : list A) :
  StronglySorted R l -> StronglySorted R (filter f l).
Proof.
  induction 1 as [|x l Hs IH Hx]; cbn; [constructor|].
  destruct (f x); [|exact IH]. constructor; [exact IH|].
  apply Forall_forall. intros y Hy. apply filter_In in Hy.
  rewrite Forall_forall in Hx. now apply Hx.
Qed.

Lemma StronglySorted_under (i : nat) (l : list Handle) :
  StronglySorted handleBefore l ->
  StronglySorted handleBefore (map (fun h => (i :: fst h, snd h)) l).
Proof.
  induction 1 as [|x l Hs IH Hx]; cbn; constructor; [exact IH|].
  apply Forall_forall. intros y Hy. apply in_map_iff in Hy.
  destruct Hy as (h & <- & Hh). rewrite Forall_forall in Hx.
  unfold handleBefore. cbn. right. split; [reflexivity|]. now apply Hx.
Qed.

Lemma walkWith_sorted (below : Node -> list Handle) (ks : list Node) :
  (forall k, In k ks ->
     StronglySorted handleBefore (below k)
     /\ forall h, In h (below k) -> fst h <> []) ->
  forall i, StronglySorted handleBefore (walkWith below i ks).
Proof.
  induction ks as [|k rest IH]; intros Hks i; cbn [walkWith]; [constructor|].
  destruct (Hks k (or_introl eq_refl)) as (Hsorted & Hne).
  apply StronglySorted_app; [|apply StronglySorted_app|].
  - destruct (isElement k); repeat constructor.
  - now apply StronglySorted_under.
  - apply IH. intros k' Hk'. apply Hks. now right.
  - intros x y Hx Hy. apply in_map_iff in Hx. destruct Hx as (h & <- & Hh).
    apply in_walkWith in Hy.
    destruct Hy as (j & k' & _ & [(_ & ->) | (h' & _ & ->)]);
      unfold handleBefore; cbn; left; lia.
  - intros x y Hx Hy. apply in_app_iff in Hy.
    assert (Hhead : x = ([i], k)).
    { destruct (isElement k); [|destruct Hx]. now destruct Hx as [<- | []]. }
    subst x. destruct Hy as [Hy | Hy].
    + apply in_map_iff in Hy. destruct Hy as ([q e'] & <- & Hh).
      specialize (Hne (q, e') Hh). cbn in Hne.
      unfold handleBefore. cbn. right. split; [reflexivity|].
      destruct q; [now destruct Hne | exact I].
    + apply in_walkWith in Hy.
      destruct Hy as (j & k' & _ & [(_ & ->) | (h' & _ & ->)]);
        unfold handleBefore; cbn; left; lia.
Qed.

(** [descendants n] is in document order. *)
Lemma descendants_sorted (n : Node) : StronglySorted handleBefore (descendants n).
Proof.
  induction n as [data|data|tag attrs kids IH] using Node_forall_ind;
    try constructor.
  cbn [descendants]. apply walkWith_sorted. rewrite Forall_forall in IH.
  intros k Hk. split; [now apply IH|].
  intros [p e] Hh. apply descendants_spec in Hh. now destruct Hh.
Qed.

(** ** The HTML content parser *)

Lemma querySelectorAll_root (doc : Node) (sel : Selector) :
  querySelectorAll doc [] sel = filter (fun h => matches sel (snd h)) (descendants doc).
Proof.
  unfold querySelectorAll. cbn [nodeAt app].
  induction (filter (fun h => matches sel (snd h)) (descendants doc)) as [|[p e] l IH].
  - reflexivity.
  - cbn. now rewrite IH.
Qed.

Lemma querySelectorAll_root_spec (doc : Node) (sel : Selector) (p : Path) (e : Node) :
  In (p, e) (querySelectorAll doc [] sel) <->
  p <> [] /\ nodeAt doc p = Some e /\ matches sel e = true.
Proof.
  rewrite querySelectorAll_root, filter_In, descendants_spec. cbn [snd]. split.
  - intros ((Hp & Hat & _) & Hm). now repeat split.
  - intros (Hp & Hat & Hm). repeat split; try assumption.
    destruct e; try discriminate Hm. reflexivity.
Qed.

Lemma querySelectorAll_root_sorted (doc : Node) (sel : Selector) :
  StronglySorted handleBefore (querySelectorAll doc [] sel).
Proof.
  rewrite querySelectorAll_root. apply StronglySorted_filter, descendants_sorted.
Qed.

Lemma parseHtmlContent_examples_eq (parseFromString : string -> Node) (html : string) :
  examplesOf (parseHtmlContent parseFromString html)
  = filter nonEmpty (map exampleText (preBlocks (parseFromString html))).
Proof. reflexivity. Qed.

Lemma nonEmpty_true (s : string) : nonEmpty s = true <-> s <> EmptyString.
Proof. destruct s; cbn; split; congruence. Qed.

(** C6, as the code has it.  The examples are the trimmed texts of the
    [pre] elements below the body, listed in document order, the empty ones
    dropped; there is at least one example as soon as one [pre] block has a
    text that is not empty once trimmed. *)
Theorem parseHtmlContent_examples (parseFromString : string -> Node) (html : string) :
  let body := parseFromString html in
  let blocks := preBlocks body in
  (forall p e, In (p, e) blocks <->
     p <> [] /\ nodeAt body p = Some e /\ matches (ByTag "pre") e = true)
  /\ StronglySorted handleBefore blocks
  /\ examplesOf (parseHtmlContent parseFromString html)
     = filter nonEmpty (map exampleText blocks)
  /\ ((exists block, In block blocks /\ exampleText block <> EmptyString) ->
      1 <= List.length (examplesOf (parseHtmlContent parseFromString html))).
Proof.
  intros body blocks. split; [|split; [|split]].
  - intros p e. apply querySelectorAll_root_spec.
  - apply querySelectorAll_root_sorted.
  - apply parseHtmlContent_examples_eq.
  - intros (block & Hin & Hne). rewrite parseHtmlContent_examples_eq.
    fold body. fold blocks.
    assert (Hex : In (exampleText block) (filter nonEmpty (map exampleText blocks))).
    { apply filter_In. split; [now apply in_map | now apply nonEmpty_true]. }
    destruct (filter nonEmpty (map exampleText blocks)); [destruct Hex | cbn; lia].
Qed.

Lemma parseHtmlContent_examples_witness :
  let body :=
    Element "body" []
      [Element "p" [] [Text "Add two numbers."];
       Element "pre" [] [Text " Input: 1 2 "];
       Element "pre" [] [Text "  "];
       Element "pre" [] [Element "strong" [] [Text "Output:"]; Text " 3"]] in
  examplesOf (parseHtmlContent (fun _ => body) "<p>Add two numbers.</p>")
  = ["Input: 1 2"; "Output: 3"]
  /\ 1 <= List.length (examplesOf (parseHtmlContent (fun _ => body) "<p>Add two numbers.</p>")).
Proof.
  intros body. split; [reflexivity|].
  apply (parseHtmlContent_examples (fun _ => body) "<p>Add two numbers.</p>").
  exists ([1], Element "pre" [] [Text " Input: 1 2 "]).
  split; [left; reflexivity | discriminate].
Defined.

(** C6, as it is stated, fails: a fragment whose only [pre] block is blank
    has a preformatted block and no example. *)
Lemma examples_empty_despite_pre :
  ~ (forall (parseFromString : string -> Node) (html : string),
       preBlocks (parseFromString html) <> [] ->
       1 <= List.length (examplesOf (parseHtmlContent parseFromString html))).
Proof.
  intros H.
  specialize (H (fun _ => Element "body" [] [Element "pre" [] [Text "  "]])
                "<pre>  </pre>").
  cbv in H. assert (Hpre : 1 <= 0) by (apply H; discriminate). lia.
Qed.

Lemma find_first_sorted {A : Type} (R : A -> A -> Prop) (f : A -> bool) (l : list A) (x : A) :
  StronglySorted R l -> find f l = Some x ->
  In x l /\ f x = true /\ forall y, In y l -> f y = true -> y = x \/ R x y.
Proof.
  induction 1 as [|a l Hs IH Ha]; cbn; [discriminate|].
  destruct (f a) eqn:Fa.
  - intros E. injection E as <-. split; [now left|]. split; [exact Fa|].
    intros y [<- | Hy] _; [now left|]. right.
    rewrite Forall_forall in Ha. now apply Ha.
  - intros E. destruct (IH E) as (Hin & Fx & Hfirst).
    split; [now right|]. split; [exact Fx|].
    intros y [<- | Hy] Fy; [congruence | now apply Hfirst].
Qed.

Lemma find_none_all {A : Type} (f : A -> bool) (l : list A) :
  find f l = None -> forall y, In y l -> f y = false.
Proof. intros H y Hy. exact (find_none f l H y Hy). Qed.

(** The node one step above a path, and the child the path ends on. *)
Lemma nodeAt_parent (p : Path) :
  forall n e, p <> [] -> nodeAt n p = Some e ->
  exists e', nodeAt n (removelast p) = Some e'
             /\ nth_error (childNodesOf e') (last p 0) = Some e.
Proof.
  induction p as [|i q IH]; intros n e Hp Hat; [now destruct Hp|].
  destruct q as [|j q'].
  - cbn in *. exists n. split; [reflexivity|].
    destruct (nth_error (childNodesOf n) i); congruence.
  - change (removelast (i :: j :: q')) with (i :: removelast (j :: q')).
    change (last (i :: j :: q') 0) with (last (j :: q') 0).
    cbn [nodeAt] in *. destruct (nth_error (childNodesOf n) i) as [k|]; [|discriminate Hat].
    apply IH; [discriminate | exact Hat].
Qed.

Lemma parentElement_of_descendant (doc : Node) (sel : Selector) (h : Handle) :
  In h (querySelectorAll doc [] sel) ->
  exists parent,
    parentElement doc (fst h) = Some parent
    /\ fst parent = removelast (fst h)
    /\ nodeAt doc (fst parent) = Some (snd parent)
    /\ nth_error (childNodesOf (snd parent)) (last (fst h) 0) = Some (snd h).
Proof.
  destruct h as [p e]. intros Hin. apply querySelectorAll_root_spec in Hin.
  destruct Hin as (Hp & Hat & _). cbn [fst snd].
  destruct (nodeAt_parent p doc e Hp Hat) as (e' & Hup & Hchild).
  exists (removelast p, e'). unfold parentElement.
  destruct p as [|i q]; [now destruct Hp|]. rewrite Hup. now repeat split.
Qed.

Lemma collectConstraints_found (body : Node) (label parent : Handle) :
  find isConstraintLabel (strongLabels body) = Some label ->
  parentElement body (fst label) = Some parent ->
  collectConstraints body [] = constraintsBeside body parent.
Proof.
  intros Hfind Hparent. unfold collectConstraints, constraintsBeside.
  unfold strongLabels in Hfind. now rewrite Hfind, Hparent.
Qed.

(** C7, as the code has it.  The label is the first [strong] element, in
    document order, whose lower-cased text contains "constraint".  When
    there is none the constraints are the sentinel.  Otherwise the label
    has a parent element, and the constraints are read beside that parent:
    when the parent's next element sibling is a [ul] or an [ol], they are
    the trimmed texts of its child elements, the empty ones dropped, joined
    by a line feed; in every other case they are the parent's trimmed
    text. *)
Theorem parseHtmlContent_constraints (parseFromString : string -> Node) (html : string) :
  let body := parseFromString html in
  let result := constraintsOf (parseHtmlContent parseFromString html) in
  match find isConstraintLabel (strongLabels body) with
  | None =>
      (forall h, In h (strongLabels body) -> isConstraintLabel h = false)
      /\ result = NOT_DETECTED
  | Some label =>
      In label (strongLabels body)
      /\ isConstraintLabel label = true
      /\ (forall h, In h (strongLabels body) -> isConstraintLabel h = true ->
            h = label \/ handleBefore label h)
      /\ exists parent,
           parentElement body (fst label) = Some parent
           /\ nth_error (childNodesOf (snd parent)) (last (fst label) 0)
              = Some (snd label)
           /\ result = constraintsBeside body parent
  end.
Proof.
  intros body result.
  destruct (find isConstraintLabel (strongLabels body)) as [label|] eqn:Hfind.
  - destruct (find_first_sorted handleBefore isConstraintLabel _ label
                (querySelectorAll_root_sorted body (ByTag "strong")) Hfind)
      as (Hin & Hlabel & Hfirst).
    split; [exact Hin|]. split; [exact Hlabel|]. split; [exact Hfirst|].
    destruct (parentElement_of_descendant body _ label Hin)
      as (parent & Hparent & _ & _ & Hchild).
    exists parent. split; [exact Hparent|]. split; [exact Hchild|].
    exact (collectConstraints_found body label parent Hfind Hparent).
  - split; [now apply find_none_all|].
    unfold result, constraintsOf, parseHtmlContent, readContent. cbn [snd contentConstraints].
    unfold collectConstraints. fold body. unfold strongLabels in Hfind.
    now rewrite Hfind.
Qed.

Lemma parseHtmlContent_constraints_witness :
  let body :=
    Element "body" []
      [Element "p" [] [Element "strong" [] [Text "Constraints:"]];
       Element "ul" []
         [Element "li" [] [Text " 1 <= n "]; Element "li" [] [];
          Element "li" [] [Text "n is odd"]]] in
  exists parent,
    parentElement body [0; 0] = Some parent
    /\ constraintsOf (parseHtmlContent (fun _ => body) "<p><strong>Constraints:</strong></p>")
       = constraintsBeside body parent
    /\ constraintsBeside body parent = "1 <= n" ++ LF ++ "n is odd".
Proof.
  intros body.
  pose proof (parseHtmlContent_constraints
                (fun _ => body) "<p><strong>Constraints:</strong></p>") as H.
  cbv zeta in H.
  change (find isConstraintLabel (strongLabels body))
    with (Some ([0; 0], Element "strong" [] [Text "Constraints:"])) in H.
  destruct H as (_ & _ & _ & parent & Hparent & _ & Hresult).
  exists parent. split; [exact Hparent|]. split; [exact Hresult|].
  cbv in Hparent. injection Hparent as <-. reflexivity.
Defined.

(** C7, as it is stated, fails: with the list beside the label inside one
    container, the code looks beside the container, finds no list and
    returns the container's text. *)
Lemma constraints_not_beside_label :
  ~ (forall (parseFromString : string -> Node) (html : string),
       constraintsOf (parseHtmlContent parseFromString html)
       = constraintsAsStated (parseFromString html)).
Proof.
  intros H.
  specialize (H (fun _ =>
                   Element "body" []
                     [Element "div" []
                        [Element "strong" [] [Text "Constraints:"];
                         Element "ul" [] [Element "li" [] [Text "1 <= n"]]]])
                "<div><strong>Constraints:</strong><ul><li>1 <= n</li></ul></div>").
  cbv in H. discriminate H.
Qed.

Example constraints_beside_container :
  collectConstraints
    (Element "body" []
       [Element "div" []
          [Element "strong" [] [Text "Constraints:"];
           Element "ul" [] [Element "li" [] [Text "1 <= n"]]]]) []
  = "Constraints:1 <= n".
Proof. reflexivity. Qed.

(** ** The structured-data extractor and the slug of the page *)

Section StructuredData.

Variable parseFromString : string -> Node.
Variable page : Page.

(** A candidate whose own slug contradicts the page's is dropped by
    [extractFromCandidate], whatever else it holds. *)
Lemma extractFromCandidate_contradicts (candidate : JsValue) (slug : string) :
  slug <> EmptyString -> contradicts candidate slug ->
  extractFromCandidate parseFromString page candidate slug = Return None.
Proof.
  intros Hslug (own & Hown & Hne & Hdiff).
  unfold extractFromCandidate. cbv zeta.
  destruct (negb (truthy (candidateTitle candidate))); [reflexivity|].
  match goal with |- (if negb (truthy ?c) then _ else _) = _ =>
    destruct (negb (truthy c)); [reflexivity|] end.
  unfold derivedSlug in Hown. rewrite Hown. cbn [bind].
  apply nonEmpty_true in Hslug, Hne. apply String.eqb_neq in Hdiff.
  now rewrite Hslug, Hne, Hdiff.
Qed.

Lemma visit_contradicts (slug : string) (node : JsValue) :
  slug <> EmptyString -> allContradict slug node ->
  visit parseFromString page slug node = Return None.
Proof.
  intros Hslug Hall. unfold visit.
  destruct (isCandidate node) eqn:Hc; [|reflexivity].
  apply extractFromCandidate_contradicts; [exact Hslug|].
  apply Hall; [constructor | exact Hc].
Qed.

Lemma allContradict_item (slug : string) (items : list JsValue) :
  allContradict slug (JArr items) -> Forall (allContradict slug) items.
Proof.
  intros H. apply Forall_forall. intros x Hx c Hc. apply H.
  now apply within_item with x.
Qed.

Lemma allContradict_value (slug : string) (props : list (string * JsValue)) :
  allContradict slug (JObj props) -> Forall (allContradict slug) (values props).
Proof.
  intros H. apply Forall_forall. intros x Hx c Hc. apply H.
  now apply within_value with x.
Qed.

Lemma push_all_good (P : JsValue -> Prop) (items stack : list JsValue) :
  Forall P items -> Forall P stack -> Forall P (fold_left push items stack).
Proof.
  revert stack. induction items as [|x rest IH]; intros stack Hi Hs; cbn.
  - exact Hs.
  - inversion Hi; subst. apply IH; [assumption|]. now constructor.
Qed.

Lemma enqueue_good (slug : string) (stack : list JsValue) (value : JsValue) :
  allContradict slug value -> Forall (allContradict slug) stack ->
  Forall (allContradict slug) (enqueue stack value).
Proof.
  intros Hv Hs. unfold enqueue.
  destruct (negb (truthy value) || negb (isObject value)); [exact Hs|].
  destruct value; try (now constructor).
  apply push_all_good; [now apply allContradict_item | exact Hs].
Qed.

Lemma enqueue_all_good (slug : string) (vs stack : list JsValue) :
  Forall (allContradict slug) vs -> Forall (allContradict slug) stack ->
  Forall (allContradict slug) (fold_left enqueue vs stack).
Proof.
  revert stack. induction vs as [|v rest IH]; intros stack Hv Hs; cbn.
  - exact Hs.
  - inversion Hv; subst. apply IH; [assumption|]. now apply enqueue_good.
Qed.

Lemma expand_good (slug : string) (node : JsValue) (rest : list JsValue) :
  allContradict slug node -> Forall (allContradict slug) rest ->
  Forall (allContradict slug) (expand node rest).
Proof.
  intros Hn Hr. destruct node; cbn [expand]; try exact Hr.
  - now apply enqueue_good.
  - apply enqueue_all_good; [now apply allContradict_value | exact Hr].
Qed.

(** The traversal ends with [null] when every record it can meet
    contradicts the slug it is given. *)
Lemma traverse_contradicts (slug : string) (stack : list JsValue) :
  slug <> EmptyString -> Forall (allContradict slug) stack ->
  traverse parseFromString page slug stack = Return None.
Proof.
  intros Hslug.
  induction stack as [stack IH] using (well_founded_induction
    (Wf_nat.well_founded_ltof _ sizes)).
  unfold Wf_nat.ltof in IH.
  intros Hgood. destruct stack as [|node rest]; simp traverse; [reflexivity|].
  inversion Hgood as [|? ? Hnode Hrest]; subst.
  destruct (negb (truthy node) || negb (isObject node)) eqn:Hskip; cbn.
  - apply IH; [|exact Hrest]. rewrite sizes_cons. pose proof (size_pos node). lia.
  - rewrite (visit_contradicts slug node Hslug Hnode). cbn.
    apply IH; [apply sizes_expand | now apply expand_good].
Qed.

(** The structured-data extractor returns [null] when the page has a slug
    and every candidate record of the blob contradicts it. *)
Lemma extractFromNextData_contradicts :
  currentSlug page <> EmptyString ->
  allContradict (currentSlug page) (nextData page) ->
  extractFromNextData parseFromString page = Return None.
Proof.
  intros Hslug Hall. unfold extractFromNextData. cbv zeta.
  destruct (negb (truthy (nextData page)) || negb (isObject (nextData page)));
    [reflexivity|].
  apply traverse_contradicts; [exact Hslug|].
  destruct (nextData page); try (constructor; [exact Hall | constructor]).
  apply push_all_good; [now apply allContradict_item | constructor].
Qed.

End StructuredData.

(** ** The DOM extractor and the slug of the page *)

Example stalePage_slug : currentSlug stalePage = "three-sum".
Proof. reflexivity. Qed.

Example stalePage_record_contradicts :
  contradicts
    (JObj [("title", JStr "Two Sum"); ("titleSlug", JStr "two-sum");
           ("content", JStr "<p>Add two numbers.</p>")])
    (currentSlug stalePage).
Proof. exists "two-sum". split; [reflexivity|]. split; discriminate. Qed.

(** C5, on the page caught between two problems.  The structured-data
    extractor drops the record of the other problem, as the invariant asks.
    The DOM extractor, tried next, never compares the slug it derives from
    the visible title with the slug of the page: it returns the other
    problem, and [scrapeProblemInPage] hands it on. *)
Theorem extractFromDom_keeps_contradicting_slug
  (parseFromString : string -> Node) (now : Z) (graphQuestion : option JsValue) :
  currentSlug stalePage = "three-sum"
  /\ extractFromNextData parseFromString stalePage = Return None
  /\ exists found,
       extractFromDom stalePage = Return (Some found)
       /\ title found = JStr "Two Sum"
       /\ slug found = "two-sum"
       /\ slug found <> currentSlug stalePage
       /\ scrapeProblemInPage parseFromString stalePage now graphQuestion
          = Return (Some {| parsed := found; timestamp := now |}).
Proof.
  split; [reflexivity|].
  assert (Hdata : extractFromNextData parseFromString stalePage = Return None)
    by reflexivity.
  split; [exact Hdata|].
  eexists. split; [reflexivity|]. split; [reflexivity|]. split; [reflexivity|].
  split; [discriminate|].
  unfold scrapeProblemInPage, scrapeProblem. rewrite Hdata. reflexivity.
Qed.

(** ** The scrape orchestrator *)

Import Orchestrator.

Section OrchestratorFacts.

Open Scope Z_scope.

Variable world : World.
Variable start : Z.
Variable timeoutMs : Z.

Lemma clockAt_step (k : nat) :
  clockAt world start (S k) = clockAt world start k + Z.of_N (snd (executeScrape world k))
                + POLL_INTERVAL_MS + Z.of_N (timerLate world k).
Proof. reflexivity. Qed.

Lemma clockAt_grows (k : nat) : clockAt world start k + POLL_INTERVAL_MS <= clockAt world start (S k).
Proof. rewrite clockAt_step. lia. Qed.

Lemma clockAt_lower (k : nat) : start + POLL_INTERVAL_MS * Z.of_nat k <= clockAt world start k.
Proof.
  induction k as [|k IH]; [cbn; lia|].
  pose proof (clockAt_grows k). unfold POLL_INTERVAL_MS in *. lia.
Qed.

(** The loop always comes to an end within the turns it is given. *)
Lemma scrapeLoop_settles (fuel k : nat) (now : Z) :
  timeoutMs - (now - start) <= POLL_INTERVAL_MS * (Z.of_nat fuel - 1) ->
  (1 <= fuel)%nat ->
  scrapeLoop world start timeoutMs fuel k now <> None.
Proof.
  revert k now. induction fuel as [|fuel IH]; intros k now Hrem Hfuel; [lia|].
  cbn [scrapeLoop]. destruct (now - start <? timeoutMs) eqn:Hlt; [|discriminate].
  apply Z.ltb_lt in Hlt.
  destruct (executeScrape world k) as [[[problem|]|e] took]; try discriminate.
  unfold POLL_INTERVAL_MS in *. apply IH; lia.
Qed.

Lemma turns_enough :
  timeoutMs <= POLL_INTERVAL_MS * (Z.of_nat (turns timeoutMs) - 1).
Proof.
  unfold turns, POLL_INTERVAL_MS.
  destruct (Z.le_gt_cases 0 timeoutMs) as [Hpos | Hneg].
  - pose proof (Z.div_pos timeoutMs 300 Hpos ltac:(lia)).
    pose proof (Z.mod_pos_bound timeoutMs 300 ltac:(lia)).
    pose proof (Z.div_mod timeoutMs 300 ltac:(lia)).
    rewrite Nat2Z.inj_add, Z2Nat.id by lia. lia.
  - lia.
Qed.

Lemma scrapeProblemFromTab_settles :
  scrapeProblemFromTab world start timeoutMs <> None.
Proof.
  unfold scrapeProblemFromTab. apply scrapeLoop_settles.
  - pose proof turns_enough. lia.
  - unfold turns. lia.
Qed.

(** The loop, entered for the [k]-th time with [j] more calls finding
    nothing before one finds [problem], returns from that call. *)
Lemma scrapeLoop_found (problem : Problem) (j : nat) :
  forall k fuel,
    (j < fuel)%nat ->
    (forall i, (k <= i < k + j)%nat -> fst (executeScrape world i) = Return None) ->
    fst (executeScrape world (k + j)) = Return (Some problem) ->
    (forall i, (k <= i <= k + j)%nat -> clockAt world start i - start < timeoutMs) ->
    scrapeLoop world start timeoutMs fuel k (clockAt world start k)
    = Some {| result := Return problem;
              settledAt := clockAt world start (k + j)%nat
                           + Z.of_N (snd (executeScrape world (k + j)));
              attempts := S (k + j) |}.
Proof.
  induction j as [|j IH]; intros k fuel Hfuel Hnull Hfound Hclock;
    (destruct fuel as [|fuel]; [lia|]); cbn [scrapeLoop].
  - rewrite Nat.add_0_r in *.
    assert (Hlt : (clockAt world start k - start <? timeoutMs) = true)
      by (apply Z.ltb_lt, Hclock; lia).
    rewrite Hlt. destruct (executeScrape world k) as [outcome took].
    cbn in Hfound. subst outcome. reflexivity.
  - assert (Hlt : (clockAt world start k - start <? timeoutMs) = true)
      by (apply Z.ltb_lt, Hclock; lia).
    rewrite Hlt. pose proof (Hnull k ltac:(lia)) as Hk.
    pose proof (clockAt_step k) as Hstep.
    destruct (executeScrape world k) as [outcome took].
    cbn in Hk, Hstep. subst outcome. rewrite <- Hstep.
    replace (k + S j)%nat with (S k + j)%nat in * by lia.
    apply IH; [lia | | exact Hfound |]; intros i Hi;
      [apply Hnull | apply Hclock]; lia.
Qed.

(** With no call ever finding a problem, the loop gives up the first time
    it is entered with the timeout reached. *)
Lemma scrapeLoop_never (fuel : nat) :
  forall k,
    neverFound world ->
    timeoutMs - (clockAt world start k - start) <= POLL_INTERVAL_MS * (Z.of_nat fuel - 1) ->
    (1 <= fuel)%nat ->
    exists m,
      (k <= m)%nat
      /\ scrapeLoop world start timeoutMs fuel k (clockAt world start k)
         = Some {| result := Throw (ErrorMsg COULD_NOT_DETECT);
                   settledAt := clockAt world start m;
                   attempts := m |}
      /\ timeoutMs <= clockAt world start m - start
      /\ forall i, (k <= i < m)%nat -> clockAt world start i - start < timeoutMs.
Proof.
  induction fuel as [|fuel IH]; intros k Hnever Hrem Hfuel; [lia|].
  cbn [scrapeLoop]. destruct (clockAt world start k - start <? timeoutMs) eqn:Hlt.
  - apply Z.ltb_lt in Hlt. pose proof (Hnever k) as Hk.
    pose proof (clockAt_step k) as Hstep. pose proof (clockAt_grows k) as Hgrow.
    destruct (executeScrape world k) as [outcome took].
    cbn in Hk, Hstep. subst outcome. rewrite <- Hstep.
    destruct (IH (S k) Hnever) as (m & Hm & Hrun & Hlate & Hearly).
    + unfold POLL_INTERVAL_MS in *. lia.
    + unfold POLL_INTERVAL_MS in *. lia.
    + exists m. split; [lia|]. split; [exact Hrun|]. split; [exact Hlate|].
      intros i Hi. destruct (Nat.eq_dec i k) as [-> | Hne]; [exact Hlt|].
      apply Hearly. lia.
  - apply Z.ltb_ge in Hlt. exists k. split; [lia|]. split; [reflexivity|].
    split; [lia|]. intros i Hi. lia.
Qed.

End OrchestratorFacts.

Lemma clockAt_paced (world : World) (start : Z) (k : nat) :
  pacedByTimer world ->
  clockAt world start k = (start + POLL_INTERVAL_MS * Z.of_nat k)%Z.
Proof.
  intros Hpaced. induction k as [|k IH]; [cbn; lia|].
  rewrite clockAt_step, IH. destruct (Hpaced k) as (-> & ->).
  unfold POLL_INTERVAL_MS. lia.
Qed.

(** Whatever the calls take, a search that never finds a problem is
    rejected with the message of the orchestrator, not before the timeout
    has elapsed, and after at most one call per poll interval of the
    timeout, rounded up. *)
Lemma scrapeProblemFromTab_never (world : World) (start timeoutMs : Z) :
  neverFound world ->
  exists s,
    scrapeProblemFromTab world start timeoutMs = Some s
    /\ result s = Throw (ErrorMsg COULD_NOT_DETECT)
    /\ (timeoutMs <= settledAt s - start)%Z
    /\ settledAt s = clockAt world start (attempts s)
    /\ (forall i, (i < attempts s)%nat -> (clockAt world start i - start < timeoutMs)%Z).
Proof.
  intros Hnever. unfold scrapeProblemFromTab.
  destruct (scrapeLoop_never world start timeoutMs (turns timeoutMs) 0 Hnever)
    as (m & _ & Hrun & Hlate & Hearly).
  - pose proof (turns_enough timeoutMs). cbn [clockAt]. lia.
  - unfold turns. lia.
  - eexists. split; [exact Hrun|]. cbn. split; [reflexivity|].
    split; [exact Hlate|]. split; [reflexivity|].
    intros i Hi. apply Hearly. lia.
Qed.

(** C4.  With the default timeout of 12 000 ms and the poll interval of
    300 ms, on a clock that only the timer moves: when the [n]-th call of
    the extractor is the first to give a problem and [n] poll intervals
    are less than the timeout, the orchestrator resolves with that problem,
    [n - 1] poll intervals after it started, which is before the timeout;
    when no call ever gives a problem, it is rejected with "Could not
    detect a LeetCode problem on this page." after 40 calls, exactly when
    the timeout has elapsed.  On any clock the rejection comes after a
    bounded number of calls and never before the timeout has elapsed. *)
Theorem scrapeProblemFromTab_timing (world : World) (start : Z) :
  (neverFound world ->
   exists s,
     scrapeProblemFromTab world start DEFAULT_TIMEOUT_MS = Some s
     /\ result s = Throw (ErrorMsg COULD_NOT_DETECT)
     /\ (DEFAULT_TIMEOUT_MS <= settledAt s - start)%Z
     /\ (attempts s <= 40)%nat)
  /\ (pacedByTimer world ->
      (forall n problem,
         firstFoundAt world n problem ->
         (Z.of_nat n * POLL_INTERVAL_MS < DEFAULT_TIMEOUT_MS)%Z ->
         exists s,
           scrapeProblemFromTab world start DEFAULT_TIMEOUT_MS = Some s
           /\ result s = Return problem
           /\ attempts s = n
           /\ (settledAt s - start = POLL_INTERVAL_MS * (Z.of_nat n - 1))%Z
           /\ (settledAt s - start < DEFAULT_TIMEOUT_MS)%Z)
      /\ (neverFound world ->
          exists s,
            scrapeProblemFromTab world start DEFAULT_TIMEOUT_MS = Some s
            /\ result s = Throw (ErrorMsg COULD_NOT_DETECT)
            /\ (settledAt s - start = DEFAULT_TIMEOUT_MS)%Z
            /\ attempts s = 40%nat)).
Proof.
  split; [|intros Hpaced; split].
  - intros Hnever.
    destruct (scrapeProblemFromTab_never world start DEFAULT_TIMEOUT_MS Hnever)
      as (s & Hrun & Hres & Hlate & Hat & Hearly).
    exists s. split; [exact Hrun|]. split; [exact Hres|]. split; [exact Hlate|].
    destruct (Nat.le_gt_cases (attempts s) 40) as [Hle | Hgt]; [exact Hle|].
    specialize (Hearly 40%nat Hgt).
    pose proof (clockAt_lower world start 40).
    unfold DEFAULT_TIMEOUT_MS, POLL_INTERVAL_MS in *. lia.
  - intros n problem (Hnull & m & -> & Hfound) Hn.
    pose proof (scrapeLoop_found world start DEFAULT_TIMEOUT_MS problem m 0
                  (turns DEFAULT_TIMEOUT_MS)) as Hrun.
    cbn [Nat.add clockAt] in Hrun. unfold scrapeProblemFromTab.
    rewrite Hrun; clear Hrun.
    + eexists. split; [reflexivity|]. cbn [result attempts settledAt].
      rewrite clockAt_paced by exact Hpaced. destruct (Hpaced m) as (-> & _).
      unfold DEFAULT_TIMEOUT_MS, POLL_INTERVAL_MS in *.
      split; [reflexivity|]. split; [reflexivity|]. split; lia.
    + unfold turns, DEFAULT_TIMEOUT_MS, POLL_INTERVAL_MS in *.
      change (12000 / 300)%Z with 40%Z. lia.
    + intros i Hi. apply Hnull. lia.
    + exact Hfound.
    + intros i Hi. rewrite clockAt_paced by exact Hpaced.
      unfold DEFAULT_TIMEOUT_MS, POLL_INTERVAL_MS in *. lia.
  - intros Hnever.
    destruct (scrapeProblemFromTab_never world start DEFAULT_TIMEOUT_MS Hnever)
      as (s & Hrun & Hres & Hlate & Hat & Hearly).
    exists s. split; [exact Hrun|]. split; [exact Hres|].
    rewrite Hat in *. rewrite clockAt_paced in * by exact Hpaced.
    assert (Hs : attempts s = 40%nat).
    { destruct (Nat.lt_trichotomy (attempts s) 40) as [Hlt | [Heq | Hgt]].
      - unfold DEFAULT_TIMEOUT_MS, POLL_INTERVAL_MS in *. lia.
      - exact Heq.
      - specialize (Hearly 40%nat Hgt). rewrite clockAt_paced in Hearly by exact Hpaced.
        unfold DEFAULT_TIMEOUT_MS, POLL_INTERVAL_MS in *. lia. }
    rewrite Hs. unfold DEFAULT_TIMEOUT_MS, POLL_INTERVAL_MS. split; [lia | reflexivity].
Qed.

Example foundOnThird_run :
  scrapeProblemFromTab foundOnThird 1000 DEFAULT_TIMEOUT_MS
  = Some {| result := Return twoSum; settledAt := 1600; attempts := 3 |}.
Proof. reflexivity. Qed.

Example nothingThere_run :
  scrapeProblemFromTab nothingThere 1000 DEFAULT_TIMEOUT_MS
  = Some {| result := Throw (ErrorMsg COULD_NOT_DETECT);
            settledAt := 13000; attempts := 40 |}.
Proof. reflexivity. Qed.

Lemma scrapeProblemFromTab_timing_witness :
  (exists s,
     scrapeProblemFromTab foundOnThird 1000 DEFAULT_TIMEOUT_MS = Some s
     /\ result s = Return twoSum
     /\ attempts s = 3
     /\ (settledAt s - 1000 = POLL_INTERVAL_MS * (Z.of_nat 3 - 1))%Z
     /\ (settledAt s - 1000 < DEFAULT_TIMEOUT_MS)%Z)
  /\ (exists s,
        scrapeProblemFromTab nothingThere 1000 DEFAULT_TIMEOUT_MS = Some s
        /\ result s = Throw (ErrorMsg COULD_NOT_DETECT)
        /\ (settledAt s - 1000 = DEFAULT_TIMEOUT_MS)%Z
        /\ attempts s = 40).
Proof.
  split.
  - apply (proj1 (proj2 (scrapeProblemFromTab_timing foundOnThird 1000)
                    (fun k => conj eq_refl eq_refl)) 3 twoSum).
    + split.
      * intros k Hk. destruct k as [|[|k]]; [reflexivity | reflexivity | lia].
      * exists 2. split; reflexivity.
    + reflexivity.
  - apply (proj2 (proj2 (scrapeProblemFromTab_timing nothingThere 1000)
                    (fun k => conj eq_refl eq_refl))).
    intros k. reflexivity.
Defined.

Example slowFirstCall_run :
  scrapeProblemFromTab slowFirstCall 1000 DEFAULT_TIMEOUT_MS
  = Some {| result := Return twoSum; settledAt := 14000; attempts := 1 |}.
Proof. reflexivity. Qed.

(** C4, as it is stated, fails: the timeout is only looked at between two
    calls, so a first call that takes 13 seconds and finds the problem
    makes the orchestrator resolve 13 seconds after it started. *)
Lemma slow_call_overruns_timeout :
  ~ (forall (world : World) (start : Z) (n : nat) (problem : Problem),
       firstFoundAt world n problem ->
       (Z.of_nat n * POLL_INTERVAL_MS < DEFAULT_TIMEOUT_MS)%Z ->
       exists s,
         scrapeProblemFromTab world start DEFAULT_TIMEOUT_MS = Some s
         /\ result s = Return problem
         /\ (settledAt s - start <= DEFAULT_TIMEOUT_MS)%Z).
Proof.
  intros H.
  destruct (H slowFirstCall 1000%Z 1 twoSum) as (s & Hrun & _ & Hlate).
  - split; [intros k Hk; lia | exists 0; split; reflexivity].
  - reflexivity.
  - rewrite slowFirstCall_run in Hrun. injection Hrun as <-.
    cbn in Hlate. unfold DEFAULT_TIMEOUT_MS in Hlate. lia.
Qed.

(** ** The background message handler *)

Import Background.

Lemma then_catch_replies_once {A : Type} (c : Completion A)
      (onValue : A -> Reply) (onError : Exn -> Reply) :
  snd (orCatch (andThen (settled c) (fun a => sendResponse (onValue a)))
               (fun e => sendResponse (onError e)) [])
  = [match c with Return a => onValue a | Throw e => onError e end].
Proof. destruct c; reflexivity. Qed.

Lemma scrapeTab_settles (browser : Browser) (tabId : Z) :
  scrapeTab browser tabId <> None.
Proof.
  unfold scrapeTab.
  pose proof (scrapeProblemFromTab_settles (tabWorld browser tabId) (clock browser)
                Orchestrator.DEFAULT_TIMEOUT_MS) as H.
  destruct (scrapeProblemFromTab _ _ _); [discriminate | contradiction].
Qed.

(** C9.  For a message of type OPEN_SIDE_PANEL or GET_ACTIVE_PROBLEM the
    listener returns [true] at once, and the code it leaves to run calls
    [sendResponse] exactly once, whatever the browser answers: panel
    opened or not, tabs query failed, no active tab, problem scraped or
    not. *)
Theorem onMessage_replies_once (browser : Browser) (rawMessage : JsValue) (type : string) :
  hasType rawMessage type ->
  type = "OPEN_SIDE_PANEL" \/ type = "GET_ACTIVE_PROBLEM" ->
  returned (onMessage browser rawMessage) = Some true
  /\ exists reply, repliesOf (onMessage browser rawMessage) = Some [reply].
Proof.
  intros (Hobj & Htype) Hkind. unfold onMessage.
  assert (Htruthy : truthy rawMessage = true)
    by (destruct rawMessage; try discriminate Hobj; reflexivity).
  rewrite Htruthy, Hobj, Htype. cbn [negb orb].
  destruct Hkind as [-> | ->]; cbn [String.eqb Ascii.eqb Bool.eqb andb].
  - split; [reflexivity|]. unfold repliesOf. cbn [later option_map].
    eexists. f_equal.
    exact (then_catch_replies_once (openSidePanelForCurrentTab browser)
             (fun r => r) (fun e => failure (messageOr "Unexpected error" e))).
  - split; [reflexivity|]. unfold repliesOf. cbn [later].
    destruct (lastError browser) as [message|]; [eexists; reflexivity|].
    destruct (usableId (callbackTabs browser)) as [tabId|]; [|eexists; reflexivity].
    pose proof (scrapeTab_settles browser tabId) as Hsettles.
    destruct (scrapeTab browser tabId) as [scraped|]; [|contradiction].
    cbn [option_map]. eexists. f_equal.
    exact (then_catch_replies_once scraped
             (fun found => {| success := true; error := None; problem := Some found |})
             (fun e => failure (messageOr "Unexpected error while scraping." e))).
Qed.

Example readyBrowser_get_active_problem :
  repliesOf (onMessage readyBrowser (JObj [("type", JStr "GET_ACTIVE_PROBLEM")]))
  = Some [ {| success := true; error := None; problem := Some twoSum |} ].
Proof. reflexivity. Qed.

Example readyBrowser_open_side_panel :
  repliesOf (onMessage readyBrowser (JObj [("type", JStr "OPEN_SIDE_PANEL")]))
  = Some [ {| success := true; error := None; problem := None |} ].
Proof. reflexivity. Qed.

Lemma onMessage_replies_once_witness :
  returned (onMessage readyBrowser (JObj [("type", JStr "GET_ACTIVE_PROBLEM")]))
  = Some true
  /\ exists reply,
       repliesOf (onMessage readyBrowser (JObj [("type", JStr "GET_ACTIVE_PROBLEM")]))
       = Some [reply].
Proof.
  apply (onMessage_replies_once readyBrowser
           (JObj [("type", JStr "GET_ACTIVE_PROBLEM")]) "GET_ACTIVE_PROBLEM").
  - split; reflexivity.
  - right. reflexivity.
Defined.

(** ** The streaming chat client *)

Import Stream.
Open Scope list_scope.

Lemma decode_app (d : Decoder) (a b : Chunk) :
  decode d (a ++ b)
  = let '(d1, out1) := decode d a in
    let '(d2, out2) := decode d1 b in
    (d2, out1 ++ out2).
Proof.
  revert d. induction a as [|x a IH]; intros d; cbn [decode app].
  - destruct (decode d b). reflexivity.
  - destruct (decodeByte d x) as [d1 o1]. rewrite IH.
    destruct (decode d1 a) as [d2 o2]. destruct (decode d2 b) as [d3 o3].
    now rewrite app_assoc.
Qed.

Lemma split_not_nil (t : text) : split t <> [].
Proof.
  destruct t as [|c rest]; cbn; [discriminate|].
  destruct (N.eqb c NEWLINE); [discriminate|].
  destruct (split rest); discriminate.
Qed.

Lemma split_no_newline (t : text) : ~ In NEWLINE t -> split t = [t].
Proof.
  induction t as [|c rest IH]; intros Hno; [reflexivity|]. cbn.
  destruct (N.eqb c NEWLINE) eqn:E.
  - apply N.eqb_eq in E. exfalso. apply Hno. now left.
  - rewrite IH; [reflexivity|]. intros H. apply Hno. now right.
Qed.

(** What [lines.pop()] leaves in the buffer holds no line feed. *)
Lemma last_split_no_newline (t : text) : ~ In NEWLINE (last (split t) []).
Proof.
  induction t as [|c rest IH]; [intros []|]. cbn [split].
  destruct (N.eqb c NEWLINE) eqn:E.
  - pose proof (split_not_nil rest). cbn [last].
    destruct (split rest); [contradiction | exact IH].
  - pose proof (split_not_nil rest) as Hne.
    destruct (split rest) as [|piece pieces]; [contradiction|].
    destruct pieces as [|next more].
    + cbn in *. intros [H | H]; [|now apply IH].
      apply N.eqb_neq in E. now apply E.
    + exact IH.
Qed.

(** Cutting a text that arrives in two parts: the complete lines of the
    first part, then the cut of what it left followed by the second. *)
Lemma split_app (a b : text) :
  split (a ++ b) = removelast (split a) ++ split (last (split a) [] ++ b).
Proof.
  induction a as [|c a IH]; [reflexivity|]. cbn [app split].
  pose proof (split_not_nil a) as Hne.
  destruct (N.eqb c NEWLINE) eqn:E.
  - rewrite IH. destruct (split a) as [|piece pieces]; [contradiction|]. reflexivity.
  - rewrite IH. destruct (split a) as [|piece pieces]; [contradiction|].
    destruct pieces as [|next more].
    + cbn [removelast last app split]. now rewrite E.
    + reflexivity.
Qed.

Lemma decodeEnd_no_newline (d : Decoder) : ~ In NEWLINE (decodeEnd d).
Proof.
  unfold decodeEnd, utf8End.
  destruct (N.eqb (bytesNeeded (utf8 d)) 0); [intros []|].
  destruct (bomSeen d); cbn; intros [H | []]; discriminate H.
Qed.

Section StreamFacts.

Variable SourceDocument : Type.
Variable JSON_parse : text -> option (ChatStreamEvent SourceDocument).

Lemma processLines_app (p : Progress SourceDocument) (l1 l2 : list text) :
  processLines JSON_parse p (l1 ++ l2)
  = match processLines JSON_parse p l1 with
    | Going p' => processLines JSON_parse p' l2
    | raised => raised
    end.
Proof.
  revert p. induction l1 as [|line rest IH]; intros p; cbn [app processLines].
  - reflexivity.
  - destruct (processLine JSON_parse p line); [apply IH | reflexivity].
Qed.

Lemma processLines_one (p : Progress SourceDocument) (line : text) :
  processLines JSON_parse p [line] = processLine JSON_parse p line.
Proof. cbn. destruct (processLine JSON_parse p line); reflexivity. Qed.

(** The read loop does to the chunks what cutting the whole text into
    lines and going through them in order does. *)
Lemma readAll_lines (body : list Chunk) :
  forall r : Reading SourceDocument,
    ~ In NEWLINE (buffer r) ->
    readAll JSON_parse r body
    = let '(d, decoded) := decode (decoder r) (List.concat body) in
      processLines JSON_parse (progress r)
                   (split (buffer r ++ decoded ++ decodeEnd d)).
Proof.
  induction body as [|value rest IH]; intros r Hbuf; cbn [readAll List.concat].
  - cbn [decode app]. rewrite split_no_newline, processLines_one; [reflexivity|].
    intros H. apply in_app_or in H. destruct H as [H | H];
      [now apply Hbuf | exact (decodeEnd_no_newline _ H)].
  - rewrite decode_app. unfold readChunk.
    destruct (decode (decoder r) value) as [d1 out1].
    destruct (decode d1 (List.concat rest)) as [d2 out2] eqn:Hrest.
    replace (buffer r ++ (out1 ++ out2) ++ decodeEnd d2)
      with ((buffer r ++ out1) ++ (out2 ++ decodeEnd d2))
      by (now rewrite <- !app_assoc).
    rewrite (split_app (buffer r ++ out1) (out2 ++ decodeEnd d2)), processLines_app.
    destruct (processLines JSON_parse (progress r)
                (removelast (split (buffer r ++ out1)))) as [p|failure seen];
      [|reflexivity].
    rewrite IH; cbn [decoder buffer progress].
    + now rewrite Hrest.
    + apply last_split_no_newline.
Qed.

(** [streamChatRequest] handles the lines of the body, one after the
    other, the way [processLine] handles a line. *)
Lemma streamChatRequest_lines (body : list Chunk) :
  streamChatRequest JSON_parse body
  = settle (processLines JSON_parse {| finalPayload := None; handled := [] |}
                         (linesOf body)).
Proof.
  unfold streamChatRequest, linesOf, decodeWhole.
  rewrite readAll_lines by (intros []). cbn [initially decoder buffer progress app].
  destruct (decode newDecoder (List.concat body)). reflexivity.
Qed.

End StreamFacts.

(** C1.  Two bodies that deliver the same bytes, cut into chunks in two
    ways, make [streamChatRequest] call [handleEvent] with the same events
    in the same order and settle its promise the same way. *)
Theorem streamChatRequest_chunking
  (SourceDocument : Type) (JSON_parse : text -> option (ChatStreamEvent SourceDocument))
  (body1 body2 : list Chunk) :
  List.concat body1 = List.concat body2 ->
  streamChatRequest JSON_parse body1 = streamChatRequest JSON_parse body2.
Proof.
  intros Hsame. rewrite !streamChatRequest_lines. unfold linesOf.
  now rewrite Hsame.
Qed.

Example sampleCut_same_bytes : List.concat sampleCut = List.concat sampleWhole.
Proof. reflexivity. Qed.

(** The body of section 8: the answer is the one of the [end] payload,
    not "Hi there", the tokens put end to end. *)
Example sampleWhole_run :
  streamChatRequest parseSample sampleWhole
  = {| events := [TokenEvent (textOf "Hi"); TokenEvent (textOf " there");
                  EndEvent greeting];
       outcome := Resolved (normalizeChatResponse greeting) |}.
Proof. vm_compute. reflexivity. Qed.

(** A two-byte sequence cut between two chunks comes out whole. *)
Example decode_across_chunks :
  let '(d1, out1) := decode newDecoder [Byte.xc3] in
  let '(d2, out2) := decode d1 [Byte.xa9; Byte.x0a] in
  out1 = [] /\ out2 = [233%N; 10%N] /\ decodeEnd d2 = [].
Proof. vm_compute. repeat split. Qed.

Lemma streamChatRequest_chunking_witness :
  streamChatRequest parseSample sampleCut = streamChatRequest parseSample sampleWhole.
Proof.
  apply (streamChatRequest_chunking unit parseSample sampleCut sampleWhole).
  reflexivity.
Defined.

Section FinalPayload.

Variable SourceDocument : Type.
Variable JSON_parse : text -> option (ChatStreamEvent SourceDocument).

Lemma lastTerminal_app (es : list (ChatStreamEvent SourceDocument))
      (e : ChatStreamEvent SourceDocument) :
  lastTerminal (es ++ [e])
  = match e with
    | EndEvent payload | CachedEvent payload => Some payload
    | _ => lastTerminal es
    end.
Proof.
  induction es as [|x es IH]; cbn [app lastTerminal].
  - destruct e; reflexivity.
  - rewrite IH. destruct e; try reflexivity;
      destruct (lastTerminal es); destruct x; reflexivity.
Qed.

Lemma lastTerminal_withoutTokens (es : list (ChatStreamEvent SourceDocument)) :
  lastTerminal (withoutTokens es) = lastTerminal es.
Proof.
  induction es as [|e es IH]; [reflexivity|].
  unfold withoutTokens in *. cbn [filter lastTerminal].
  destruct e; cbn [isToken negb lastTerminal]; rewrite IH;
    try reflexivity.
  destruct (lastTerminal es); reflexivity.
Qed.

Lemma processLine_tracks (p p' : Progress SourceDocument) (line : text) :
  tracksLast p -> processLine JSON_parse p line = Going p' -> tracksLast p'.
Proof.
  unfold tracksLast, processLine. intros Hp.
  destruct (isBlank line); [intros E; injection E as <-; exact Hp|].
  destruct (JSON_parse line) as [e|]; [|discriminate].
  destruct e; intros E; try discriminate E; injection E as <-;
    cbn [finalPayload handled]; rewrite lastTerminal_app; try exact Hp; reflexivity.
Qed.

Lemma processLines_tracks (lines : list text) :
  forall p p', tracksLast p ->
               processLines JSON_parse p lines = Going p' -> tracksLast p'.
Proof.
  induction lines as [|line rest IH]; intros p p' Hp; cbn [processLines].
  - intros E. injection E as <-. exact Hp.
  - destruct (processLine JSON_parse p line) as [p1|] eqn:E1; [|discriminate].
    apply IH. exact (processLine_tracks p p1 line Hp E1).
Qed.

(** Lines that all are JSON and carry no [error] event are handled to the
    end, each event in turn. *)
Lemma processLines_parsed (lines : list text) :
  forall p es,
    parseLines JSON_parse lines = Some es ->
    (forall e, In e es -> isErrorEvent e = false) ->
    processLines JSON_parse p lines
    = Going {| finalPayload :=
                 match lastTerminal es with
                 | Some payload => Some (normalizeChatResponse payload)
                 | None => finalPayload p
                 end;
               handled := handled p ++ es |}.
Proof.
  induction lines as [|line rest IH]; intros p es; cbn [parseLines processLines].
  - intros E _. injection E as <-. rewrite app_nil_r. now destruct p.
  - unfold processLine. destruct (isBlank line); [apply IH|].
    destruct (JSON_parse line) as [e|]; [|discriminate].
    destruct (parseLines JSON_parse rest) as [es'|]; [|discriminate].
    intros E Hok. injection E as <-.
    assert (He : isErrorEvent e = false) by (apply Hok; now left).
    assert (Hrest : forall x, In x es' -> isErrorEvent x = false)
      by (intros x Hx; apply Hok; now right).
    destruct e; try discriminate He;
      rewrite (IH _ es' eq_refl Hrest); cbn [finalPayload handled lastTerminal];
      rewrite <- app_assoc; cbn [app];
      destruct (lastTerminal es'); reflexivity.
Qed.

(** When the promise resolves, it resolves with the normalised payload of
    the last terminal event handled. *)
Lemma streamChatRequest_resolved (body : list Chunk) (response : ChatResponse SourceDocument) :
  outcome (streamChatRequest JSON_parse body) = Resolved response ->
  exists payload,
    lastTerminal (events (streamChatRequest JSON_parse body)) = Some payload
    /\ response = normalizeChatResponse payload.
Proof.
  rewrite streamChatRequest_lines.
  destruct (processLines JSON_parse {| finalPayload := None; handled := [] |}
              (linesOf body)) as [p|failure seen] eqn:E; cbn [settle].
  - assert (Hp : tracksLast p)
      by (apply (processLines_tracks _ _ p) in E; [exact E | reflexivity]).
    unfold tracksLast in Hp.
    destruct (finalPayload p) as [r|]; cbn [outcome events]; [|discriminate].
    intros R. injection R as <-.
    destruct (lastTerminal (handled p)) as [payload|]; [|discriminate Hp].
    exists payload. split; [reflexivity|]. cbn in Hp. congruence.
  - discriminate.
Qed.

End FinalPayload.



(** C3, as the code has it.  A body whose lines, the blank ones apart,
    each are the JSON text of a [token], [sources] or [summary] event (or
    that has no such line at all) is handled to its end and rejected with
    "Chat stream completed without a final payload.".  And no body whose
    lines are stream events of the declared type, or are not JSON,
    resolves unless an [end] or [cached] event was handled. *)
Theorem streamChatRequest_no_final_payload
  (SourceDocument : Type) (JSON_parse : text -> option (ChatStreamEvent SourceDocument))
  (body : list Chunk) :
  (forall es,
     parseLines JSON_parse (linesOf body) = Some es ->
     (forall e, In e es -> isErrorEvent e = false) ->
     lastTerminal es = None ->
     streamChatRequest JSON_parse body
     = {| events := es; outcome := Rejected (ErrorWith NO_FINAL_PAYLOAD) |})
  /\ (lastTerminal (events (streamChatRequest JSON_parse body)) = None ->
      exists failure,
        outcome (streamChatRequest JSON_parse body) = Rejected failure).
Proof.
  split.
  - intros es Hlines Hok Hlast.
    rewrite streamChatRequest_lines, (processLines_parsed _ _ _ _ es Hlines Hok).
    cbn [settle finalPayload handled app]. now rewrite Hlast.
  - intros Hnone.
    destruct (outcome (streamChatRequest JSON_parse body)) as [response|failure] eqn:E.
    + destruct (streamChatRequest_resolved _ _ _ _ E) as (payload & Hlast & _).
      congruence.
    + now exists failure.
Qed.

Lemma streamChatRequest_no_final_payload_witness :
  streamChatRequest parseSample tokensOnly
  = {| events := [TokenEvent (textOf "Hi"); TokenEvent (textOf " there")];
       outcome := Rejected (ErrorWith NO_FINAL_PAYLOAD) |}
  /\ streamChatRequest parseSample []
     = {| events := []; outcome := Rejected (ErrorWith NO_FINAL_PAYLOAD) |}.
Proof.
  split.
  - apply (proj1 (streamChatRequest_no_final_payload unit parseSample tokensOnly)).
    + vm_compute. reflexivity.
    + intros e [<- | [<- | []]]; reflexivity.
    + reflexivity.
  - apply (proj1 (streamChatRequest_no_final_payload unit parseSample [])).
    + reflexivity.
    + intros e [].
    + reflexivity.
Defined.

Example errorLast_run :
  streamChatRequest parseSample errorLast
  = {| events := [TokenEvent (textOf "Hi"); ErrorEvent (Some (textOf "boom"))];
       outcome := Rejected (ErrorWith (textOf "boom")) |}.
Proof. vm_compute. reflexivity. Qed.

(** C3, as it is stated, fails: a body that is read to its end and
    carries no [end] or [cached] event, but an [error] event on its last
    line, is rejected with the message of that event. *)
Lemma error_event_rejects_otherwise :
  ~ (forall (JSON_parse : text -> option (ChatStreamEvent unit)) (body : list Chunk) es,
       parseLines JSON_parse (linesOf body) = Some es ->
       lastTerminal es = None ->
       outcome (streamChatRequest JSON_parse body)
       = Rejected (ErrorWith NO_FINAL_PAYLOAD)).
Proof.
  intros H.
  specialize (H parseSample errorLast
                [TokenEvent (textOf "Hi"); ErrorEvent (Some (textOf "boom"))]).
  rewrite errorLast_run in H. cbn [outcome] in H.
  assert (E : Rejected (SourceDocument := unit) (ErrorWith (textOf "boom"))
              = Rejected (ErrorWith NO_FINAL_PAYLOAD)).
  { apply H; vm_compute; reflexivity. }
  vm_compute in E. discriminate E.
Qed.

(** The same run with any parser that reads the two lines as
    [JSON.parse] does. *)
Lemma errorLast_any_parser
  (SourceDocument : Type) (JSON_parse : text -> option (ChatStreamEvent SourceDocument)) :
  JSON_parse (jsonText "{'type':'token','token':'Hi'}")
  = Some (TokenEvent (textOf "Hi")) ->
  JSON_parse (jsonText "{'type':'error','error':'boom'}")
  = Some (ErrorEvent (Some (textOf "boom"))) ->
  streamChatRequest JSON_parse errorLast
  = {| events := [TokenEvent (textOf "Hi"); ErrorEvent (Some (textOf "boom"))];
       outcome := Rejected (ErrorWith (textOf "boom")) |}.
Proof.
  intros Htoken Herror. rewrite streamChatRequest_lines.
  replace (linesOf errorLast)
    with [jsonText "{'type':'token','token':'Hi'}";
          jsonText "{'type':'error','error':'boom'}"]
    by (vm_compute; reflexivity).
  cbn [processLines]. unfold processLine at 1.
  replace (isBlank (jsonText "{'type':'token','token':'Hi'}")) with false
    by (vm_compute; reflexivity).
  rewrite Htoken. cbn [handled finalPayload app]. unfold processLine.
  replace (isBlank (jsonText "{'type':'error','error':'boom'}")) with false
    by (vm_compute; reflexivity).
  rewrite Herror. reflexivity.
Qed.

(* ===================================================================== *)
(** * Part III: further properties of the same code                       *)
(* ===================================================================== *)

Import Shapes Invariants.
Open Scope string_scope.

(** ** [trim] *)

Lemma trimStart_clean (s : string) : startsClean (trimStart s).
Proof.
  induction s as [|c rest IH]; cbn; [exact I|].
  destruct (Js.isWhiteSpace c) eqn:E; [exact IH | exact E].
Qed.

Lemma trimStart_of_clean (s : string) : startsClean s -> trimStart s = s.
Proof. destruct s as [|c rest]; cbn; [reflexivity|]. now intros ->. Qed.

Lemma trimEnd_clean (s : string) : startsClean s -> startsClean (trimEnd s).
Proof.
  destruct s as [|c rest]; cbn; [trivial|]. intros Hc.
  destruct (trimEnd rest); [rewrite Hc|]; exact Hc.
Qed.

Lemma trimEnd_idempotent (s : string) : trimEnd (trimEnd s) = trimEnd s.
Proof.
  induction s as [|c rest IH]; [reflexivity|]. cbn [trimEnd].
  destruct (trimEnd rest) as [|k kept] eqn:E.
  - destruct (Js.isWhiteSpace c) eqn:W; [reflexivity|]. cbn. now rewrite W.
  - cbn [trimEnd]. cbn [trimEnd] in IH. destruct (trimEnd kept) as [|k' kept'] eqn:E'.
    + destruct (Js.isWhiteSpace k) eqn:W; [discriminate IH|]. now rewrite IH.
    + now rewrite IH.
Qed.

Lemma trim_idempotent (s : string) : trim (trim s) = trim s.
Proof.
  unfold trim.
  rewrite (trimStart_of_clean (trimEnd (trimStart s))).
  - apply trimEnd_idempotent.
  - apply trimEnd_clean, trimStart_clean.
Qed.

(** ** [toSlug] *)

Lemma dash_not_slugChar : isSlugChar "-" = false.
Proof. reflexivity. Qed.

Lemma dashRuns_apart (s : string) :
  forall inRun, dashesApart inRun (dashRuns inRun s) = true.
Proof.
  induction s as [|c rest IH]; intros inRun; cbn [dashRuns]; [reflexivity|].
  destruct (isSlugChar c) eqn:E.
  - cbn [dashesApart]. rewrite E. apply IH.
  - destruct inRun; [apply IH|]. cbn [dashesApart].
    rewrite dash_not_slugChar. cbn. apply IH.
Qed.

Lemma dropLeadingDash_apart (s : string) :
  dashesApart false s = true -> dashesApart true (dropLeadingDash s) = true.
Proof.
  destruct s as [|c rest]; [reflexivity|]. cbn [dashesApart].
  destruct (isSlugChar c) eqn:E.
  - intros H. unfold dropLeadingDash.
    assert (Hc : c <> "-"%char) by (intros ->; discriminate E).
    destruct c as [[] [] [] [] [] [] [] []]; cbn [dashesApart]; rewrite ?E;
      try exact H; now destruct Hc.
  - intros H. apply andb_prop in H. destruct H as (H & Hrest).
    apply andb_prop in H. destruct H as (Hc & _).
    apply Ascii.eqb_eq in Hc. subst c. exact Hrest.
Qed.

Lemma dropTrailingDash_empty (s : string) :
  dropTrailingDash s = EmptyString -> s = EmptyString \/ s = "-".
Proof.
  destruct s as [|c rest]; [now left|]. destruct rest as [|c' rest'].
  - cbn. destruct (Ascii.eqb c "-") eqn:E; [|discriminate].
    apply Ascii.eqb_eq in E. subst. now right.
  - cbn. discriminate.
Qed.

Lemma dropTrailingDash_body (s : string) :
  forall prevDash,
    dashesApart prevDash s = true ->
    dropTrailingDash s = EmptyString \/ slugBody prevDash (dropTrailingDash s) = true.
Proof.
  induction s as [|c rest IH]; intros prevDash H; [now left|].
  destruct rest as [|c' rest'].
  - cbn [dropTrailingDash]. destruct (Ascii.eqb c "-") eqn:E; [now left|].
    right. cbn [dashesApart slugBody] in *. rewrite E in *.
    destruct (isSlugChar c); [reflexivity | discriminate H].
  - right. change (dropTrailingDash (String c (String c' rest')))
      with (String c (dropTrailingDash (String c' rest'))).
    cbn [dashesApart] in H. cbn [slugBody].
    destruct (isSlugChar c) eqn:E.
    + destruct (IH false H) as [Hempty | Hbody]; [|exact Hbody].
      rewrite Hempty. destruct (dropTrailingDash_empty _ Hempty) as [E0 | E0];
        [discriminate E0 | reflexivity].
    + apply andb_prop in H. destruct H as (H & Hrest).
      rewrite H. cbn [andb].
      destruct (IH true Hrest) as [Hempty | Hbody]; [|exact Hbody].
      destruct (dropTrailingDash_empty _ Hempty) as [E0 | E0]; [discriminate E0|].
      injection E0 as -> ->. cbn in Hrest. discriminate Hrest.
Qed.

Lemma isSlug_of_body (s : string) :
  s = EmptyString \/ slugBody true s = true -> isSlug s = true.
Proof. destruct s; [reflexivity|]. intros [H | H]; [discriminate H | exact H]. Qed.

Lemma toSlug_shape (value : string) : isSlug (toSlug value) = true.
Proof.
  unfold toSlug, stripEdgeDashes. apply isSlug_of_body.
  apply dropTrailingDash_body, dropLeadingDash_apart, dashRuns_apart.
Qed.

(** X1.  [toSlug] always gives a slug: nothing but [a-z], [0-9] and single
    dashes between them, no dash at either end (or the empty string). *)
Theorem toSlug_isSlug (value : string) : isSlug (toSlug value) = true.
Proof. apply toSlug_shape. Qed.

Lemma lowerChar_slugChar (c : ascii) :
  isSlugChar c = true \/ c = "-"%char -> lowerChar c = c.
Proof.
  intros [H | ->]; [|reflexivity].
  destruct c as [[] [] [] [] [] [] [] []]; try reflexivity; discriminate H.
Qed.

Lemma dashesApart_lower (s : string) :
  forall prevDash, dashesApart prevDash s = true -> toLowerCase s = s.
Proof.
  induction s as [|c rest IH]; intros prevDash H; [reflexivity|].
  cbn [dashesApart] in H. cbn [toLowerCase].
  destruct (isSlugChar c) eqn:E.
  - rewrite (IH _ H), lowerChar_slugChar; [reflexivity | now left].
  - apply andb_prop in H. destruct H as (H & Hrest).
    apply andb_prop in H. destruct H as (Hc & _). apply Ascii.eqb_eq in Hc.
    rewrite (IH _ Hrest), lowerChar_slugChar; [reflexivity | now right].
Qed.

Lemma dashesApart_dashRuns (s : string) :
  forall prevDash, dashesApart prevDash s = true -> dashRuns prevDash s = s.
Proof.
  induction s as [|c rest IH]; intros prevDash H; [reflexivity|].
  cbn [dashesApart] in H. cbn [dashRuns].
  destruct (isSlugChar c) eqn:E.
  - now rewrite (IH _ H).
  - apply andb_prop in H. destruct H as (H & Hrest).
    apply andb_prop in H. destruct H as (Hc & Hprev). apply Ascii.eqb_eq in Hc.
    destruct prevDash; [discriminate Hprev|]. subst c. now rewrite (IH _ Hrest).
Qed.

Lemma slugBody_apart (s : string) :
  forall prevDash, slugBody prevDash s = true -> dashesApart prevDash s = true.
Proof.
  induction s as [|c rest IH]; intros prevDash H; [reflexivity|].
  cbn [slugBody] in H. cbn [dashesApart].
  destruct (isSlugChar c); [now apply IH|].
  apply andb_prop in H. destruct H as (H & Hrest). rewrite H. now apply IH.
Qed.

Lemma slugBody_dropTrailingDash (s : string) :
  forall prevDash, slugBody prevDash s = true -> dropTrailingDash s = s.
Proof.
  induction s as [|c rest IH]; intros prevDash H; [reflexivity|].
  cbn [slugBody] in H. destruct rest as [|c' rest'].
  - cbn. destruct (isSlugChar c) eqn:E.
    + destruct (Ascii.eqb c "-") eqn:D; [|reflexivity].
      apply Ascii.eqb_eq in D. subst c. discriminate E.
    + apply andb_prop in H. destruct H as (_ & H). discriminate H.
  - change (dropTrailingDash (String c (String c' rest')))
      with (String c (dropTrailingDash (String c' rest'))).
    destruct (isSlugChar c).
    + now rewrite (IH _ H).
    + apply andb_prop in H. destruct H as (_ & H). now rewrite (IH _ H).
Qed.

Lemma slugBody_dropLeadingDash (s : string) :
  slugBody true s = true -> dropLeadingDash s = s.
Proof.
  destruct s as [|c rest]; [reflexivity|]. cbn [slugBody].
  destruct (isSlugChar c) eqn:E.
  - intros _. unfold dropLeadingDash.
    assert (Hc : c <> "-"%char) by (intros ->; discriminate E).
    destruct c as [[] [] [] [] [] [] [] []]; try reflexivity; now destruct Hc.
  - rewrite andb_false_r. discriminate.
Qed.

Lemma toSlug_fixed (s : string) : isSlug s = true -> toSlug s = s.
Proof.
  destruct s as [|c rest]; [reflexivity|]. cbn [isSlug]. intros H.
  unfold toSlug, stripEdgeDashes.
  rewrite (dashesApart_lower _ true (slugBody_apart _ _ H)).
  assert (Hfalse : dashesApart false (String c rest) = true).
  { pose proof (slugBody_apart _ _ H) as A. cbn [dashesApart] in *.
    destruct (isSlugChar c); [exact A|].
    apply andb_prop in A. destruct A as (A & _).
    apply andb_prop in A. destruct A as (_ & A). discriminate A. }
  rewrite (dashesApart_dashRuns _ false Hfalse).
  rewrite (slugBody_dropLeadingDash _ H).
  apply (slugBody_dropTrailingDash _ true H).
Qed.

(** X2.  A slug is its own slug: [toSlug] changes nothing in a string that
    already is one, such as the path segment of a problem page; applied to
    its own result it changes nothing either. *)
Theorem toSlug_of_slug (s : string) :
  isSlug s = true -> toSlug s = s /\ toSlug (toSlug s) = toSlug s.
Proof. intros H. rewrite !(toSlug_fixed s H). now split. Qed.

Lemma toSlug_of_slug_witness :
  toSlug "two-sum" = "two-sum" /\ toSlug (toSlug "two-sum") = toSlug "two-sum".
Proof. apply (toSlug_of_slug "two-sum"). reflexivity. Defined.

Lemma toSlug_idempotent (value : string) : toSlug (toSlug value) = toSlug value.
Proof. apply toSlug_fixed, toSlug_shape. Qed.

(** ** The title of the page: [matchTitle] *)

Lemma span_sound (f : ascii -> bool) (s : string) :
  forall taken remain,
    span f s = (taken, remain) ->
    s = taken ++ remain /\ allChars f taken = true
    /\ match remain with
       | EmptyString => True
       | String c _ => f c = false
       end.
Proof.
  induction s as [|c rest IH]; intros taken remain; cbn [span].
  - intros E. injection E as <- <-. now repeat split.
  - destruct (f c) eqn:Fc.
    + destruct (span f rest) as [t r]. intros E. injection E as <- <-.
      destruct (IH t r eq_refl) as (-> & Hall & Hhead).
      split; [reflexivity|]. split; [|exact Hhead].
      unfold allChars in *. cbn. now rewrite Fc.
    + intros E. injection E as <- <-. now repeat split.
Qed.

Lemma span_app (f : ascii -> bool) (taken remain : string) :
  allChars f taken = true ->
  match remain with
  | EmptyString => True
  | String c _ => f c = false
  end ->
  span f (taken ++ remain) = (taken, remain).
Proof.
  intros Hall Hhead. induction taken as [|c rest IH]; cbn.
  - destruct remain as [|c r]; [reflexivity|]. cbn. now rewrite Hhead.
  - unfold allChars in Hall. cbn in Hall. apply andb_prop in Hall.
    destruct Hall as (Fc & Hrest). rewrite Fc, (IH Hrest). reflexivity.
Qed.

Lemma lastChar_split (s : string) (c : ascii) :
  lastChar s = Some c -> exists init, s = init ++ String c EmptyString.
Proof.
  induction s as [|x rest IH]; [discriminate|]. cbn [lastChar].
  destruct rest as [|y rest'].
  - intros E. injection E as <-. now exists EmptyString.
  - intros E. destruct (IH E) as (init & ->). now exists (String x init).
Qed.

Lemma allChars_app (f : ascii -> bool) (a b : string) :
  allChars f (a ++ b) = allChars f a && allChars f b.
Proof.
  unfold allChars. induction a as [|c rest IH]; [reflexivity|].
  cbn. now rewrite IH, andb_assoc.
Qed.

Lemma append_assoc (a b c : string) : (a ++ b) ++ c = a ++ (b ++ c).
Proof. induction a as [|x a IH]; cbn; [reflexivity | now rewrite IH]. Qed.

Lemma matchTitle_parts (rawTitle number text : string) :
  matchTitle rawTitle = Some (number, text) ->
  exists spaces,
    rawTitle = number ++ "." ++ spaces ++ text
    /\ number <> EmptyString
    /\ allChars isDigit number = true
    /\ allChars Js.isWhiteSpace spaces = true
    /\ text <> EmptyString
    /\ hasLineTerminator text = false.
Proof.
  unfold matchTitle.
  destruct (span isDigit rawTitle) as [digits afterDigits] eqn:Hd.
  destruct (span_sound _ _ _ _ Hd) as (-> & Hdigits & _).
  destruct (nonEmpty digits) eqn:Hne; [|discriminate]. cbn [negb].
  destruct afterDigits as [|dot afterDot]; [discriminate|].
  destruct (Ascii.eqb dot ".") eqn:Hdot.
  2:{ destruct dot as [[] [] [] [] [] [] [] []]; try discriminate Hdot; discriminate. }
  apply Ascii.eqb_eq in Hdot. subst dot.
  destruct (span Js.isWhiteSpace afterDot) as [spaces rest] eqn:Hs.
  destruct (span_sound _ _ _ _ Hs) as (-> & Hspaces & _).
  destruct (nonEmpty rest) eqn:Hrest.
  - destruct (hasLineTerminator rest) eqn:Hlt; [discriminate|].
    intros E. injection E as <- <-. exists spaces.
    split; [reflexivity|]. split; [now apply nonEmpty_true|].
    split; [exact Hdigits|]. split; [exact Hspaces|].
    split; [now apply nonEmpty_true | exact Hlt].
  - destruct rest; [|discriminate Hrest].
    destruct (lastChar spaces) as [c|] eqn:Hlast; [|discriminate].
    destruct (isLineTerminator c) eqn:Hc; [discriminate|].
    intros E. injection E as <- <-.
    destruct (lastChar_split _ _ Hlast) as (init & ->). exists init.
    rewrite allChars_app in Hspaces. apply andb_prop in Hspaces.
    split; [now rewrite append_assoc|]. split; [now apply nonEmpty_true|].
    split; [exact Hdigits|]. split; [apply Hspaces|]. split; [discriminate|].
    unfold hasLineTerminator. cbn. now rewrite Hc.
Qed.

(** X3.  What [matchTitle] takes a title apart into puts it together
    again: the title is the number, a dot, white space and the text, in
    that order; the number is made of digits, and the text is not empty
    and holds no line break. *)
Theorem matchTitle_sound (rawTitle number text : string) :
  matchTitle rawTitle = Some (number, text) ->
  exists spaces,
    rawTitle = number ++ "." ++ spaces ++ text
    /\ number <> EmptyString
    /\ allChars isDigit number = true
    /\ allChars Js.isWhiteSpace spaces = true
    /\ text <> EmptyString
    /\ hasLineTerminator text = false.
Proof. apply matchTitle_parts. Qed.

Lemma matchTitle_sound_witness :
  exists spaces,
    "1. Two Sum" = "1" ++ "." ++ spaces ++ "Two Sum"
    /\ "1" <> EmptyString
    /\ allChars isDigit "1" = true
    /\ allChars Js.isWhiteSpace spaces = true
    /\ "Two Sum" <> EmptyString
    /\ hasLineTerminator "Two Sum" = false.
Proof. apply (matchTitle_sound "1. Two Sum" "1" "Two Sum"). reflexivity. Defined.

(** X4.  A title written as a number, a dot, any white space and a text
    that starts with no white space and holds no line break is taken apart
    into that number and that text. *)
Theorem matchTitle_numbered (number spaces text : string) :
  number <> EmptyString ->
  allChars isDigit number = true ->
  allChars Js.isWhiteSpace spaces = true ->
  text <> EmptyString ->
  startsClean text ->
  hasLineTerminator text = false ->
  matchTitle (number ++ "." ++ spaces ++ text) = Some (number, text).
Proof.
  intros Hn Hdigits Hspaces Ht Hclean Hlt. unfold matchTitle.
  rewrite (span_app isDigit number ("." ++ spaces ++ text) Hdigits eq_refl).
  apply nonEmpty_true in Hn. rewrite Hn. cbn [negb append].
  rewrite (span_app Js.isWhiteSpace spaces text Hspaces).
  - apply nonEmpty_true in Ht. now rewrite Ht, Hlt.
  - destruct text; [exact I | exact Hclean].
Qed.

Lemma matchTitle_numbered_witness :
  matchTitle ("42" ++ "." ++ "  " ++ "Trapping Rain Water")
  = Some ("42", "Trapping Rain Water").
Proof.
  apply (matchTitle_numbered "42" "  " "Trapping Rain Water");
    try reflexivity; discriminate.
Defined.

(** ** Structured data: what the traversal returns *)

Lemma extractFromCandidate_result
  (parseFromString : string -> Node) (page : Page)
  (candidate : JsValue) (slug : string) (found : ParsedProblem) :
  extractFromCandidate parseFromString page candidate slug = Return (Some found) ->
  truthy (candidateTitle candidate) = true
  /\ Scraper.title found = candidateTitle candidate
  /\ url found = href page
  /\ exists own,
       derivedSlug candidate = Return own
       /\ (slug = EmptyString \/ own = EmptyString \/ own = slug)
       /\ Scraper.slug found = (if nonEmpty own then own else slug).
Proof.
  unfold extractFromCandidate, derivedSlug. cbv zeta.
  destruct (truthy (candidateTitle candidate)); [|discriminate]. cbn [negb].
  match goal with |- (if negb (truthy ?c) then _ else _) = _ -> _ =>
    destruct (negb (truthy c)); [discriminate|] end.
  destruct (candidateSlugOf candidate (candidateTitle candidate)) as [own|e];
    [|discriminate]. cbn [bind].
  destruct (nonEmpty slug && nonEmpty own && negb (String.eqb own slug)) eqn:Hcheck;
    [discriminate|].
  match goal with |- (_ <- ?d ;; _) = _ -> _ => destruct d as [difficulty|e] end;
    [|discriminate]. cbn [bind].
  destruct (parseHtmlContent parseFromString _) as [[description examples] constraints].
  intros E. injection E as <-. cbn.
  split; [reflexivity|]. split; [reflexivity|]. split; [reflexivity|].
  exists own. split; [reflexivity|]. split; [|reflexivity].
  destruct slug as [|c0 s0]; [now left|]. right.
  destruct own as [|c1 o1]; [now left|]. right.
  cbn [nonEmpty andb] in Hcheck. apply negb_false_iff in Hcheck.
  now apply String.eqb_eq.
Qed.

(** The members of the stack after a node was expanded: the ones that
    were there, and values found in the node. *)
Lemma in_push_all (items stack : list JsValue) (x : JsValue) :
  In x (fold_left push items stack) <-> In x items \/ In x stack.
Proof.
  revert stack. induction items as [|i rest IH]; intros stack; cbn.
  - tauto.
  - rewrite IH. unfold push. cbn. tauto.
Qed.

Lemma in_enqueue (stack : list JsValue) (value x : JsValue) :
  In x (enqueue stack value) <->
  In x stack
  \/ (truthy value = true /\
      match value with
      | JArr items => In x items
      | JObj _ => x = value
      | _ => False
      end).
Proof.
  unfold enqueue. destruct value; cbn [truthy isObject negb orb];
    try (destruct b); try tauto.
  - destruct (negb (negb (String.eqb repr "0" || String.eqb repr "NaN")) || true) eqn:E;
      [tauto | rewrite orb_true_r in E; discriminate E].
  - rewrite orb_true_r. tauto.
  - rewrite in_push_all. tauto.
  - unfold push. cbn. split; [intros [<- | H] | intros [H | (_ & ->)]]; tauto.
Qed.

Lemma in_enqueue_all (vs stack : list JsValue) (x : JsValue) :
  In x (fold_left enqueue vs stack) <->
  In x stack
  \/ exists v, In v vs /\ In x (enqueue [] v).
Proof.
  revert stack. induction vs as [|v rest IH]; intros stack; cbn [fold_left].
  - split; [now left | intros [H | (v & [] & _)]; exact H].
  - rewrite IH, !in_enqueue. split.
    + intros [[H | H] | (w & Hw & Hx)].
      * now left.
      * right. exists v. split; [now left|]. apply in_enqueue. now right.
      * right. exists w. split; [now right | exact Hx].
    + intros [H | (w & [<- | Hw] & Hx)].
      * left. now left.
      * apply in_enqueue in Hx. destruct Hx as [[] | Hx]. left. now right.
      * right. now exists w.
Qed.

Lemma expand_members (node : JsValue) (rest : list JsValue) (x : JsValue) :
  In x (expand node rest) ->
  In x rest \/ (forall c, within c x -> within c node).
Proof.
  destruct node; cbn [expand]; try (now left).
  - intros H. apply in_enqueue in H. destruct H as [H | (_ & H)]; [now left|].
    right. intros c Hc. now apply within_item with x.
  - intros H. apply in_enqueue_all in H. destruct H as [H | (v & Hv & H)]; [now left|].
    right. apply in_enqueue in H. destruct H as [[] | (_ & H)].
    destruct v; try contradiction.
    + intros c Hc. apply within_value with (JArr items); [exact Hv|].
      now apply within_item with x.
    + subst x. intros c Hc. now apply within_value with (JObj props0).
Qed.

Lemma rest_in_expand (node : JsValue) (rest : list JsValue) (x : JsValue) :
  In x rest -> In x (expand node rest).
Proof.
  intros H. destruct node; cbn [expand]; try exact H.
  - apply in_enqueue. now left.
  - apply in_enqueue_all. now left.
Qed.

(** Everything found in a node is the node, or is found in what its
    expansion puts on the stack, or is no record. *)
Lemma within_expand (node : JsValue) (rest : list JsValue) (c : JsValue) :
  within c node ->
  c = node
  \/ (exists x, In x (expand node rest) /\ within c x)
  \/ isCandidate c = false.
Proof.
  intros H. destruct H as [|items x Hx Hc|props x Hx Hc]; [now left| |].
  - right. left. exists x. split; [|exact Hc].
    cbn [expand]. apply in_enqueue. right. now split.
  - destruct (truthy x && isObject x) eqn:Hobj.
    + apply andb_prop in Hobj. destruct Hobj as (Ht & Ho).
      destruct x; try discriminate Ho.
      * inversion Hc as [|its y Hy Hcy|]; subst.
        -- right. right. reflexivity.
        -- right. left. exists y. split; [|exact Hcy].
           cbn [expand]. apply in_enqueue_all. right. exists (JArr items).
           split; [exact Hx|]. apply in_enqueue. right. now split.
      * right. left. exists (JObj props0). split; [|exact Hc].
        cbn [expand]. apply in_enqueue_all. right. exists (JObj props0).
        split; [exact Hx|]. apply in_enqueue. right. now split.
    + right. right.
      assert (c = x) by (destruct x; inversion Hc; subst; try reflexivity;
                         cbn in Hobj; discriminate Hobj).
      subst c. unfold isCandidate.
      destruct (truthy x); destruct (isObject x); try reflexivity; discriminate Hobj.
Qed.


Section TraversalResults.

Variable parseFromString : string -> Node.
Variable page : Page.
Variable slug : string.

Lemma visit_candidate (node : JsValue) (r : Completion (option ParsedProblem)) :
  visit parseFromString page slug node = r ->
  r <> Return None ->
  isCandidate node = true
  /\ extractFromCandidate parseFromString page node slug = r.
Proof.
  unfold visit. destruct (isCandidate node); [now split|].
  intros <- H. now destruct H.
Qed.

(** Whatever the traversal ends with, other than [null], is what
    [extractFromCandidate] made of a record found in the stack. *)
Lemma traverse_from_record (stack : list JsValue) :
  forall r,
    traverse parseFromString page slug stack = r ->
    r <> Return None ->
    exists node c,
      In node stack /\ within c node /\ isCandidate c = true
      /\ extractFromCandidate parseFromString page c slug = r.
Proof.
  induction stack as [stack IH] using (well_founded_induction
    (Wf_nat.well_founded_ltof _ sizes)).
  unfold Wf_nat.ltof in IH.
  intros r Hrun Hr. destruct stack as [|node rest]; simp traverse in Hrun;
    [now destruct Hr|].
  destruct (negb (truthy node) || negb (isObject node)) eqn:Hskip; cbn in Hrun.
  - assert (Hlt : sizes rest < sizes (node :: rest))
      by (rewrite sizes_cons; pose proof (size_pos node); lia).
    destruct (IH rest Hlt r Hrun Hr) as (n & c & Hn & Hrest).
    exists n, c. split; [now right | exact Hrest].
  - destruct (visit parseFromString page slug node) as [[found|]|e] eqn:V; cbn in Hrun.
    + subst r. destruct (visit_candidate _ _ V Hr) as (Hc & He).
      exists node, node. split; [now left|]. split; [constructor|]. now split.
    + destruct (IH (expand node rest) (sizes_expand node rest) r Hrun Hr)
        as (n & c & Hn & Hw & Hrest).
      apply expand_members in Hn. destruct Hn as [Hn | Hn].
      * exists n, c. split; [now right|]. now split.
      * exists node, c. split; [now left|]. split; [now apply Hn | exact Hrest].
    + subst r. destruct (visit_candidate _ _ V Hr) as (Hc & He).
      exists node, node. split; [now left|]. split; [constructor|]. now split.
Qed.

(** When the traversal ends with [null], every record found in the stack
    was turned down. *)
Lemma traverse_exhausted (stack : list JsValue) :
  traverse parseFromString page slug stack = Return None ->
  forall node c,
    In node stack -> within c node -> isCandidate c = true ->
    extractFromCandidate parseFromString page c slug = Return None.
Proof.
  induction stack as [stack IH] using (well_founded_induction
    (Wf_nat.well_founded_ltof _ sizes)).
  unfold Wf_nat.ltof in IH.
  intros Hrun node c Hnode Hwithin Hc.
  destruct stack as [|top rest]; [destruct Hnode|]. simp traverse in Hrun.
  destruct (negb (truthy top) || negb (isObject top)) eqn:Hskip; cbn in Hrun.
  - destruct Hnode as [<- | Hnode].
    + exfalso.
      assert (c = top).
      { destruct top; inversion Hwithin; subst; try reflexivity;
          cbn in Hskip; discriminate Hskip. }
      subst c. unfold isCandidate in Hc. rewrite Hskip in Hc. discriminate Hc.
    + assert (Hlt : sizes rest < sizes (top :: rest))
        by (rewrite sizes_cons; pose proof (size_pos top); lia).
      exact (IH rest Hlt Hrun node c Hnode Hwithin Hc).
  - destruct (visit parseFromString page slug top) as [[found|]|e] eqn:V;
      cbn in Hrun; try discriminate Hrun.
    assert (Hlater : forall x, In x (expand top rest) -> within c x ->
                     extractFromCandidate parseFromString page c slug = Return None).
    { intros x Hx Hcx.
      exact (IH (expand top rest) (sizes_expand top rest) Hrun x c Hx Hcx Hc). }
    destruct Hnode as [<- | Hnode].
    + destruct (within_expand top rest c Hwithin) as [-> | [(x & Hx & Hcx) | Hno]].
      * unfold visit in V. now rewrite Hc in V.
      * now apply (Hlater x).
      * congruence.
    + apply (Hlater node); [now apply rest_in_expand | exact Hwithin].
Qed.

Lemma initial_stack_members (data x : JsValue) :
  In x (match data with
        | JArr items => fold_left push items []
        | _ => push [] data
        end) ->
  forall c, within c x -> within c data.
Proof.
  destruct data; unfold push; cbn; try (intros [<- | []]; trivial).
  intros H c Hc. apply in_push_all in H. destruct H as [H | []].
  now apply within_item with x.
Qed.

Lemma within_initial_stack (data c : JsValue) :
  truthy data = true -> isObject data = true ->
  within c data ->
  isCandidate c = false
  \/ exists x,
       In x (match data with
             | JArr items => fold_left push items []
             | _ => push [] data
             end) /\ within c x.
Proof.
  intros Ht Ho H. destruct data; try discriminate Ho.
  - inversion H as [|its y Hy Hcy|]; subst; [now left|].
    right. exists y. split; [|exact Hcy]. apply in_push_all. now left.
  - right. exists (JObj props). split; [now left | exact H].
Qed.

End TraversalResults.

(** X5.  A problem that [extractFromCandidate] makes of a record carries
    the record's title and the address of the page, and its slug agrees
    with the page: it is the slug asked for whenever one is asked for and
    the record has one of its own, the record's own slug when none is
    asked for, and the slug asked for when the record's own is empty. *)
Theorem extractFromCandidate_agrees
  (parseFromString : string -> Node) (page : Page)
  (candidate : JsValue) (slug : string) (found : ParsedProblem) :
  extractFromCandidate parseFromString page candidate slug = Return (Some found) ->
  Scraper.title found = candidateTitle candidate
  /\ truthy (Scraper.title found) = true
  /\ url found = href page
  /\ (slug <> EmptyString -> Scraper.slug found = slug)
  /\ (slug = EmptyString -> derivedSlug candidate = Return (Scraper.slug found)).
Proof.
  intros H.
  destruct (extractFromCandidate_result _ _ _ _ _ H)
    as (Htruthy & Htitle & Hurl & own & Hown & Hcase & Hslug).
  split; [exact Htitle|]. split; [now rewrite Htitle|]. split; [exact Hurl|].
  rewrite Hslug. split.
  - intros Hne. destruct Hcase as [E | [-> | ->]];
      [contradiction | reflexivity | now destruct (nonEmpty slug)].
  - intros ->. rewrite Hown. now destruct own.
Qed.

Lemma extractFromCandidate_agrees_witness :
  let parse := fun _ : string => Element "body" [] [Element "p" [] [Text "Add."]] in
  let record := JObj [("title", JStr "3Sum"); ("titleSlug", JStr "three-sum");
                      ("content", JStr "<p>Add.</p>")] in
  exists found,
    extractFromCandidate parse stalePage record "three-sum" = Return (Some found)
    /\ Scraper.slug found = "three-sum".
Proof.
  intros parse record.
  destruct (extractFromCandidate parse stalePage record "three-sum")
    as [[found|]|e] eqn:E; try discriminate E.
  exists found. split; [reflexivity|].
  apply (extractFromCandidate_agrees parse stalePage record "three-sum" found E).
  discriminate.
Defined.

Section NextDataResults.

Variable parseFromString : string -> Node.
Variable page : Page.

Lemma nextData_from_record (r : Completion (option ParsedProblem)) :
  extractFromNextData parseFromString page = r ->
  r <> Return None ->
  exists c,
    within c (nextData page) /\ isCandidate c = true
    /\ extractFromCandidate parseFromString page c (currentSlug page) = r.
Proof.
  unfold extractFromNextData. cbv zeta.
  destruct (negb (truthy (nextData page)) || negb (isObject (nextData page)));
    [intros <- H; now destruct H|].
  intros Hrun Hr.
  destruct (traverse_from_record _ _ _ _ r Hrun Hr) as (node & c & Hn & Hw & Hc).
  exists c. split; [|exact Hc]. now apply (initial_stack_members _ node).
Qed.

Lemma nextData_exhausted (c : JsValue) :
  extractFromNextData parseFromString page = Return None ->
  within c (nextData page) -> isCandidate c = true ->
  extractFromCandidate parseFromString page c (currentSlug page) = Return None.
Proof.
  unfold extractFromNextData. cbv zeta.
  destruct (negb (truthy (nextData page)) || negb (isObject (nextData page))) eqn:Hskip.
  - intros _ Hw Hc. exfalso.
    assert (c = nextData page).
    { destruct (nextData page); inversion Hw; subst; try reflexivity;
        cbn in Hskip; discriminate Hskip. }
    subst c. unfold isCandidate in Hc. rewrite Hskip in Hc. discriminate Hc.
  - intros Hrun Hw Hc. apply orb_false_elim in Hskip. destruct Hskip as (Ht & Ho).
    apply negb_false_iff in Ht, Ho.
    destruct (within_initial_stack _ c Ht Ho Hw) as [Hno | (x & Hx & Hcx)];
      [congruence|].
    exact (traverse_exhausted _ _ _ _ Hrun x c Hx Hcx Hc).
Qed.

End NextDataResults.

(** X6.  Whatever [extractFromNextData] ends with, other than [null], is
    what [extractFromCandidate] made of a question-shaped record found in
    the blob, for the slug of the page: it invents nothing.  A problem it
    returns for a page that has a slug carries that slug. *)
Theorem extractFromNextData_from_record
  (parseFromString : string -> Node) (page : Page)
  (r : Completion (option ParsedProblem)) :
  extractFromNextData parseFromString page = r ->
  r <> Return None ->
  (exists c,
     within c (nextData page) /\ isCandidate c = true
     /\ extractFromCandidate parseFromString page c (currentSlug page) = r)
  /\ (forall found,
        r = Return (Some found) -> currentSlug page <> EmptyString ->
        Scraper.slug found = currentSlug page).
Proof.
  intros Hrun Hr.
  destruct (nextData_from_record _ _ r Hrun Hr) as (c & Hw & Hc & He).
  split; [now exists c|].
  intros found -> Hslug.
  destruct (extractFromCandidate_result _ _ _ _ _ He)
    as (_ & _ & _ & own & _ & Hcase & ->).
  destruct Hcase as [E | [-> | ->]];
    [contradiction | reflexivity | now destruct (nonEmpty (currentSlug page))].
Qed.

(** X7.  [extractFromNextData] ends with [null] only when the traversal
    has turned down every question-shaped record of the blob, however deep
    it lies in objects and arrays: no record is passed over. *)
Theorem extractFromNextData_null_exhaustive
  (parseFromString : string -> Node) (page : Page) (c : JsValue) :
  extractFromNextData parseFromString page = Return None ->
  within c (nextData page) -> isCandidate c = true ->
  extractFromCandidate parseFromString page c (currentSlug page) = Return None.
Proof. apply nextData_exhausted. Qed.

(** X8.  When one record of the blob gives a problem and every other
    question-shaped record is turned down (or gives the same problem),
    [extractFromNextData] returns that problem, wherever the record lies
    and in whatever order the traversal meets its neighbours. *)
Theorem extractFromNextData_only_match
  (parseFromString : string -> Node) (page : Page)
  (record : JsValue) (found : ParsedProblem) :
  within record (nextData page) ->
  isCandidate record = true ->
  extractFromCandidate parseFromString page record (currentSlug page)
  = Return (Some found) ->
  (forall c,
     within c (nextData page) -> isCandidate c = true ->
     extractFromCandidate parseFromString page c (currentSlug page) = Return None
     \/ extractFromCandidate parseFromString page c (currentSlug page)
        = Return (Some found)) ->
  extractFromNextData parseFromString page = Return (Some found).
Proof.
  intros Hw Hc Hfound Hothers.
  destruct (extractFromNextData parseFromString page) as [[p|]|e] eqn:Hrun.
  - destruct (nextData_from_record _ _ _ Hrun) as (c & Hcw & Hcc & He);
      [discriminate|].
    destruct (Hothers c Hcw Hcc) as [E | E]; rewrite E in He; congruence.
  - pose proof (nextData_exhausted _ _ record Hrun Hw Hc). congruence.
  - destruct (nextData_from_record _ _ _ Hrun) as (c & Hcw & Hcc & He);
      [discriminate|].
    destruct (Hothers c Hcw Hcc) as [E | E]; rewrite E in He; discriminate He.
Qed.

Import Samples.

Example twoSumPage_run :
  extractFromNextData readShort twoSumPage = Return (Some twoSumParsed).
Proof. reflexivity. Qed.

Lemma twoSumRecord_within : within twoSumRecord (nextData twoSumPage).
Proof.
  apply within_value with
    (JArr [threeSumRecord; JObj [("question", twoSumRecord)]]); [cbn; tauto|].
  apply within_item with (JObj [("question", twoSumRecord)]); [cbn; tauto|].
  apply within_value with twoSumRecord; [cbn; tauto | constructor].
Qed.

Lemma extractFromNextData_from_record_witness :
  Scraper.slug twoSumParsed = currentSlug twoSumPage.
Proof.
  apply (extractFromNextData_from_record readShort twoSumPage
           (Return (Some twoSumParsed))); try reflexivity; discriminate.
Defined.

Lemma extractFromNextData_null_exhaustive_witness :
  extractFromCandidate readShort stalePage
    (JObj [("title", JStr "Two Sum"); ("titleSlug", JStr "two-sum");
           ("content", JStr "<p>Add two numbers.</p>")])
    (currentSlug stalePage)
  = Return None.
Proof.
  apply (extractFromNextData_null_exhaustive readShort stalePage).
  - reflexivity.
  - apply within_value with
      (JObj [("pageProps",
              JObj [("question",
                     JObj [("title", JStr "Two Sum"); ("titleSlug", JStr "two-sum");
                           ("content", JStr "<p>Add two numbers.</p>")])])]);
      [cbn; tauto|].
    eapply within_value; [cbn; left; reflexivity|].
    eapply within_value; [cbn; left; reflexivity|]. constructor.
  - reflexivity.
Defined.

(** Every value found in a blob written out in full. *)
Ltac enumerate_within :=
  repeat match goal with
         | H : within _ (JObj _) |- _ => inversion H; subst; clear H
         | H : within _ (JArr _) |- _ => inversion H; subst; clear H
         | H : within _ (JStr _) |- _ => inversion H; subst; clear H
         | H : In _ (values _) |- _ => cbn in H
         | H : In _ (_ :: _) |- _ => destruct H as [<- | H]
         | H : In _ [] |- _ => destruct H
         | H : _ \/ _ |- _ => destruct H as [<- | H]
         | H : False |- _ => destruct H
         end.

Lemma extractFromNextData_only_match_witness :
  extractFromNextData readShort twoSumPage = Return (Some twoSumParsed).
Proof.
  apply (extractFromNextData_only_match readShort twoSumPage twoSumRecord).
  - exact twoSumRecord_within.
  - reflexivity.
  - reflexivity.
  - intros c Hw Hc. unfold twoSumPage, nextData, threeSumRecord, twoSumRecord in Hw.
    enumerate_within; try discriminate Hc; (left; reflexivity) || (right; reflexivity).
Defined.

(** ** What every extractor returns *)

Lemma describe_nonEmpty (c : Content) (rootText : string) :
  describe c rootText <> EmptyString.
Proof.
  unfold describe, firstNonEmpty.
  destruct (nonEmpty (join (LF ++ LF) (descriptionParts c))) eqn:A;
    [now apply nonEmpty_true|].
  destruct (nonEmpty (trim rootText)) eqn:B; [now apply nonEmpty_true|].
  discriminate.
Qed.

Lemma collectExamples_clean (doc : Node) (root : Path) (e : string) :
  In e (collectExamples doc root) -> e <> EmptyString /\ trimmed e.
Proof.
  unfold collectExamples. intros H. apply filter_In in H. destruct H as (H & Hne).
  split; [now apply nonEmpty_true|].
  apply in_map_iff in H. destruct H as (node & <- & _). apply trim_idempotent.
Qed.

Lemma parseHtmlContent_inOrder (parseFromString : string -> Node) (html : string) :
  forall d ex c,
    parseHtmlContent parseFromString html = (d, ex, c) ->
    d <> EmptyString /\ forall e, In e ex -> e <> EmptyString /\ trimmed e.
Proof.
  unfold parseHtmlContent, readContent. cbn [contentExamples].
  intros d ex c E. injection E as <- <- <-.
  split; [apply describe_nonEmpty | apply collectExamples_clean].
Qed.

Lemma extractFromCandidate_inOrder
  (parseFromString : string -> Node) (page : Page)
  (candidate : JsValue) (slug : string) (found : ParsedProblem) :
  extractFromCandidate parseFromString page candidate slug = Return (Some found) ->
  textInOrder found.
Proof.
  unfold extractFromCandidate. cbv zeta.
  destruct (negb (truthy (candidateTitle candidate))); [discriminate|].
  match goal with |- (if negb (truthy ?c) then _ else _) = _ -> _ =>
    destruct (negb (truthy c)); [discriminate|] end.
  destruct (candidateSlugOf candidate (candidateTitle candidate)) as [own|e];
    [|discriminate]. cbn [bind].
  destruct (nonEmpty slug && nonEmpty own && negb (String.eqb own slug));
    [discriminate|].
  match goal with |- (_ <- ?d ;; _) = _ -> _ => destruct d as [difficulty|e] end;
    [|discriminate]. cbn [bind].
  destruct (parseHtmlContent parseFromString _)
    as [[description examples] constraints] eqn:P.
  intros E. injection E as <-. exact (parseHtmlContent_inOrder _ _ _ _ _ P).
Qed.

Lemma findDifficulty_returns (page : Page) : exists d, findDifficulty page = Return d.
Proof.
  unfold findDifficulty, attributeValue.
  destruct (documentQuerySelector (document page) (ByAttr "diff")) as [e|].
  - destruct (getAttribute (snd e) "diff") as [v|].
    + cbn [orElse isNullish]. rewrite normalizeDifficulty_string. now eexists.
    + cbn [orElse isNullish].
      destruct (documentQuerySelector (document page) (ByAttr "data-difficulty")) as [e'|];
        [destruct (getAttribute (snd e') "data-difficulty")|];
        try (rewrite normalizeDifficulty_string); now eexists.
  - cbn [orElse isNullish].
    destruct (documentQuerySelector (document page) (ByAttr "data-difficulty")) as [e'|];
      [destruct (getAttribute (snd e') "data-difficulty")|];
      try (rewrite normalizeDifficulty_string); now eexists.
Qed.

Lemma extractFromDom_cases (page : Page) :
  extractFromDom page = Return None
  \/ exists found text,
       extractFromDom page = Return (Some found)
       /\ Scraper.title found = JStr text
       /\ text <> EmptyString
       /\ Scraper.slug found = toSlug text
       /\ url found = href page
       /\ textInOrder found.
Proof.
  unfold extractFromDom. cbv zeta.
  destruct (documentQuerySelector (document page) (ByAttrValue "data-cy" "question-title"))
    as [titleNode|]; [|now left].
  destruct (nonEmpty (trim (textContent (snd titleNode)))) eqn:Hraw; [|now left].
  cbn [negb].
  set (contentRoot :=
         match documentQuerySelector (document page)
                 (ByAttrValue "data-cy" "question-content") with
         | Some e => Some e
         | None => documentQuerySelector (document page) (ByClass "question-content__JfgR")
         end).
  destruct contentRoot as [root|]; [|now left].
  destruct (findDifficulty_returns page) as (d & ->). cbn [bind].
  right. eexists. eexists. split; [reflexivity|]. cbn.
  split; [reflexivity|]. split.
  - destruct (matchTitle (trim (textContent (snd titleNode)))) as [[number text]|] eqn:M.
    + destruct (matchTitle_parts _ _ _ M) as (_ & _ & _ & _ & _ & H & _). exact H.
    + now apply nonEmpty_true.
  - split; [reflexivity|]. split; [reflexivity|].
    split; [apply describe_nonEmpty | apply collectExamples_clean].
Qed.

(** X9.  [extractFromDom] never throws.  When it returns a problem, the
    title is a string that is not empty, the slug is [toSlug] of that
    title, the address is the page's, the description is not empty and no
    example is empty or has white space around it. *)
Theorem extractFromDom_returns (page : Page) :
  (exists r, extractFromDom page = Return r)
  /\ forall found,
       extractFromDom page = Return (Some found) ->
       exists text,
         Scraper.title found = JStr text
         /\ text <> EmptyString
         /\ Scraper.slug found = toSlug text
         /\ url found = href page
         /\ textInOrder found.
Proof.
  destruct (extractFromDom_cases page) as [E | (found & text & E & H)].
  - split; [eexists; exact E|]. intros found H. congruence.
  - split; [eexists; exact E|]. intros found' H'. rewrite E in H'.
    injection H' as <-. now exists text.
Qed.

Lemma extractFromDom_returns_witness :
  exists found text,
    extractFromDom stalePage = Return (Some found)
    /\ Scraper.title found = JStr text
    /\ text <> EmptyString
    /\ Scraper.slug found = toSlug text.
Proof.
  destruct (extractFromDom stalePage) as [[found|]|e] eqn:E; try discriminate E.
  destruct (proj2 (extractFromDom_returns stalePage) found E)
    as (text & Ht & Hne & Hs & _).
  exists found, text. split; [reflexivity|]. split; [exact Ht|].
  split; [exact Hne | exact Hs].
Defined.

Lemma currentSlug_isSlug (page : Page) : isSlug (currentSlug page) = true.
Proof.
  unfold currentSlug. destruct (orElse (pathSegment page) (JStr EmptyString));
    try reflexivity. apply toSlug_shape.
Qed.

Lemma derivedSlug_isSlug (candidate : JsValue) (own : string) :
  derivedSlug candidate = Return own -> isSlug own = true.
Proof.
  unfold derivedSlug, candidateSlugOf, toSlugOf.
  destruct (orElse _ _); try discriminate.
  intros E. injection E as <-. apply toSlug_shape.
Qed.

(** X10.  Every problem that [scrapeProblemInPage] returns, from whichever
    of its three sources, is stamped with the clock it was given and with
    the address of the page; its slug is a slug; its description is not
    empty, and none of its examples is empty or has white space around
    it. *)
Theorem scrapeProblemInPage_result
  (parseFromString : string -> Node) (page : Page) (now : Z)
  (graphQuestion : option JsValue) (problem : Problem) :
  scrapeProblemInPage parseFromString page now graphQuestion = Return (Some problem) ->
  timestamp problem = now
  /\ url (parsed problem) = href page
  /\ isSlug (Scraper.slug (parsed problem)) = true
  /\ textInOrder (parsed problem).
Proof.
  unfold scrapeProblemInPage, scrapeProblem.
  destruct (extractFromNextData parseFromString page) as [[found|]|e] eqn:Hdata;
    cbn [bind]; [| |discriminate].
  - intros E. injection E as <-. cbn [timestamp parsed].
    destruct (nextData_from_record _ _ _ Hdata) as (c & _ & _ & Hc); [discriminate|].
    destruct (extractFromCandidate_result _ _ _ _ _ Hc)
      as (_ & _ & Hurl & own & Hown & _ & Hslug).
    split; [reflexivity|]. split; [exact Hurl|]. split.
    + rewrite Hslug. destruct (nonEmpty own);
        [exact (derivedSlug_isSlug _ _ Hown) | apply currentSlug_isSlug].
    + exact (extractFromCandidate_inOrder _ _ _ _ _ Hc).
  - destruct (extractFromDom_cases page) as [-> | (found & text & -> & _ & _ & Hs & Hu & Ho)];
      cbn [bind].
    + destruct (negb (nonEmpty (currentSlug page))); [discriminate|].
      destruct graphQuestion as [question|]; [|discriminate].
      destruct (parseHtmlContent parseFromString _) as [[d ex] c] eqn:P.
      match goal with |- (_ <- ?x ;; _) = _ -> _ => destruct x as [difficulty|e] end;
        [|discriminate]. cbn [bind].
      intros E. injection E as <-. cbn.
      split; [reflexivity|]. split; [reflexivity|].
      split; [apply currentSlug_isSlug|].
      exact (parseHtmlContent_inOrder _ _ _ _ _ P).
    + intros E. injection E as <-. cbn [timestamp parsed].
      split; [reflexivity|]. split; [exact Hu|]. split; [|exact Ho].
      rewrite Hs. apply toSlug_shape.
Qed.

Lemma scrapeProblemInPage_result_witness :
  exists problem,
    scrapeProblemInPage readShort twoSumPage 1700000000000 None = Return (Some problem)
    /\ timestamp problem = 1700000000000%Z
    /\ isSlug (Scraper.slug (parsed problem)) = true.
Proof.
  destruct (scrapeProblemInPage readShort twoSumPage 1700000000000 None)
    as [[problem|]|e] eqn:E; try discriminate E.
  exists problem. split; [reflexivity|].
  destruct (scrapeProblemInPage_result readShort twoSumPage _ None problem E)
    as (Ht & _ & Hs & _).
  split; [exact Ht | exact Hs].
Defined.

(** ** The orchestrator: what it settles with, on any clock *)

Section OrchestratorOutcome.

Open Scope Z_scope.

Variable world : World.
Variable start : Z.
Variable timeoutMs : Z.

(** How a run that entered the loop for the [k]-th time ended: by a call
    that did not find nothing, or by the timeout. *)
Lemma scrapeLoop_outcome (fuel : nat) :
  forall k now s,
    start + POLL_INTERVAL_MS * Z.of_nat k <= now ->
    scrapeLoop world start timeoutMs fuel k now = Some s ->
    (forall i, (k <= i)%nat -> (S i < attempts s)%nat ->
               fst (executeScrape world i) = Return None)
    /\ ((result s = Throw (ErrorMsg COULD_NOT_DETECT)
         /\ timeoutMs <= settledAt s - start
         /\ (k <= attempts s)%nat
         /\ (forall i, (k <= i < attempts s)%nat ->
                       fst (executeScrape world i) = Return None)
         /\ (attempts s = k \/ POLL_INTERVAL_MS * (Z.of_nat (attempts s) - 1) < timeoutMs))
        \/ exists m,
             attempts s = S m /\ (k <= m)%nat
             /\ POLL_INTERVAL_MS * Z.of_nat m < timeoutMs
             /\ match result s with
                | Return problem => fst (executeScrape world m) = Return (Some problem)
                | Throw e => fst (executeScrape world m) = Throw e
                end).
Proof.
  induction fuel as [|fuel IH]; intros k now s Hnow; cbn [scrapeLoop]; [discriminate|].
  destruct (now - start <? timeoutMs) eqn:Hlt.
  - apply Z.ltb_lt in Hlt.
    destruct (executeScrape world k) as [outcome took] eqn:Hcall.
    assert (Hk : POLL_INTERVAL_MS * Z.of_nat k < timeoutMs)
      by (unfold POLL_INTERVAL_MS in *; lia).
    destruct outcome as [[problem|]|e].
    + intros E. injection E as <-. cbn [attempts result]. split; [intros i; lia|].
      right. exists k. rewrite Hcall. now repeat split.
    + intros Hrun. apply IH in Hrun; [|unfold POLL_INTERVAL_MS in *; lia].
      destruct Hrun as (Hnone & Hend).
      assert (Hhere : fst (executeScrape world k) = Return None)
        by (now rewrite Hcall).
      split.
      * intros i Hi Hlast. destruct (Nat.eq_dec i k) as [-> | Hne];
          [exact Hhere | apply Hnone; lia].
      * destruct Hend as [(Hres & Hlate & Hatt & Hall & Hbound) | (m & Hm & Hkm & Hrest)].
        -- left. split; [exact Hres|]. split; [exact Hlate|]. split; [lia|]. split.
           ++ intros i Hi. destruct (Nat.eq_dec i k) as [-> | Hne];
                [exact Hhere | apply Hall; lia].
           ++ right. destruct Hbound as [-> | Hb]; [|exact Hb].
              rewrite Nat2Z.inj_succ. unfold POLL_INTERVAL_MS in *. lia.
        -- right. exists m. split; [exact Hm|]. split; [lia | exact Hrest].
    + intros E. injection E as <-. cbn [attempts result]. split; [intros i; lia|].
      right. exists k. rewrite Hcall. now repeat split.
  - apply Z.ltb_ge in Hlt. intros E. injection E as <-. cbn [attempts result settledAt].
    split; [intros i; lia|]. left. split; [reflexivity|]. split; [lia|].
    split; [lia|]. split; [intros i; lia | now left].
Qed.

End OrchestratorOutcome.

(** X11.  Whatever the calls of the extractor take and give,
    [scrapeProblemFromTab] settles with what the first call that does not
    find nothing gives: it resolves with the problem of that call, or is
    rejected with the error that call was rejected with, and makes no call
    after it.  It is rejected with its own message only once the timeout
    has elapsed, every call having found nothing. *)
Theorem scrapeProblemFromTab_outcome
  (world : World) (start timeoutMs : Z) (s : Settled) :
  scrapeProblemFromTab world start timeoutMs = Some s ->
  (result s = Throw (ErrorMsg COULD_NOT_DETECT)
   /\ (timeoutMs <= settledAt s - start)%Z
   /\ forall i, (i < attempts s)%nat -> fst (executeScrape world i) = Return None)
  \/ exists m,
       attempts s = S m
       /\ (forall i, (i < m)%nat -> fst (executeScrape world i) = Return None)
       /\ match result s with
          | Return problem => fst (executeScrape world m) = Return (Some problem)
          | Throw e => fst (executeScrape world m) = Throw e
          end.
Proof.
  unfold scrapeProblemFromTab. intros Hrun.
  apply scrapeLoop_outcome in Hrun; [|cbn; lia].
  destruct Hrun as (Hnone & [(Hres & Hlate & _ & Hall & _) | (m & Hm & _ & _ & Hlast)]).
  - left. split; [exact Hres|]. split; [exact Hlate|]. intros i Hi. apply Hall. lia.
  - right. exists m. split; [exact Hm|]. split; [|exact Hlast].
    intros i Hi. apply Hnone; lia.
Qed.

Lemma scrapeProblemFromTab_outcome_witness :
  exists m,
    3 = S m
    /\ (forall i, i < m -> fst (executeScrape foundOnThird i) = Return None)
    /\ fst (executeScrape foundOnThird m) = Return (Some twoSum).
Proof.
  destruct (scrapeProblemFromTab_outcome foundOnThird 1000 DEFAULT_TIMEOUT_MS
              {| result := Return twoSum; settledAt := 1600; attempts := 3 |} eq_refl)
    as [(H & _) | H]; [discriminate H | exact H].
Defined.

(** X12.  On any clock, [scrapeProblemFromTab] calls the extractor at
    most once per started poll interval of the timeout: a call is only
    made while fewer poll intervals than the timeout holds have been
    waited for.  With a timeout that is not positive it makes no call and
    is rejected at once. *)
Theorem scrapeProblemFromTab_call_bound
  (world : World) (start timeoutMs : Z) (s : Settled) :
  scrapeProblemFromTab world start timeoutMs = Some s ->
  (attempts s = 0
   \/ (POLL_INTERVAL_MS * (Z.of_nat (attempts s) - 1) < timeoutMs)%Z)
  /\ ((timeoutMs <= 0)%Z ->
      s = {| result := Throw (ErrorMsg COULD_NOT_DETECT);
             settledAt := start; attempts := 0 |}).
Proof.
  intros Hrun. split.
  - unfold scrapeProblemFromTab in Hrun.
    apply scrapeLoop_outcome in Hrun; [|cbn; lia].
    destruct Hrun as (_ & [(_ & _ & _ & _ & Hb) | (m & Hm & _ & Hb & _)]).
    + exact Hb.
    + right. rewrite Hm, Nat2Z.inj_succ. unfold POLL_INTERVAL_MS in *. lia.
  - intros Hneg. unfold scrapeProblemFromTab, turns in Hrun.
    rewrite Nat.add_comm in Hrun. cbn [Nat.add scrapeLoop] in Hrun.
    assert (Hlt : (start - start <? timeoutMs)%Z = false) by (apply Z.ltb_ge; lia).
    rewrite Hlt in Hrun. now injection Hrun as <-.
Qed.

Lemma scrapeProblemFromTab_call_bound_witness :
  (40 = 0 \/ (POLL_INTERVAL_MS * (Z.of_nat 40 - 1) < DEFAULT_TIMEOUT_MS)%Z)
  /\ ((DEFAULT_TIMEOUT_MS <= 0)%Z ->
      {| result := Throw (ErrorMsg COULD_NOT_DETECT); settledAt := 13000; attempts := 40 |}
      = {| result := Throw (ErrorMsg COULD_NOT_DETECT); settledAt := 1000; attempts := 0 |}).
Proof.
  exact (scrapeProblemFromTab_call_bound nothingThere 1000 DEFAULT_TIMEOUT_MS
           {| result := Throw (ErrorMsg COULD_NOT_DETECT);
              settledAt := 13000; attempts := 40 |} eq_refl).
Defined.

(** ** The background handler and its callers *)

Import Callers.

Lemma openSidePanel_reply (browser : Browser) :
  match openSidePanelForCurrentTab browser with
  | Return reply =>
      Background.success reply = panelOpened browser
      /\ (Background.success reply = true -> Background.error reply = None)
      /\ (Background.success reply = false -> Background.error reply <> None)
      /\ Background.problem reply = None
  | Throw e => sidePanelAvailable browser = true /\ queriedTabs browser = Throw e
  end.
Proof.
  unfold openSidePanelForCurrentTab, panelOpened.
  destruct (sidePanelAvailable browser); cbn [negb andb].
  2:{ cbn. repeat split; try discriminate. }
  destruct (queriedTabs browser) as [tabs|e]; cbn [bind]; [|now split].
  destruct (usableId tabs) as [tabId|]; [|cbn; repeat split; discriminate].
  destruct (setOptions browser) as [[]|e1]; cbn [bind].
  - destruct (openPanel browser) as [[]|e2]; cbn; repeat split; discriminate.
  - cbn. repeat split; discriminate.
Qed.

(** X13.  [openSidePanelForCurrentTab] reports success exactly when the
    panel was opened: the API is there, the tabs query gave an active tab
    with an id, and setting the options and opening both went through.
    Every other reply is a failure that carries a message.  The promise is
    rejected only when the tabs query is. *)
Theorem openSidePanelForCurrentTab_honest (browser : Browser) :
  (forall reply,
     openSidePanelForCurrentTab browser = Return reply ->
     Background.success reply = panelOpened browser
     /\ (Background.success reply = false -> Background.error reply <> None))
  /\ (forall e,
        openSidePanelForCurrentTab browser = Throw e ->
        queriedTabs browser = Throw e).
Proof.
  pose proof (openSidePanel_reply browser) as H.
  split.
  - intros reply E. rewrite E in H. destruct H as (A & _ & B & _). now split.
  - intros e E. rewrite E in H. apply H.
Qed.

Lemma openSidePanelForCurrentTab_honest_witness :
  Background.success {| Background.success := true; Background.error := None; Background.problem := None |}
  = panelOpened readyBrowser.
Proof.
  apply (proj1 (openSidePanelForCurrentTab_honest readyBrowser)). reflexivity.
Defined.

Lemma onMessage_open_replies (browser : Browser) (rawMessage : JsValue) :
  hasType rawMessage "OPEN_SIDE_PANEL" ->
  exists reply,
    repliesOf (onMessage browser rawMessage) = Some [reply]
    /\ Background.success reply = panelOpened browser.
Proof.
  intros (Hobj & Htype). unfold onMessage.
  assert (Htruthy : truthy rawMessage = true)
    by (destruct rawMessage; try discriminate Hobj; reflexivity).
  rewrite Htruthy, Hobj, Htype. cbn [negb orb String.eqb Ascii.eqb Bool.eqb andb].
  unfold repliesOf. cbn [later option_map].
  pose proof (openSidePanel_reply browser) as H.
  eexists. split.
  - f_equal.
    exact (then_catch_replies_once (openSidePanelForCurrentTab browser)
             (fun r => r) (fun e => failure (messageOr "Unexpected error" e))).
  - destruct (openSidePanelForCurrentTab browser) as [reply|e].
    + apply H.
    + destruct H as (Ha & Hq). unfold panelOpened. now rewrite Ha, Hq.
Qed.

(** X14.  A click on the floating button, answered by the background
    handler, opens exactly one thing: the side panel, or else the fallback
    tab.  The fallback is opened when and only when the panel was not. *)
Theorem button_opens_panel_or_fallback
  (browser : Browser) (rawMessage : JsValue) (reply : Reply) :
  hasType rawMessage "OPEN_SIDE_PANEL" ->
  repliesOf (onMessage browser rawMessage) = Some [reply] ->
  onButtonClick true None (Some reply)
  = if panelOpened browser then AskedForPanel else OpenedFallback.
Proof.
  intros Htype Hreply.
  destruct (onMessage_open_replies browser rawMessage Htype) as (r & Hr & Hs).
  rewrite Hreply in Hr. injection Hr as <-.
  unfold onButtonClick. cbn [negb]. now rewrite Hs.
Qed.

Lemma button_opens_panel_or_fallback_witness :
  onButtonClick true None (Some {| Background.success := true; Background.error := None; Background.problem := None |})
  = if panelOpened readyBrowser then AskedForPanel else OpenedFallback.
Proof.
  apply (button_opens_panel_or_fallback readyBrowser
           (JObj [("type", JStr "OPEN_SIDE_PANEL")])).
  - split; reflexivity.
  - reflexivity.
Defined.

Lemma onMessage_get_replies (browser : Browser) (rawMessage : JsValue) :
  hasType rawMessage "GET_ACTIVE_PROBLEM" ->
  repliesOf (onMessage browser rawMessage)
  = match lastError browser with
    | Some message => Some [failure message]
    | None =>
        match usableId (callbackTabs browser) with
        | None => Some [failure "No active tab detected."]
        | Some tabId =>
            option_map
              (fun scraped =>
                 [match scraped with
                  | Return found =>
                      {| Background.success := true;
                         Background.error := None;
                         Background.problem := Some found |}
                  | Throw e => failure (messageOr "Unexpected error while scraping." e)
                  end])
              (scrapeTab browser tabId)
        end
    end.
Proof.
  intros (Hobj & Htype). unfold onMessage.
  assert (Htruthy : truthy rawMessage = true)
    by (destruct rawMessage; try discriminate Hobj; reflexivity).
  rewrite Htruthy, Hobj, Htype. cbn [negb orb String.eqb Ascii.eqb Bool.eqb andb].
  unfold repliesOf. cbn [later].
  destruct (lastError browser) as [message|]; [reflexivity|].
  destruct (usableId (callbackTabs browser)) as [tabId|]; [|reflexivity].
  destruct (scrapeTab browser tabId) as [[found|e]|]; reflexivity.
Qed.

(** X15.  The side panel asking for the active problem, answered by the
    background handler: the handler sends one reply; the panel's promise
    resolves with a problem exactly when the tabs callback had no error and
    an active tab with an id and scraping that tab resolved with that
    problem; and when scraping was rejected with an [Error], the panel's
    promise is rejected with an [Error] of the same message. *)
Theorem requestActiveProblem_end_to_end
  (browser : Browser) (rawMessage : JsValue) :
  hasType rawMessage "GET_ACTIVE_PROBLEM" ->
  exists reply,
    repliesOf (onMessage browser rawMessage) = Some [reply]
    /\ (forall found,
          requestActiveProblem true None (Some reply) = Return found
          <-> (lastError browser = None
               /\ exists tabId,
                    usableId (callbackTabs browser) = Some tabId
                    /\ scrapeTab browser tabId = Some (Return found)))
    /\ (forall tabId message,
          lastError browser = None ->
          usableId (callbackTabs browser) = Some tabId ->
          scrapeTab browser tabId = Some (Throw (ErrorMsg message)) ->
          requestActiveProblem true None (Some reply) = Throw (ErrorMsg message)).
Proof.
  intros Htype. rewrite (onMessage_get_replies browser rawMessage Htype).
  destruct (lastError browser) as [message|].
  { eexists. split; [reflexivity|]. split.
    - intros found. cbn. split; [discriminate | now intros (H & _)].
    - discriminate. }
  destruct (usableId (callbackTabs browser)) as [tabId|].
  2:{ eexists. split; [reflexivity|]. split.
      - intros found. cbn. split; [discriminate | now intros (_ & t & H & _)].
      - discriminate. }
  pose proof (scrapeTab_settles browser tabId) as Hsettles.
  destruct (scrapeTab browser tabId) as [[found|e]|] eqn:Escrape; [| |contradiction].
  - eexists. split; [reflexivity|]. split.
    + intros found'. cbn. split.
      * intros [= <-]. split; [reflexivity|]. exists tabId. split; [reflexivity|].
        exact Escrape.
      * intros (_ & t & [= <-] & Hs). rewrite Escrape in Hs. now injection Hs as <-.
    + intros t message _ [= <-] Hs. rewrite Escrape in Hs. discriminate Hs.
  - eexists. split; [reflexivity|]. split.
    + intros found'. cbn. split; [discriminate|].
      intros (_ & t & [= <-] & Hs). rewrite Escrape in Hs. discriminate Hs.
    + intros t message _ [= <-] Hs. rewrite Escrape in Hs.
      injection Hs as ->. reflexivity.
Qed.

Lemma requestActiveProblem_end_to_end_witness :
  exists reply,
    repliesOf (onMessage readyBrowser (JObj [("type", JStr "GET_ACTIVE_PROBLEM")]))
    = Some [reply]
    /\ requestActiveProblem true None (Some reply) = Return twoSum.
Proof.
  destruct (requestActiveProblem_end_to_end readyBrowser
              (JObj [("type", JStr "GET_ACTIVE_PROBLEM")]))
    as (reply & Hreply & Hfound & _).
  - split; reflexivity.
  - exists reply. split; [exact Hreply|].
    apply Hfound. split; [reflexivity|].
    exists 7%Z. split; reflexivity.
Defined.

(** X16.  The listener keeps the channel open (returns [true]) for the two
    message types it knows and for nothing else; for any other message it
    returns [undefined] and leaves no code behind, so it never replies. *)
Theorem onMessage_only_known_types (browser : Browser) (rawMessage : JsValue) :
  (returned (onMessage browser rawMessage) = Some true
   <-> (hasType rawMessage "OPEN_SIDE_PANEL" \/ hasType rawMessage "GET_ACTIVE_PROBLEM"))
  /\ (returned (onMessage browser rawMessage) <> Some true ->
      returned (onMessage browser rawMessage) = None
      /\ repliesOf (onMessage browser rawMessage) = None).
Proof.
  unfold onMessage, hasType, repliesOf.
  destruct (truthy rawMessage) eqn:Et; cbn [negb orb].
  2:{ cbn. split; [split; [discriminate|] | now split].
      intros [(Hobj & _)|(Hobj & _)];
        destruct rawMessage; try discriminate Hobj; discriminate Et. }
  destruct (isObject rawMessage) eqn:Eo; cbn [negb].
  2:{ cbn. split; [split; [discriminate|] | now split].
      intros [(Hobj & _)|(Hobj & _)]; discriminate Hobj. }
  destruct (get rawMessage "type") as [| | | | type | |] eqn:Eg;
    try (cbn; split; [split; [discriminate|] | now split];
         intros [(_ & H)|(_ & H)]; discriminate H).
  destruct (String.eqb type "OPEN_SIDE_PANEL") eqn:E1.
  { apply String.eqb_eq in E1. subst type. cbn [returned].
    split; [split; auto | intros H; now contradiction H]. }
  destruct (String.eqb type "GET_ACTIVE_PROBLEM") eqn:E2.
  { apply String.eqb_eq in E2. subst type. cbn [returned].
    split; [split; auto | intros H; now contradiction H]. }
  cbn. split; [split; [discriminate|] | now split].
  intros [(_ & [= ->])|(_ & [= ->])].
  - now rewrite String.eqb_refl in E1.
  - now rewrite String.eqb_refl in E2.
Qed.

(** ** The stream client: failures, blank lines, the shape of the result *)

Section StreamFailures.

Variable SourceDocument : Type.
Variable JSON_parse : text -> option (ChatStreamEvent SourceDocument).

Lemma processLines_nonblank (lines : list text) (p : Progress SourceDocument) :
  processLines JSON_parse p (filter (fun line => negb (isBlank line)) lines)
  = processLines JSON_parse p lines.
Proof.
  revert p. induction lines as [|line rest IH]; intros p; [reflexivity|].
  cbn [filter processLines].
  destruct (isBlank line) eqn:E; cbn [negb].
  - unfold processLine. rewrite E. apply IH.
  - cbn [processLines].
    destruct (processLine JSON_parse p line); [apply IH | reflexivity].
Qed.

Lemma processLines_fails (pre post : list text) (bad : text)
      (es : list (ChatStreamEvent SourceDocument)) (p : Progress SourceDocument) :
  parseLines JSON_parse pre = Some es ->
  (forall e, In e es -> isErrorEvent e = false) ->
  isBlank bad = false ->
  processLines JSON_parse p (pre ++ bad :: post)%list
  = match JSON_parse bad with
    | None => Raised (SyntaxError bad) (handled p ++ es)%list
    | Some (ErrorEvent message) =>
        Raised (ErrorWith (match message with Some m => m | None => UNKNOWN_ERROR end))
               (handled p ++ es ++ [ErrorEvent message])%list
    | Some e =>
        processLines JSON_parse
          {| finalPayload :=
               match lastTerminal (es ++ [e]) with
               | Some payload => Some (normalizeChatResponse payload)
               | None => finalPayload p
               end;
             handled := (handled p ++ es ++ [e])%list |}
          post
    end.
Proof.
  intros Hparsed Hok Hbad.
  rewrite processLines_app, (processLines_parsed _ JSON_parse pre p es Hparsed Hok).
  cbn [processLines]. unfold processLine. rewrite Hbad. cbn [handled finalPayload].
  destruct (JSON_parse bad) as [e|]; [|reflexivity].
  rewrite lastTerminal_app.
  destruct e; rewrite <- ?app_assoc; reflexivity.
Qed.

Lemma normalizeChatResponse_defined (payload : ChatResponse SourceDocument) :
  let r := normalizeChatResponse payload in
  success r <> None /\ answer r <> None /\ summary r <> None /\ sources r <> None
  /\ error r = error payload
  /\ normalizeChatResponse r = r.
Proof. cbn. repeat split; discriminate. Qed.

End StreamFailures.

(** X17.  The first line that fails decides, whatever follows.  When the
    lines before it, the blank ones apart, each are the JSON text of a
    stream event of the declared type other than [error] (an [end] or
    [cached] event with its payload), a line that is not JSON rejects the
    promise with the [SyntaxError] of that line, and a line with an [error]
    event rejects it with the message of the event (or the fixed text when
    it has none); the callback has seen the events up to there and none of
    the later lines, and a final payload received before is not
    returned. *)
Theorem streamChatRequest_first_failure
  (SourceDocument : Type) (JSON_parse : text -> option (ChatStreamEvent SourceDocument))
  (body : list Chunk) (pre post : list text) (bad : text)
  (es : list (ChatStreamEvent SourceDocument)) :
  linesOf body = (pre ++ bad :: post)%list ->
  parseLines JSON_parse pre = Some es ->
  (forall e, In e es -> isErrorEvent e = false) ->
  isBlank bad = false ->
  (JSON_parse bad = None ->
   streamChatRequest JSON_parse body
   = {| events := es; outcome := Rejected (SyntaxError bad) |})
  /\ (forall message,
        JSON_parse bad = Some (ErrorEvent message) ->
        streamChatRequest JSON_parse body
        = {| events := (es ++ [ErrorEvent message])%list;
             outcome :=
               Rejected (ErrorWith (match message with
                                    | Some m => m
                                    | None => UNKNOWN_ERROR
                                    end)) |}).
Proof.
  intros Hlines Hparsed Hok Hbad.
  rewrite streamChatRequest_lines, Hlines.
  rewrite (processLines_fails _ JSON_parse pre post bad es _ Hparsed Hok Hbad).
  split.
  - intros ->. reflexivity.
  - intros message ->. reflexivity.
Qed.

Lemma streamChatRequest_first_failure_witness :
  streamChatRequest parseSample [(sampleBytes ++ jsonBytes "oops")%list]
  = {| events := [TokenEvent (textOf "Hi"); TokenEvent (textOf " there");
                  EndEvent greeting];
       outcome := Rejected (SyntaxError (jsonText "oops")) |}.
Proof.
  apply (proj1 (streamChatRequest_first_failure unit parseSample
                  [(sampleBytes ++ jsonBytes "oops")%list]
                  [jsonText "{'type':'token','token':'Hi'}";
                   jsonText "{'type':'token','token':' there'}";
                   jsonText "{'type':'end','payload':{'success':true,'answer':'Hi there, friend.'}}"]
                  [] (jsonText "oops")
                  [TokenEvent (textOf "Hi"); TokenEvent (textOf " there");
                   EndEvent greeting]
                  ltac:(vm_compute; reflexivity)
                  ltac:(vm_compute; reflexivity)
                  ltac:(intros e [<-|[<-|[<-|[]]]]; reflexivity)
                  ltac:(vm_compute; reflexivity))).
  vm_compute. reflexivity.
Defined.

(** X18.  Blank lines carry nothing: two bodies whose lines, the blank
    ones left out, are the same make [streamChatRequest] call the callback
    with the same events and settle the same way.  So a body may end with
    or without a line feed, and may hold empty lines between its events. *)
Theorem streamChatRequest_blank_lines
  (SourceDocument : Type) (JSON_parse : text -> option (ChatStreamEvent SourceDocument))
  (body1 body2 : list Chunk) :
  filter (fun line => negb (isBlank line)) (linesOf body1)
  = filter (fun line => negb (isBlank line)) (linesOf body2) ->
  streamChatRequest JSON_parse body1 = streamChatRequest JSON_parse body2.
Proof.
  intros Hsame. rewrite !streamChatRequest_lines.
  rewrite <- (processLines_nonblank _ JSON_parse (linesOf body1)).
  rewrite <- (processLines_nonblank _ JSON_parse (linesOf body2)).
  now rewrite Hsame.
Qed.

Lemma streamChatRequest_blank_lines_witness :
  streamChatRequest parseSample sampleWhole
  = streamChatRequest parseSample
      [(Byte.x0a :: jsonBytes "{'type':'token','token':'Hi'}" ++ [Byte.x0a; Byte.x20; Byte.x0a]
        ++ jsonBytes "{'type':'token','token':' there'}" ++ [Byte.x0a]
        ++ jsonBytes "{'type':'end','payload':{'success':true,'answer':'Hi there, friend.'}}")%list].
Proof.
  apply streamChatRequest_blank_lines. vm_compute. reflexivity.
Defined.

(** X19.  A response that [streamChatRequest] resolves with has
    [success], [answer], [summary] and [sources] defined, and normalising
    it again changes nothing. *)
Theorem streamChatRequest_response_defined
  (SourceDocument : Type) (JSON_parse : text -> option (ChatStreamEvent SourceDocument))
  (body : list Chunk) (response : ChatResponse SourceDocument) :
  outcome (streamChatRequest JSON_parse body) = Resolved response ->
  success response <> None /\ answer response <> None
  /\ summary response <> None /\ sources response <> None
  /\ normalizeChatResponse response = response.
Proof.
  intros Hresolved.
  destruct (streamChatRequest_resolved _ JSON_parse body response Hresolved)
    as (payload & _ & ->).
  pose proof (normalizeChatResponse_defined _ payload) as H. cbn zeta in H.
  tauto.
Qed.

Lemma streamChatRequest_response_defined_witness :
  summary (normalizeChatResponse greeting) <> None
  /\ sources (normalizeChatResponse greeting) <> None.
Proof.
  pose proof (streamChatRequest_response_defined unit parseSample sampleWhole
                (normalizeChatResponse greeting) eq_refl) as H.
  split; apply H.
Defined.

(** ** The chat of the side panel *)

Lemma updateContent_fresh (assistantId : Z) (newContent : Panel.Message -> option text)
      (prev : list Panel.Message) :
  Panel.fresh assistantId prev ->
  Panel.updateContent assistantId newContent prev = prev.
Proof.
  unfold Panel.fresh, Panel.updateContent.
  induction prev as [|m prev IH]; intros Hfresh; [reflexivity|]. cbn [map].
  rewrite IH by (intros x Hx; apply Hfresh; now right).
  assert (Hm : Panel.timestamp m <> assistantId) by (apply Hfresh; now left).
  apply Z.eqb_neq in Hm. now rewrite Hm.
Qed.

Lemma updateContent_twice (assistantId : Z) (f g : Panel.Message -> option text)
      (prev : list Panel.Message) :
  Panel.updateContent assistantId g (Panel.updateContent assistantId f prev)
  = Panel.updateContent assistantId
      (fun m => g {| Panel.role := Panel.role m; Panel.content := f m;
                     Panel.timestamp := Panel.timestamp m |})
      prev.
Proof.
  unfold Panel.updateContent. rewrite map_map. apply map_ext.
  intros m. destruct (Z.eqb (Panel.timestamp m) assistantId) eqn:E;
    cbn [Panel.timestamp Panel.role]; now rewrite E.
Qed.

Lemma updateContent_same (assistantId : Z) (prev : list Panel.Message) :
  Panel.updateContent assistantId Panel.content prev = prev.
Proof.
  unfold Panel.updateContent. rewrite <- (map_id prev) at 2. apply map_ext.
  intros [r c t]. cbn. now destruct (Z.eqb t assistantId).
Qed.

Section ChatFacts.

Variable SourceDocument : Type.

Let View := Panel.View SourceDocument.
Let Event := ChatStreamEvent SourceDocument.

Lemma duringStream_messages (assistantId : Z) (es : list Event) :
  forall v : View,
    Panel.messages (Panel.duringStream assistantId es v)
    = Panel.updateContent assistantId
        (fun m => Panel.contentAfter es (Panel.content m))
        (Panel.messages v).
Proof.
  unfold Panel.duringStream.
  induction es as [|e es IH]; intros v; cbn [fold_left Panel.contentAfter].
  - symmetry. apply updateContent_same.
  - rewrite IH.
    destruct e; cbn [Panel.onStreamEvent Panel.messages Panel.setMessages
                     Panel.setSources Panel.setLatestSummary Panel.setIsThinking
                     Panel.setChatError];
      try reflexivity;
      rewrite updateContent_twice; reflexivity.
Qed.

Lemma duringStream_app (assistantId : Z) (es1 es2 : list Event) (v : View) :
  Panel.duringStream assistantId (es1 ++ es2)%list v
  = Panel.duringStream assistantId es2 (Panel.duringStream assistantId es1 v).
Proof. unfold Panel.duringStream. apply fold_left_app. Qed.

Lemma contentAfter_app (es1 es2 : list Event) (c : option text) :
  Panel.contentAfter (es1 ++ es2)%list c
  = Panel.contentAfter es2 (Panel.contentAfter es1 c).
Proof.
  revert c. induction es1 as [|e es1 IH]; intros c; [reflexivity|].
  cbn [app Panel.contentAfter]. apply IH.
Qed.

Lemma contentAfter_interim (es : list Event) (c : text) :
  (forall e, In e es -> Panel.isInterim e = true) ->
  Panel.contentAfter es (Some c) = Some (c ++ Panel.tokensOf es)%list.
Proof.
  revert c. induction es as [|e es IH]; intros c Hall; cbn [Panel.contentAfter Panel.tokensOf].
  - now rewrite app_nil_r.
  - assert (He : Panel.isInterim e = true) by (apply Hall; now left).
    assert (Hrest : forall x, In x es -> Panel.isInterim x = true)
      by (intros x Hx; apply Hall; now right).
    destruct e; try discriminate He; rewrite (IH _ Hrest); cbn [Panel.shown];
      now rewrite <- ?app_assoc.
Qed.

(** Events other than [error] leave [chatError] alone; events that leave
    the answer to be continued leave [isThinking] alone as well. *)
Lemma duringStream_chatError (assistantId : Z) (es : list Event) :
  forall v : View,
    (forall e, In e es -> isErrorEvent e = false) ->
    Panel.chatError (Panel.duringStream assistantId es v) = Panel.chatError v
    /\ Panel.input (Panel.duringStream assistantId es v) = Panel.input v.
Proof.
  unfold Panel.duringStream.
  induction es as [|e es IH]; intros v Hok; cbn [fold_left]; [now split|].
  assert (He : isErrorEvent e = false) by (apply Hok; now left).
  destruct (IH (Panel.onStreamEvent assistantId e v)) as (H1 & H2);
    [intros x Hx; apply Hok; now right|].
  rewrite H1, H2. destruct e; try discriminate He; now split.
Qed.

Lemma duringStream_isThinking (assistantId : Z) (es : list Event) :
  forall v : View,
    (forall e, In e es -> Panel.isInterim e = true) ->
    Panel.isThinking (Panel.duringStream assistantId es v) = Panel.isThinking v.
Proof.
  unfold Panel.duringStream.
  induction es as [|e es IH]; intros v Hok; cbn [fold_left]; [reflexivity|].
  assert (He : Panel.isInterim e = true) by (apply Hok; now left).
  rewrite IH by (intros x Hx; apply Hok; now right).
  destruct e; try discriminate He; reflexivity.
Qed.

(** The messages once [handleSend] has put the question and the empty
    answer at the end, and the callback has run. *)
Lemma updateContent_sent (assistantId : Z) (prev : list Panel.Message)
      (userMessage : Panel.Message) (c : option text)
      (newContent : Panel.Message -> option text) :
  Panel.fresh assistantId prev ->
  Panel.timestamp userMessage <> assistantId ->
  Panel.updateContent assistantId newContent
    (prev ++ [userMessage;
              {| Panel.role := Panel.Assistant; Panel.content := c;
                 Panel.timestamp := assistantId |}])%list
  = (prev ++ [userMessage;
              {| Panel.role := Panel.Assistant;
                 Panel.content :=
                   newContent {| Panel.role := Panel.Assistant; Panel.content := c;
                                 Panel.timestamp := assistantId |};
                 Panel.timestamp := assistantId |}])%list.
Proof.
  intros Hfresh Huser. unfold Panel.updateContent at 1. rewrite map_app.
  fold (Panel.updateContent assistantId newContent prev).
  rewrite (updateContent_fresh _ _ _ Hfresh). f_equal. cbn [map Panel.timestamp Panel.role].
  apply Z.eqb_neq in Huser. now rewrite Huser, Z.eqb_refl.
Qed.

End ChatFacts.

Section StreamNoError.

Variable SourceDocument : Type.
Variable JSON_parse : text -> option (ChatStreamEvent SourceDocument).

Lemma processLines_going_no_error (lines : list text) :
  forall p p',
    processLines JSON_parse p lines = Going p' ->
    (forall e, In e (handled p) -> isErrorEvent e = false) ->
    forall e, In e (handled p') -> isErrorEvent e = false.
Proof.
  induction lines as [|line rest IH]; intros p p'; cbn [processLines].
  - intros [= <-] H. exact H.
  - destruct (processLine JSON_parse p line) as [p1|] eqn:E1; [|discriminate].
    intros Hrest Hp. apply (IH p1 p' Hrest).
    unfold processLine in E1.
    destruct (isBlank line); [injection E1 as <-; exact Hp|].
    destruct (JSON_parse line) as [ev|]; [|discriminate E1].
    destruct ev; try discriminate E1; injection E1 as <-; cbn [handled];
      intros e He; apply in_app_or in He; destruct He as [He|[<-|[]]];
      auto.
Qed.

Lemma streamChatRequest_resolved_no_error (body : list Chunk)
      (response : ChatResponse SourceDocument) :
  outcome (streamChatRequest JSON_parse body) = Resolved response ->
  forall e, In e (events (streamChatRequest JSON_parse body)) -> isErrorEvent e = false.
Proof.
  rewrite streamChatRequest_lines.
  destruct (processLines JSON_parse {| finalPayload := None; handled := [] |}
              (linesOf body)) as [p|failure seen] eqn:E; cbn [settle].
  - pose proof (processLines_going_no_error _ _ _ E) as Hno.
    destruct (finalPayload p); cbn [outcome events]; [|discriminate].
    intros _. apply Hno. intros e [].
  - discriminate.
Qed.

End StreamNoError.

(** X20.  While the answer streams in, the message of the assistant
    reads what it read before followed by the tokens received so far, in
    order; no other message changes, and the panel keeps thinking and
    keeps its error. *)
Theorem duringStream_shows_tokens
  (SourceDocument : Type) (assistantId : Z)
  (es : list (ChatStreamEvent SourceDocument)) (v : Panel.View SourceDocument)
  (prev : list Panel.Message) (userMessage : Panel.Message) (soFar : text) :
  Panel.messages v
  = (prev ++ [userMessage;
              {| Panel.role := Panel.Assistant; Panel.content := Some soFar;
                 Panel.timestamp := assistantId |}])%list ->
  Panel.fresh assistantId prev ->
  Panel.timestamp userMessage <> assistantId ->
  (forall e, In e es -> Panel.isInterim e = true) ->
  Panel.messages (Panel.duringStream assistantId es v)
  = (prev ++ [userMessage;
              {| Panel.role := Panel.Assistant;
                 Panel.content := Some (soFar ++ Panel.tokensOf es)%list;
                 Panel.timestamp := assistantId |}])%list
  /\ Panel.isThinking (Panel.duringStream assistantId es v) = Panel.isThinking v
  /\ Panel.chatError (Panel.duringStream assistantId es v) = Panel.chatError v.
Proof.
  intros Hmessages Hfresh Huser Hinterim. split; [|split].
  - rewrite duringStream_messages, Hmessages.
    rewrite (updateContent_sent _ _ _ _ _ Hfresh Huser). cbn [Panel.content].
    now rewrite (contentAfter_interim _ es soFar Hinterim).
  - now apply duringStream_isThinking.
  - apply duringStream_chatError. intros e He. specialize (Hinterim e He).
    now destruct e.
Qed.

Lemma duringStream_shows_tokens_witness :
  Panel.messages
    (Panel.duringStream 1700000001001
       (events (streamChatRequest parseSample tokensOnly)) waitingView)
  = [greetingMessage; question;
     {| Panel.role := Panel.Assistant;
        Panel.content := Some (textOf "Hi there");
        Panel.timestamp := 1700000001001 |}].
Proof.
  apply (duringStream_shows_tokens unit 1700000001001
           (events (streamChatRequest parseSample tokensOnly)) waitingView
           [greetingMessage] question []).
  - reflexivity.
  - intros m [<-|[]]. cbn. lia.
  - cbn. lia.
  - vm_compute. intros e [<-|[<-|[]]]; reflexivity.
Defined.

Lemma duringStream_input (SourceDocument : Type) (assistantId : Z)
      (es : list (ChatStreamEvent SourceDocument)) :
  forall v : Panel.View SourceDocument,
    Panel.input (Panel.duringStream assistantId es v) = Panel.input v.
Proof.
  unfold Panel.duringStream.
  induction es as [|e es IH]; intros v; cbn [fold_left]; [reflexivity|].
  rewrite IH. destruct e; reflexivity.
Qed.



Lemma updateContent_shown (assistantId : Z) (newContent : Panel.Message -> option text)
      (prev : list Panel.Message) :
  (forall message, In message prev -> Panel.content message <> None) ->
  (forall message, newContent message <> None) ->
  forall message,
    In message (Panel.updateContent assistantId newContent prev) ->
    Panel.content message <> None.
Proof.
  intros Hprev Hnew message Hin. unfold Panel.updateContent in Hin.
  apply in_map_iff in Hin. destruct Hin as (m & <- & Hm).
  destruct (Z.eqb (Panel.timestamp m) assistantId); [apply Hnew | now apply Hprev].
Qed.

(** A state that the render can show stays one, event after event, as
    long as the [end] and [cached] events carry an answer and sources. *)
Lemma duringStream_renders (SourceDocument : Type) (assistantId : Z)
      (es : list (ChatStreamEvent SourceDocument)) :
  forall w : Panel.View SourceDocument,
    Panel.renders w ->
    (forall e, In e es -> Panel.carried e) ->
    Panel.renders (Panel.duringStream assistantId es w).
Proof.
  unfold Panel.duringStream.
  induction es as [|e es IH]; intros w Hw Hall; cbn [fold_left]; [exact Hw|].
  apply IH; [|intros x Hx; apply Hall; now right].
  assert (He : Panel.carried e) by (apply Hall; now left).
  destruct Hw as (Hsources & Hmessages).
  destruct e; cbn [Panel.onStreamEvent Panel.carried] in *; split;
    cbn [Panel.sources Panel.messages Panel.setSources Panel.setMessages
         Panel.setLatestSummary Panel.setIsThinking Panel.setChatError];
    try exact Hsources; try exact Hmessages; try discriminate; try apply He;
    apply updateContent_shown; try exact Hmessages; intros; try discriminate;
    apply He.
Qed.



(** ** The backend URL *)

Lemma readBackendUrl_clean (access : Storage.Access) (stored : Storage.Stored)
      (url : string) :
  Storage.readBackendUrl access stored = Some url ->
  url <> EmptyString /\ trimmed url.
Proof.
  unfold Storage.readBackendUrl, trimmed.
  assert (Hkept : forall value,
             (if nonEmpty (trim value) then Some (trim value) else None) = Some url ->
             url <> EmptyString /\ trim url = url).
  { intros value. destruct (nonEmpty (trim value)) eqn:E; [|discriminate].
    intros [= <-]. split; [now apply nonEmpty_true | apply trim_idempotent]. }
  destruct (Storage.chromeStorageAvailable access).
  - destruct (Storage.lastError access); [discriminate|].
    destruct (Storage.sync stored) as [[]|]; try discriminate. apply Hkept.
  - apply Hkept.
Qed.

Lemma saveBackendUrl_then_read_gen
  (access later : Storage.Access) (value : string) (stored : Storage.Stored) :
  Storage.chromeStorageAvailable later = Storage.chromeStorageAvailable access ->
  Storage.lastError later = None ->
  match Storage.saveBackendUrl access value stored with
  | (Return _, kept) =>
      Storage.readBackendUrl later kept
      = if nonEmpty (trim value) then Some (trim value) else None
  | (Throw _, kept) => kept = stored
  end.
Proof.
  intros Hsame Hquiet. unfold Storage.saveBackendUrl, Storage.readBackendUrl.
  rewrite Hsame, Hquiet.
  destruct (Storage.chromeStorageAvailable access).
  - destruct (Storage.lastError access); [reflexivity|].
    cbn [Storage.sync]. now rewrite trim_idempotent.
  - cbn [Storage.local]. now rewrite trim_idempotent.
Qed.

(** X23.  Saving a backend URL and reading it back: when the save went
    through and the read meets no error, the read gives the value trimmed,
    or [null] when nothing is left of it; a save that is rejected left
    what was kept as it was. *)
Theorem saveBackendUrl_then_read
  (access later : Storage.Access) (value : string) (stored : Storage.Stored) :
  Storage.chromeStorageAvailable later = Storage.chromeStorageAvailable access ->
  Storage.lastError later = None ->
  match Storage.saveBackendUrl access value stored with
  | (Return _, kept) =>
      Storage.readBackendUrl later kept
      = if nonEmpty (trim value) then Some (trim value) else None
  | (Throw _, kept) => kept = stored
  end.
Proof. apply saveBackendUrl_then_read_gen. Qed.

Lemma saveBackendUrl_then_read_witness :
  Storage.readBackendUrl
    {| Storage.chromeStorageAvailable := true; Storage.lastError := None |}
    (snd (Storage.saveBackendUrl
            {| Storage.chromeStorageAvailable := true; Storage.lastError := None |}
            "  http://localhost:9000/api/ "
            {| Storage.sync := None; Storage.local := None |}))
  = Some "http://localhost:9000/api/".
Proof.
  exact (saveBackendUrl_then_read
           {| Storage.chromeStorageAvailable := true; Storage.lastError := None |}
           {| Storage.chromeStorageAvailable := true; Storage.lastError := None |}
           "  http://localhost:9000/api/ "
           {| Storage.sync := None; Storage.local := None |}
           eq_refl eq_refl).
Defined.

Lemma normalizeBaseUrl_no_slash (url : string) :
  Client.endsWithSlash url = false -> Client.normalizeBaseUrl url = url.
Proof.
  induction url as [|c rest IH]; [reflexivity|]. cbn [Client.endsWithSlash Client.normalizeBaseUrl].
  destruct rest as [|d rest]; [now intros ->|].
  intros H. now rewrite (IH H).
Qed.

Lemma normalizeBaseUrl_one_slash (url : string) :
  Client.normalizeBaseUrl (url ++ "/") = url.
Proof.
  induction url as [|c rest IH]; [reflexivity|].
  cbn [append Client.normalizeBaseUrl]. rewrite IH.
  destruct rest; reflexivity.
Qed.

(** X24.  Slashes at the seam do not matter: for a stored backend URL
    that is not empty, with or without one slash at its end, and a path
    with or without a slash at its start, [request] fetches the URL and
    the path with one slash between them. *)
Theorem requestUrl_one_slash
  (envBaseUrl : option string) (base path : string) :
  base <> EmptyString ->
  Client.endsWithSlash base = false ->
  startsWith path "/" = false ->
  Client.requestUrl envBaseUrl (Some base) path = base ++ "/" ++ path
  /\ Client.requestUrl envBaseUrl (Some (base ++ "/")) path = base ++ "/" ++ path
  /\ Client.requestUrl envBaseUrl (Some base) ("/" ++ path) = base ++ "/" ++ path
  /\ Client.requestUrl envBaseUrl (Some (base ++ "/")) ("/" ++ path) = base ++ "/" ++ path.
Proof.
  intros Hbase Hend Hpath. unfold Client.requestUrl, Client.resolveBackendUrl.
  assert (Hfull : nonEmpty base = true) by now apply nonEmpty_true.
  assert (Hfull' : nonEmpty (base ++ "/") = true) by (destruct base; reflexivity).
  assert (Hslash : startsWith ("/" ++ path) "/" = true)
    by (unfold startsWith; cbn; now destruct path).
  rewrite Hfull, Hfull', Hpath, Hslash, normalizeBaseUrl_one_slash,
    (normalizeBaseUrl_no_slash base Hend).
  repeat split; reflexivity.
Qed.

Lemma requestUrl_one_slash_witness :
  Client.requestUrl None (Some "http://localhost:9000/api/") "/health"
  = "http://localhost:9000/api/health".
Proof.
  apply (requestUrl_one_slash None "http://localhost:9000/api" "health");
    [discriminate | reflexivity | reflexivity].
Defined.

(** X25.  [checkBackendHealth] answers [true] exactly when the fetch of
    the health URL resolved with a response that is [ok] and whose body
    could be read and is empty or is JSON; what the JSON says plays no
    part.  It never rejects. *)
Theorem checkBackendHealth_true
  (fetch : string -> Completion Client.Response)
  (JSON_parse : string -> JsValue + string)
  (envBaseUrl stored : option string) :
  Client.checkBackendHealth fetch JSON_parse envBaseUrl stored = true
  <-> exists response body,
        fetch (Client.requestUrl envBaseUrl stored "/health") = Return response
        /\ Client.ok response = true
        /\ Client.bodyText response = Return body
        /\ (body = EmptyString \/ exists value, JSON_parse body = inl value).
Proof.
  unfold Client.checkBackendHealth, Client.request, Client.parseJson.
  destruct (fetch (Client.requestUrl envBaseUrl stored "/health")) as [response|e];
    cbn [bind].
  2:{ split; [discriminate | now intros (r & b & H & _)]. }
  destruct (Client.ok response) eqn:Hok; cbn [negb].
  - destruct (Client.bodyText response) as [body|e] eqn:Hbody; cbn [bind].
    + destruct body as [|c body]; cbn [nonEmpty negb].
      * split; [|reflexivity]. intros _. exists response, EmptyString.
        repeat split; auto.
      * destruct (JSON_parse (String c body)) as [value|message] eqn:Hjson.
        -- split; [|reflexivity]. intros _. exists response, (String c body).
           repeat split; eauto.
        -- split; [discriminate|].
           intros (r & b & [= <-] & _ & Hb & Hj). rewrite Hbody in Hb.
           injection Hb as <-. destruct Hj as [Hj|(v & Hj)]; [discriminate Hj|].
           rewrite Hjson in Hj. discriminate Hj.
    + split; [discriminate|].
      intros (r & b & [= <-] & _ & Hb & _). rewrite Hbody in Hb. discriminate Hb.
  - destruct (Client.bodyText response); cbn [bind];
      (split; [discriminate|]);
      intros (r & b & [= <-] & Hok' & _); rewrite Hok in Hok'; discriminate Hok'.
Qed.

(** X26.  Whatever is kept in storage, a backend URL that
    [readBackendUrl] resolves with is not empty and has no white space
    around it; and [resolveBackendUrl] then takes it, whatever the
    environment offers, less one slash at its end. *)
Theorem readBackendUrl_wins
  (access : Storage.Access) (stored : Storage.Stored) (url : string) :
  Storage.readBackendUrl access stored = Some url ->
  url <> EmptyString /\ trimmed url
  /\ forall envBaseUrl,
       Client.resolveBackendUrl envBaseUrl (Some url) = Client.normalizeBaseUrl url.
Proof.
  intros Hread. destruct (readBackendUrl_clean access stored url Hread) as (Hne & Htrim).
  split; [exact Hne|]. split; [exact Htrim|].
  intros envBaseUrl. unfold Client.resolveBackendUrl.
  apply nonEmpty_true in Hne. now rewrite Hne.
Qed.

Lemma readBackendUrl_wins_witness :
  Client.resolveBackendUrl (Some "http://env:1/")
    (Some "http://localhost:9000/api/")
  = "http://localhost:9000/api".
Proof.
  exact (proj2 (proj2 (readBackendUrl_wins
                         {| Storage.chromeStorageAvailable := false;
                            Storage.lastError := None |}
                         {| Storage.sync := None;
                            Storage.local := Some " http://localhost:9000/api/ " |}
                         "http://localhost:9000/api/" eq_refl))
           (Some "http://env:1/")).
Defined.

(** ** The content script *)

Section ContentScriptFacts.

Variable Snapshot : Type.
Variable Parsed : Type.
Variable scrapeProblem : Snapshot -> Completion (option Parsed).

Let Waiting := ContentScript.Waiting Parsed.
Let onEvent := ContentScript.onEvent Snapshot Parsed scrapeProblem.

Lemma onEvent_stopped (es : list (ContentScript.PageEvent Snapshot)) :
  forall w : Waiting,
    ContentScript.listening _ w = false -> fold_left onEvent es w = w.
Proof.
  induction es as [|e es IH]; intros w Hw; cbn [fold_left]; [reflexivity|].
  assert (Hstep : onEvent w e = w)
    by (unfold onEvent, ContentScript.onEvent; now rewrite Hw).
  rewrite Hstep. now apply IH.
Qed.

Lemma onEvent_pending (es : list (ContentScript.PageEvent Snapshot)) :
  forall w : Waiting,
    ContentScript.listening _ w = true ->
    ContentScript.settledWith _ (ContentScript.onTimeout _ (fold_left onEvent es w))
    = match ContentScript.settledWith _ w with
      | Some first => Some first
      | None =>
          Some match ContentScript.firstFound _ _ scrapeProblem
                       (ContentScript.attempts _ es) with
               | Some found => Return found
               | None => Throw (ErrorMsg ContentScript.COULD_NOT_DETECT)
               end
      end.
Proof.
  induction es as [|e es IH]; intros w Hw; cbn [fold_left].
  - unfold ContentScript.onTimeout. rewrite Hw. cbn.
    destruct (ContentScript.settledWith _ w); reflexivity.
  - assert (Hattempt : forall page now,
               ContentScript.settledWith _
                 (ContentScript.onTimeout _
                    (fold_left onEvent es
                       match ContentScript.attempt _ _ scrapeProblem page now w with
                       | Return w' => w'
                       | Throw _ => w
                       end))
               = match ContentScript.settledWith _ w with
                 | Some first => Some first
                 | None =>
                     Some match ContentScript.firstFound _ _ scrapeProblem
                                  ((page, now) :: ContentScript.attempts _ es) with
                          | Some found => Return found
                          | None => Throw (ErrorMsg ContentScript.COULD_NOT_DETECT)
                          end
                 end).
    { intros page now. unfold ContentScript.attempt. cbn [ContentScript.firstFound].
      destruct (scrapeProblem page) as [[found|]|err]; cbn [bind].
      - rewrite onEvent_stopped by reflexivity.
        unfold ContentScript.onTimeout. cbn.
        destruct (ContentScript.settledWith _ w); reflexivity.
      - now apply IH.
      - now apply IH. }
    unfold onEvent at 2. unfold ContentScript.onEvent. rewrite Hw. cbn [negb].
    destruct e as [page now|[] page now]; cbn [ContentScript.attempts].
    + apply Hattempt.
    + now apply IH.
    + apply Hattempt.
    + apply Hattempt.
Qed.

Lemma waitForProblem_result (page0 : Snapshot) (now0 : Z)
      (es : list (ContentScript.PageEvent Snapshot)) :
  ContentScript.waitForProblem _ _ scrapeProblem page0 now0 es
  = Some match scrapeProblem page0 with
         | Throw e => Throw e
         | Return (Some found) => Return (found, now0)
         | Return None =>
             match ContentScript.firstFound _ _ scrapeProblem
                     (ContentScript.attempts _ es) with
             | Some found => Return found
             | None => Throw (ErrorMsg ContentScript.COULD_NOT_DETECT)
             end
         end.
Proof.
  unfold ContentScript.waitForProblem, ContentScript.attempt.
  destruct (scrapeProblem page0) as [[found|]|err]; cbn [bind].
  - fold onEvent. rewrite onEvent_stopped by reflexivity. reflexivity.
  - fold onEvent. now rewrite onEvent_pending.
  - fold onEvent. now rewrite onEvent_pending.
Qed.

End ContentScriptFacts.

(** X27.  The promise of [waitForProblem] always settles, and with what:
    when the first attempt, made at once, throws, it is rejected with
    what was thrown, whatever shows up later; when the first attempt finds
    the problem, it resolves with it and the time of the call; otherwise it
    resolves with the problem and the time of the first mutation or
    [readystatechange] (the ones in state [loading] left out) at which
    [scrapeProblem] returns a problem, attempts that throw being passed
    over; and when there is none before the timer, it is rejected with the
    fixed message. *)
Theorem waitForProblem_outcome
  (Snapshot Parsed : Type) (scrapeProblem : Snapshot -> Completion (option Parsed))
  (page0 : Snapshot) (now0 : Z) (pageEvents : list (ContentScript.PageEvent Snapshot)) :
  ContentScript.waitForProblem _ _ scrapeProblem page0 now0 pageEvents
  = Some match scrapeProblem page0 with
         | Throw e => Throw e
         | Return (Some found) => Return (found, now0)
         | Return None =>
             match ContentScript.firstFound _ _ scrapeProblem
                     (ContentScript.attempts _ pageEvents) with
             | Some found => Return found
             | None => Throw (ErrorMsg ContentScript.COULD_NOT_DETECT)
             end
         end.
Proof. apply waitForProblem_result. Qed.

(** X28.  The listener of the content script answers a SCRAPE_PROBLEM
    message by returning [true] and calling [sendResponse] exactly once:
    with the problem and its time stamp when [waitForProblem] resolved, and
    otherwise with a failure that carries a message.  For any other
    message it returns [undefined] and never replies. *)
Theorem contentScript_replies_once
  (Snapshot Parsed : Type) (scrapeProblem : Snapshot -> Completion (option Parsed))
  (message : JsValue) (page0 : Snapshot) (now0 : Z)
  (pageEvents : list (ContentScript.PageEvent Snapshot)) :
  let handled := ContentScript.onMessage _ _ scrapeProblem message page0 now0 pageEvents in
  (hasType message "SCRAPE_PROBLEM" ->
   ContentScript.returned handled = Some true
   /\ exists reply,
        ContentScript.replies handled = [reply]
        /\ (forall found,
              ContentScript.waitForProblem _ _ scrapeProblem page0 now0 pageEvents
              = Some (Return found) ->
              reply = {| ContentScript.success := true;
                         ContentScript.problem := Some found;
                         ContentScript.error := None |})
        /\ (forall e,
              ContentScript.waitForProblem _ _ scrapeProblem page0 now0 pageEvents
              = Some (Throw e) ->
              reply = {| ContentScript.success := false;
                         ContentScript.problem := None;
                         ContentScript.error := Some (ContentScript.toErrorMessage e) |}))
  /\ (~ hasType message "SCRAPE_PROBLEM" ->
      ContentScript.returned handled = None /\ ContentScript.replies handled = []).
Proof.
  cbn zeta. unfold ContentScript.onMessage, hasType. split.
  - intros (Hobj & Htype).
    assert (Htruthy : truthy message = true)
      by (destruct message; try discriminate Hobj; reflexivity).
    rewrite Htruthy, Hobj, Htype. cbn [negb orb]. rewrite String.eqb_refl.
    cbn [ContentScript.returned ContentScript.replies]. split; [reflexivity|].
    rewrite waitForProblem_result.
    match goal with
    | |- context [Some ?r] => destruct r as [found|e]
    end.
    + eexists. split; [reflexivity|]. split.
      * now intros found' [= <-].
      * discriminate.
    + eexists. split; [reflexivity|]. split.
      * discriminate.
      * now intros e' [= <-].
  - intros Hnot.
    destruct (truthy message) eqn:Et; cbn [negb orb]; [|now split].
    destruct (isObject message) eqn:Eo; cbn [negb]; [|now split].
    destruct (get message "type") as [| | | | type | |] eqn:Eg; try now split.
    destruct (String.eqb type "SCRAPE_PROBLEM") eqn:E; [|now split].
    apply String.eqb_eq in E. subst type. exfalso. apply Hnot. now split.
Qed.

Lemma contentScript_replies_once_witness :
  exists reply,
    ContentScript.replies
      (ContentScript.onMessage _ _ (scrapeProblem readShort)
         (JObj [("type", JStr "SCRAPE_PROBLEM")]) blankPage 1700000000000
         [ContentScript.ReadyStateChange ContentScript.Loading twoSumPage 1700000000100;
          ContentScript.Mutation blankPage 1700000000200;
          ContentScript.Mutation twoSumPage 1700000000300;
          ContentScript.Mutation twoSumPage 1700000000400])
    = [reply]
    /\ reply = {| ContentScript.success := true;
                  ContentScript.problem := Some (twoSumParsed, 1700000000300%Z);
                  ContentScript.error := None |}.
Proof.
  destruct (proj1 (contentScript_replies_once _ _ (scrapeProblem readShort)
                     (JObj [("type", JStr "SCRAPE_PROBLEM")]) blankPage 1700000000000
                     [ContentScript.ReadyStateChange ContentScript.Loading twoSumPage
                        1700000000100;
                      ContentScript.Mutation blankPage 1700000000200;
                      ContentScript.Mutation twoSumPage 1700000000300;
                      ContentScript.Mutation twoSumPage 1700000000400]))
    as (_ & reply & Hreply & Hfound & _).
  - split; reflexivity.
  - exists reply. split; [exact Hreply|]. apply Hfound. reflexivity.
Defined.

Lemma onMessage_only_known_types_witness :
  returned (onMessage readyBrowser (JObj [("type", JStr "PING")])) = None
  /\ repliesOf (onMessage readyBrowser (JObj [("type", JStr "PING")])) = None.
Proof.
  apply (proj2 (onMessage_only_known_types readyBrowser (JObj [("type", JStr "PING")]))).
  discriminate.
Defined.

Lemma checkBackendHealth_true_witness :
  Client.checkBackendHealth emptyBackend parseBraces None None = true.
Proof.
  apply (proj2 (checkBackendHealth_true emptyBackend parseBraces None None)).
  eexists. exists EmptyString. repeat split. now left.
Defined.

Example checkBackendHealth_html :
  Client.checkBackendHealth htmlBackend parseBraces None None = false.
Proof. reflexivity. Qed.

(** ** The settings page *)

(** X29.  Saving from the settings page: a field that is blank is
    refused and nothing is stored; when the status says saved, the next
    read (that meets no error) gives the field's value trimmed, which is
    not empty; and when the save failed, what was kept is as it was. *)
Theorem handleSave_then_read
  (backendUrl : string) (access later : Storage.Access) (stored : Storage.Stored) :
  Storage.chromeStorageAvailable later = Storage.chromeStorageAvailable access ->
  Storage.lastError later = None ->
  match Settings.handleSave backendUrl access stored with
  | (Settings.Saved, kept) =>
      Storage.readBackendUrl later kept = Some (trim backendUrl)
      /\ trim backendUrl <> EmptyString
  | (Settings.ProvideUrl, kept) => kept = stored /\ trim backendUrl = EmptyString
  | (Settings.UnableToSave _, kept) => kept = stored
  end.
Proof.
  intros Hsame Hquiet. unfold Settings.handleSave.
  destruct (nonEmpty (trim backendUrl)) eqn:Hfull; cbn [negb].
  - pose proof (saveBackendUrl_then_read_gen access later (trim backendUrl) stored
                  Hsame Hquiet) as H.
    destruct (Storage.saveBackendUrl access (trim backendUrl) stored) as [[[]|e] kept].
    + rewrite trim_idempotent, Hfull in H. split; [exact H|]. now apply nonEmpty_true.
    + exact H.
  - split; [reflexivity|]. destruct (trim backendUrl); [reflexivity | discriminate].
Qed.

Lemma handleSave_then_read_witness :
  Storage.readBackendUrl
    {| Storage.chromeStorageAvailable := false; Storage.lastError := None |}
    (snd (Settings.handleSave " http://localhost:9000/api "
            {| Storage.chromeStorageAvailable := false; Storage.lastError := None |}
            {| Storage.sync := None; Storage.local := None |}))
  = Some "http://localhost:9000/api".
Proof.
  exact (proj1 (handleSave_then_read " http://localhost:9000/api "
                  {| Storage.chromeStorageAvailable := false; Storage.lastError := None |}
                  {| Storage.chromeStorageAvailable := false; Storage.lastError := None |}
                  {| Storage.sync := None; Storage.local := None |}
                  eq_refl eq_refl)).
Defined.
